(** * Rocket.Chat importer: identifier remapping and message conversion

    A shallow embedding of [zerver/data_import/rocketchat.py] and of its
    earlier variant [zerver/data_import/rocketchat1.py], with the properties
    of the conversion pipeline proved about it.

    Conventions of the embedding:
    - a Python [str] is a [string]; one character of the embedding stands for
      one code point, and every string function below is generic in the
      alphabet ([len], [replace], [split], equality);
    - a Python [dict] keyed by source ids is a [gmap string _]; a [dict]
      keyed by target ids is a [gmap nat _];
    - identifiers handed out by the sequencer and by the id mappers are
      natural numbers;
    - a Python [set] of ints that the code iterates over is the list of its
      elements in iteration order, without repetition.  The language does
      not fix that order, so the order is a parameter of the run
      ([PySet.order]), and every statement is proved for every order;
    - the mutable stores shared by the stages (id mappers, named counters,
      accumulated reactions, written files, log) form one [State] threaded
      through a state-and-error monad; a Python exception is an [Error]. *)

From Stdlib Require Import ZArith Ascii.
From stdpp Require Import gmap strings list pretty sorting.


(** ** Exceptions and the conversion monad *)

Inductive Error : Type :=
  | KeyError (key : string)
  | IndexError.

Inductive result (A : Type) : Type :=
  | Ok (a : A)
  | Raise (e : Error).
Arguments Ok {A} a.
Arguments Raise {A} e.

(** ** IdMapper *)

Module IdMapper.

Record t : Type := Build { map : gmap string nat; cnt : nat }.

(** Modelled from the spec: [zerver.data_import.sequencer.IdMapper] is not
    among the sources.  One instance per namespace; the floor is the first
    integer handed out (default 0). *)
Definition new (floor : nat) : t := {| map := ∅; cnt := floor |}.

(** Modelled from the spec: [IdMapper.get].  A key seen before yields the
    integer recorded for it; an unseen key is given the next integer, and
    the assignment is recorded.  Nothing is ever removed. *)
Definition get (their_id : string) (m : t) : nat * t :=
  match map m !! their_id with
  | Some our_id => (our_id, m)
  | None => (cnt m, {| map := <[their_id := cnt m]> (map m); cnt := S (cnt m) |})
  end.

(** The state of a mapper after a sequence of calls of [get]. *)
Definition gets (keys : list string) (m : t) : t :=
  foldl (λ m k, (get k m).2) m keys.

(** The keys of a call history without repetition, first occurrence kept. *)
Fixpoint seen (keys : list string) : list string :=
  match keys with
  | [] => []
  | k :: ks => k :: filter (λ k', k' ≠ k) (seen ks)
  end.


(** What every reachable mapper satisfies: handed-out integers lie between
    the floor and the counter, no integer is handed out twice, and the
    counter is the floor plus the number of keys recorded. *)
Record inv (floor : nat) (m : t) : Prop := {
  inv_range : ∀ k v, map m !! k = Some v → floor ≤ v < cnt m;
  inv_inj : ∀ k1 k2 v, map m !! k1 = Some v → map m !! k2 = Some v → k1 = k2;
  inv_cnt : cnt m = floor + size (map m);
}.

End IdMapper.

(** ** Python strings *)

Module Py.

(** [len(s)] *)
Definition len (s : string) : Z := Z.of_nat (String.length s).

(** [str(n)] for a non-negative int. *)
Definition str (n : nat) : string := pretty n.

Fixpoint zeros (k : nat) : string :=
  match k with
  | 0 => ""
  | S k' => String "0"%char (zeros k')
  end.

(** The format specification [{n:06}]: decimal, padded with zeros on the
    left up to six digits. *)
Definition format_06 (n : nat) : string :=
  let digits := str n in
  zeros (6 - String.length digits) +:+ digits.

(** [s.replace(old, new)] scans [s] from the left; where [old] starts, it
    emits [new] and jumps over the occurrence, elsewhere it copies one
    character.  [skip] counts the characters of an occurrence still to be
    jumped over. *)
Fixpoint replace_from (old new : string) (skip : nat) (s : string) : string :=
  match s with
  | EmptyString => EmptyString
  | String c s' =>
      match skip with
      | S k => replace_from old new k s'
      | 0 =>
          if String.prefix old s
          then new +:+ replace_from old new (String.length old - 1) s'
          else String c (replace_from old new 0 s')
      end
  end.

(** With an empty [old], Python puts [new] before every character and at
    the end. *)
Fixpoint intersperse (new s : string) : string :=
  match s with
  | EmptyString => new
  | String c s' => new +:+ String c (intersperse new s')
  end.

Definition replace (old new s : string) : string :=
  match old with
  | EmptyString => intersperse new s
  | String _ _ => replace_from old new 0 s
  end.

(** [s.split(sep)] for a one-character separator. *)
Fixpoint split (sep : ascii) (s : string) : list string :=
  match s with
  | EmptyString => [EmptyString]
  | String c s' =>
      if decide (c = sep) then EmptyString :: split sep s'
      else match split sep s' with
           | [] => [String c EmptyString]
           | w :: ws => String c w :: ws
           end
  end.

(** A value in a boolean context: [None] and the empty string are false. *)
Definition truthy (o : option string) : bool :=
  match o with
  | Some (String _ _) => true
  | _ => false
  end.

End Py.

(** ** Python sets of integers *)

Module PySet.

(** The order in which a [for] loop yields the elements of a [set] is not
    fixed by the language: it is the order of the hash table behind the set,
    and depends on the values and on the order in which they were added.
    [iterate added] lists the elements of the set built from the empty set
    by the calls [add(x)], for [x] through [added], in the order in which
    the set is iterated: every value added, once. *)
Record order : Type := Order {
  iterate : list nat → list nat;
  iterate_NoDup : ∀ added, NoDup (iterate added);
  iterate_elem : ∀ added x, x ∈ iterate added ↔ x ∈ added;
}.

(** The ascending order.  It is the order of CPython for a set of a few small
    non-negative integers: such an integer is its own hash and, below the
    size of the table, has a slot of its own. *)
Definition ascending : order.
Proof.
  refine {| iterate := λ added, merge_sort (≤) (remove_dups added) |}.
  - intros added. rewrite merge_sort_Permutation. apply NoDup_remove_dups.
  - intros added x. rewrite merge_sort_Permutation. apply elem_of_remove_dups.
Defined.

(** The order of the first additions, another admissible order. *)
Definition as_added : order.
Proof.
  refine {| iterate := λ added, reverse (remove_dups (reverse added)) |}.
  - intros added. rewrite reverse_Permutation. apply NoDup_remove_dups.
  - intros added x.
    by rewrite !reverse_Permutation, elem_of_remove_dups, reverse_Permutation.
Defined.

End PySet.

(** ** Source and target records *)

(** A record of the [rocketchat_room] collection, with the fields the
    importer reads.  [_id] and [t] are present in every room document; a
    field read through [.get] or guarded by a test is optional. *)
Record Channel : Type := {
  ch_id : string;                    (* channel["_id"] *)
  ch_t : string;                     (* channel["t"] *)
  ch_prid : option string;           (* channel.get("prid") *)
  ch_fname : option string;          (* channel["fname"] *)
  ch_uids : option (list string);    (* channel["uids"] *)
  ch_teamMain : option bool;         (* channel.get("teamMain") *)
  ch_teamId : option string;         (* channel["teamId"] *)
}.

(** A record of the [rocketchat_message] collection.  [m_mentions] lists
    [mention["_id"]] over [message.get("mentions", [])]; [m_reactions] lists
    the reaction map in iteration order, each code with its ["usernames"]. *)
Record SourceMessage : Type := {
  m_sender : string;                           (* message["u"]["_id"] *)
  m_msg : string;                              (* message["msg"] *)
  m_ts : Z;                                    (* int(message["ts"].timestamp()) *)
  m_rid : option string;                       (* message.get("rid") *)
  m_t : option string;                         (* message.get("t") *)
  m_mentions : list string;
  m_reactions : list (string * list string);
}.

(** The user dictionary kept by [UserHandler], with the fields read here. *)
Record UserProfile : Type := {
  up_id : nat;
  up_full_name : string;
  up_short_name : string;
}.

(** The dictionary returned by [message_to_dict].  [mention_user_ids] is a
    set that is iterated and never modified afterwards: the field holds its
    elements in iteration order. *)
Record RawMessage : Type := {
  sender_id : nat;
  content : string;
  date_sent : Z;
  reactions : list (string * nat);   (* {"name": ..., "user_id": ...} *)
  recipient_id : nat;
  topic_name : string;
  mention_user_ids : list nat;
}.

(** Modelled from the spec: [import_util.build_message] is not among the
    sources; a target message holds the values it is built from. *)
Record Message : Type := build_message {
  msg_content : string;
  msg_id : nat;
  msg_date_sent : Z;
  msg_recipient : nat;
  msg_rendered_content : option string;
  msg_topic_name : string;
  msg_sender : nat;
  msg_has_attachment : bool;
}.

Inductive ReactionType : Type := UNICODE_EMOJI.

(** The dictionary appended to [total_reactions]. *)
Record Reaction : Type := {
  r_id : nat;
  r_emoji_code : string;
  r_emoji_name : string;
  r_reaction_type : ReactionType;
  r_message : nat;
  r_user_profile : nat;
}.

(** A delivery record; [make_user_messages] is taken as a parameter. *)
Record UserMessage : Type := {
  um_user_profile : nat;
  um_message : nat;
  um_flags_mask : nat;
}.

(** The content of one [messages-NNNNNN.json]. *)
Record MessageJson : Type := {
  zerver_message : list Message;
  zerver_usermessage : list UserMessage;
}.

(** ** UserHandler *)

Module UserHandler.

(** Modelled from the spec: [zerver.data_import.user_handler.UserHandler]
    is not among the sources.  Users are kept in the order they were
    added. *)
Definition t : Type := list UserProfile.

Definition new : t := [].

(** Modelled from the spec: the record registered under an id; it fails
    when the id is unknown. *)
Definition get_user (user_id : nat) (h : t) : result UserProfile :=
  match list_find (λ u, up_id u = user_id) h with
  | Some (_, u) => Ok u
  | None => Raise (KeyError (Py.str user_id))
  end.

(** Modelled from the spec: registering an id already present is fatal. *)
Definition add_user (u : UserProfile) (h : t) : result t :=
  match list_find (λ u', up_id u' = up_id u) h with
  | Some _ => Raise (KeyError (Py.str (up_id u)))
  | None => Ok (h ++ [u])
  end.

(** Modelled from the spec: all users, in the order they were added. *)
Definition get_all_users (h : t) : list UserProfile := h.

End UserHandler.

(** ** The shared stores and the read-only context of a run *)

Record State : Type := {
  user_id_mapper : IdMapper.t;
  stream_id_mapper : IdMapper.t;
  counters : gmap string nat;               (* the table behind [NEXT_ID] *)
  total_reactions : list Reaction;
  files : list (string * MessageJson);      (* files written, oldest first *)
  log : list string;                        (* [logging.info] lines *)
}.

(** The four indexes filled by [categorize_channels_and_map_with_id]. *)
Record ChannelMaps : Type := {
  room_id_to_room_map : gmap string Channel;
  team_id_to_team_map : gmap string Channel;
  dsc_id_to_dsc_map : gmap string Channel;
  direct_id_to_direct_map : gmap string Channel;
}.

Record Env : Type := {
  realm_id : nat;
  username_to_user_id_map : gmap string string;
  user_id_to_recipient_id : gmap nat nat;
  stream_id_to_recipient_id : gmap nat nat;
  channel_maps : ChannelMaps;   (* of which the direct and discussion indexes are read *)
  user_handler : UserHandler.t;
  subscriber_map : gmap nat (list nat);
  (* [zerver.lib.emoji.name_to_codepoint], a table outside the sources *)
  name_to_codepoint : gmap string string;
  (* [import_util.make_user_messages], outside the sources *)
  make_user_messages :
    list Message → gmap nat (list nat) → bool → gmap nat (list nat) → list UserMessage;
  (* the order in which the interpreter iterates over a set of user ids *)
  set_order : PySet.order;
}.

Definition M (A : Type) : Type := State → result (A * State).

Definition ret {A} (a : A) : M A := λ st, Ok (a, st).

Definition bind {A B} (c : M A) (k : A → M B) : M B :=
  λ st, match c st with
        | Ok (a, st') => k a st'
        | Raise e => Raise e
        end.

Definition raise {A} (e : Error) : M A := λ _, Raise e.

Definition lift {A} (r : result A) : M A :=
  λ st, match r with
        | Ok a => Ok (a, st)
        | Raise e => Raise e
        end.

Declare Scope conv_scope.
Delimit Scope conv_scope with conv.
Notation "'let*' x := c 'in' k" := (bind c (λ x, k))
  (at level 10, x pattern, c at level 100, k at level 200) : conv_scope.
Notation "c ;; k" := (bind c (λ _, k))
  (at level 100, k at level 200, right associativity) : conv_scope.
Open Scope conv_scope.

(** [for x in l: acc = body(acc, x)] *)
Fixpoint fold_for {A B} (body : B → A → M B) (l : list A) (acc : B) : M B :=
  match l with
  | [] => ret acc
  | x :: l' => let* acc' := body acc x in fold_for body l' acc'
  end.

(** The same over the exception-only monad. *)
Fixpoint fold_result {A B} (body : B → A → result B) (l : list A) (acc : B) : result B :=
  match l with
  | [] => Ok acc
  | x :: l' =>
      match body acc x with
      | Ok acc' => fold_result body l' acc'
      | Raise e => Raise e
      end
  end.

(** [d[key]] on a dictionary: [KeyError] when the key is absent. *)
Definition subscript `{Countable K} {V} (d : gmap K V) (key : K) (shown : string) : M V :=
  match d !! key with
  | Some v => ret v
  | None => raise (KeyError shown)
  end.

(** [o[field]] on a record field that may be absent. *)
Definition field {V} (o : option V) (name : string) : M V :=
  match o with
  | Some v => ret v
  | None => raise (KeyError name)
  end.

(** [l[i]] on a list: [IndexError] when out of range. *)
Definition index {V} (l : list V) (i : nat) : M V :=
  match l !! i with
  | Some v => ret v
  | None => raise IndexError
  end.

Definition user_id_mapper_get (their_id : string) : M nat :=
  λ st, let (our_id, m) := IdMapper.get their_id (user_id_mapper st) in
        Ok (our_id, {| user_id_mapper := m;
                       stream_id_mapper := stream_id_mapper st;
                       counters := counters st;
                       total_reactions := total_reactions st;
                       files := files st;
                       log := log st |}).

Definition stream_id_mapper_get (their_id : string) : M nat :=
  λ st, let (our_id, m) := IdMapper.get their_id (stream_id_mapper st) in
        Ok (our_id, {| user_id_mapper := user_id_mapper st;
                       stream_id_mapper := m;
                       counters := counters st;
                       total_reactions := total_reactions st;
                       files := files st;
                       log := log st |}).

(** Modelled from the spec: [zerver.data_import.sequencer.NEXT_ID] is not
    among the sources.  It returns the current value of the named counter
    and then increments it; a name not seen before starts at 0. *)
Definition NEXT_ID (name : string) : M nat :=
  λ st, let value := default 0 (counters st !! name) in
        Ok (value, {| user_id_mapper := user_id_mapper st;
                      stream_id_mapper := stream_id_mapper st;
                      counters := <[name := S value]> (counters st);
                      total_reactions := total_reactions st;
                      files := files st;
                      log := log st |}).

(** [total_reactions.append(r)] *)
Definition append_reaction (r : Reaction) : M unit :=
  λ st, Ok (tt, {| user_id_mapper := user_id_mapper st;
                   stream_id_mapper := stream_id_mapper st;
                   counters := counters st;
                   total_reactions := total_reactions st ++ [r];
                   files := files st;
                   log := log st |}).

(** [logging.info(line)] *)
Definition logging_info (line : string) : M unit :=
  λ st, Ok (tt, {| user_id_mapper := user_id_mapper st;
                   stream_id_mapper := stream_id_mapper st;
                   counters := counters st;
                   total_reactions := total_reactions st;
                   files := files st;
                   log := log st ++ [line] |}).

(** Modelled from the spec: [import_util.create_converted_data_files] is not
    among the sources.  Serialising a chunk writes one output artifact; it
    is recorded with its name and content (the output directory, the same
    for every file of a run, is left out of the name). *)
Definition create_converted_data_files (data : MessageJson) (file : string) : M unit :=
  λ st, Ok (tt, {| user_id_mapper := user_id_mapper st;
                   stream_id_mapper := stream_id_mapper st;
                   counters := counters st;
                   total_reactions := total_reactions st;
                   files := files st ++ [(file, data)];
                   log := log st |}).

(** Modelled from the spec: [zerver.lib.utils.process_list_in_batches] is not
    among the sources.  The list is cut into contiguous chunks of
    [chunk_size] records, in order, the last one possibly shorter, and each
    chunk is handed to [process_batch]; it stops at the first empty chunk.
    [fuel] bounds the number of chunks. *)
Fixpoint batches_from {A} (fuel : nat) (lst : list A) (chunk_size : nat)
    (process_batch : list A → M unit) (offset : nat) : M unit :=
  match fuel with
  | 0 => ret tt
  | S fuel' =>
      match take chunk_size (drop offset lst) with
      | [] => ret tt
      | items =>
          process_batch items;;
          batches_from fuel' lst chunk_size process_batch (offset + chunk_size)
      end
  end.

Definition process_list_in_batches {A} (lst : list A) (chunk_size : nat)
    (process_batch : list A → M unit) : M unit :=
  batches_from (S (length lst)) lst chunk_size process_batch 0.

(** ** rocketchat.py *)

Definition empty_maps : ChannelMaps :=
  {| room_id_to_room_map := ∅; team_id_to_team_map := ∅;
     dsc_id_to_dsc_map := ∅; direct_id_to_direct_map := ∅ |}.

(** The body of the loop of [categorize_channels_and_map_with_id]. *)
Definition categorize_channel (maps : ChannelMaps) (channel : Channel) : result ChannelMaps :=
  if Py.truthy (ch_prid channel) then
    Ok {| room_id_to_room_map := room_id_to_room_map maps;
          team_id_to_team_map := team_id_to_team_map maps;
          dsc_id_to_dsc_map := <[ch_id channel := channel]> (dsc_id_to_dsc_map maps);
          direct_id_to_direct_map := direct_id_to_direct_map maps |}
  else if decide (ch_t channel = "d") then
    Ok {| room_id_to_room_map := room_id_to_room_map maps;
          team_id_to_team_map := team_id_to_team_map maps;
          dsc_id_to_dsc_map := dsc_id_to_dsc_map maps;
          direct_id_to_direct_map := <[ch_id channel := channel]> (direct_id_to_direct_map maps) |}
  else
    let room := <[ch_id channel := channel]> (room_id_to_room_map maps) in
    match ch_teamMain channel with
    | Some true =>
        match ch_teamId channel with
        | Some team_id =>
            Ok {| room_id_to_room_map := room;
                  team_id_to_team_map := <[team_id := channel]> (team_id_to_team_map maps);
                  dsc_id_to_dsc_map := dsc_id_to_dsc_map maps;
                  direct_id_to_direct_map := direct_id_to_direct_map maps |}
        | None => Raise (KeyError "teamId")
        end
    | _ =>
        Ok {| room_id_to_room_map := room;
              team_id_to_team_map := team_id_to_team_map maps;
              dsc_id_to_dsc_map := dsc_id_to_dsc_map maps;
              direct_id_to_direct_map := direct_id_to_direct_map maps |}
    end.

Definition categorize_channels_and_map_with_id
    (channel_data : list Channel) (maps : ChannelMaps) : result ChannelMaps :=
  fold_result categorize_channel channel_data maps.

(** [separate_channel_and_private_messages]: the two output lists are
    returned as (channel_messages, private_messages). *)
Fixpoint separate_channel_and_private_messages
    (messages : list SourceMessage) (direct_id_to_direct_map : gmap string Channel)
    (channel_messages private_messages : list SourceMessage)
    : list SourceMessage * list SourceMessage :=
  match messages with
  | [] => (channel_messages, private_messages)
  | message :: rest =>
      match m_rid message with
      | Some (String c r) =>
          if decide (is_Some (direct_id_to_direct_map !! String c r)) then
            separate_channel_and_private_messages rest direct_id_to_direct_map
              channel_messages (private_messages ++ [message])
          else
            separate_channel_and_private_messages rest direct_id_to_direct_map
              (channel_messages ++ [message]) private_messages
      | _ =>
          (* no channel: the message is ignored *)
          separate_channel_and_private_messages rest direct_id_to_direct_map
            channel_messages private_messages
      end
  end.

(** [build_reactions]: [total_reactions] is the list of the state. *)
Definition build_reactions (env : Env) (reactions : list (string * nat)) (message_id : nat)
    : M unit :=
  fold_for (λ _ reaction,
    let emoji_name := reaction.1 in
    let user_id := reaction.2 in
    match name_to_codepoint env !! emoji_name with
    | Some emoji_code =>
        let* reaction_id := NEXT_ID "reaction" in
        append_reaction {| r_id := reaction_id;
                           r_emoji_code := emoji_code;
                           r_emoji_name := emoji_name;
                           r_reaction_type := UNICODE_EMOJI;
                           r_message := message_id;
                           r_user_profile := user_id |}
    | None => ret tt
    end) reactions tt.

(** [fix_mentions], the local function of [process_raw_message_batch]. *)
Definition fix_mentions (user_handler : UserHandler.t)
    (content : string) (mention_user_ids : list nat) : result string :=
  match
    fold_result (λ content user_id,
      match UserHandler.get_user user_id user_handler with
      | Ok user =>
          let rc_mention := "@" +:+ up_short_name user in
          let zulip_mention := "@**" +:+ up_full_name user +:+ "**" in
          Ok (Py.replace rc_mention zulip_mention content)
      | Raise e => Raise e
      end) mention_user_ids content
  with
  | Ok content =>
      let content := Py.replace "@all" "@**all**" content in
      let content := Py.replace "@here" "@**all**" content in
      Ok content
  | Raise e => Raise e
  end.

(** The two local accumulators of [process_raw_message_batch]. *)
Record BatchAcc : Type := {
  mention_map : gmap nat (list nat);
  acc_zerver_message : list Message;
}.

(** The body of the loop of [process_raw_message_batch]. *)
Definition process_raw_message (env : Env) (acc : BatchAcc) (raw_message : RawMessage)
    : M BatchAcc :=
  let* message_id := NEXT_ID "message" in
  let mention_user_ids := mention_user_ids raw_message in
  let mention_map := <[message_id := mention_user_ids]> (mention_map acc) in
  let* content := lift (fix_mentions (user_handler env) (content raw_message) mention_user_ids) in
  if (10000 <? Py.len content)%Z then
    logging_info ("skipping too-long message of length " +:+ pretty (Py.len content));;
    ret {| mention_map := mention_map; acc_zerver_message := acc_zerver_message acc |}
  else
    let message :=
      build_message content message_id (date_sent raw_message) (recipient_id raw_message)
        None (topic_name raw_message) (sender_id raw_message) false in
    build_reactions env (reactions raw_message) message_id;;
    ret {| mention_map := mention_map;
           acc_zerver_message := acc_zerver_message acc ++ [message] |}.

Definition process_raw_message_batch (env : Env) (raw_messages : list RawMessage)
    (is_pm_data : bool) : M unit :=
  let* acc := fold_for (process_raw_message env) raw_messages
                {| mention_map := ∅; acc_zerver_message := [] |} in
  let zerver_usermessage :=
    make_user_messages env (acc_zerver_message acc) (subscriber_map env)
      is_pm_data (mention_map acc) in
  let message_json :=
    {| zerver_message := acc_zerver_message acc;
       zerver_usermessage := zerver_usermessage |} in
  let* dump_file_id := NEXT_ID ("dump_file_id" +:+ Py.str (realm_id env)) in
  let message_file := "/messages-" +:+ Py.format_06 dump_file_id +:+ ".json" in
  create_converted_data_files message_json message_file.

(** [list_reactions], a local function of [process_messages]. *)
Definition list_reactions (env : Env) (reactions : list (string * list string))
    : M (list (string * nat)) :=
  fold_for (λ reactions_list entry,
    let react_code := entry.1 in
    let* name := index (Py.split ":" react_code) 1 in
    let usernames := entry.2 in
    fold_for (λ reactions_list username,
      let* rc_user_id := subscript (username_to_user_id_map env) username username in
      let* user_id := user_id_mapper_get rc_user_id in
      ret (reactions_list ++ [(name, user_id)])) usernames reactions_list)
    reactions [].

(** The loop of [message_to_dict] that collects the mentioned users into
    the set [mention_user_ids]; [all] and [here] are not users.  [added]
    lists the arguments of the calls of [mention_user_ids.add]; the result is
    the set in the order in which it will be iterated. *)
Definition collect_mentions (order : PySet.order) (mentions : list string) : M (list nat) :=
  let* added :=
    fold_for (λ added mention_id,
      if decide (mention_id ∈ ["all"; "here"]) then ret added
      else
        let* user_id := user_id_mapper_get mention_id in
        ret (added ++ [user_id])) mentions [] in
  ret (PySet.iterate order added).

(** [message_to_dict], a local function of [process_messages]. *)
Definition message_to_dict (env : Env) (is_pm_data : bool) (message : SourceMessage)
    : M RawMessage :=
  let rc_sender_id := m_sender message in
  let* sender_id := user_id_mapper_get rc_sender_id in
  let content := m_msg message in
  let* reactions := list_reactions env (m_reactions message) in
  let* routed :=
    if is_pm_data then
      let* direct_channel_id := field (m_rid message) "rid" in
      let* direct := subscript (direct_id_to_direct_map (channel_maps env)) direct_channel_id direct_channel_id in
      let* rc_member_ids := field (ch_uids direct) "uids" in
      let* member_0 := index rc_member_ids 0 in
      let* recipient_id :=
        if decide (rc_sender_id = member_0) then
          let* member_1 := index rc_member_ids 1 in
          let* zulip_member_id := user_id_mapper_get member_1 in
          subscript (user_id_to_recipient_id env) zulip_member_id (Py.str zulip_member_id)
        else
          let* zulip_member_id := user_id_mapper_get member_0 in
          subscript (user_id_to_recipient_id env) zulip_member_id (Py.str zulip_member_id) in
      ret (recipient_id, "")
    else
      let* rid := field (m_rid message) "rid" in
      match dsc_id_to_dsc_map (channel_maps env) !! rid with
      | Some dsc_channel =>
          let* parent_channel_id := field (ch_prid dsc_channel) "prid" in
          let* stream_id := stream_id_mapper_get parent_channel_id in
          let* recipient_id :=
            subscript (stream_id_to_recipient_id env) stream_id (Py.str stream_id) in
          let* fname := field (ch_fname dsc_channel) "fname" in
          ret (recipient_id, "(Discussion) " +:+ fname)
      | None =>
          let* stream_id := stream_id_mapper_get rid in
          let* recipient_id :=
            subscript (stream_id_to_recipient_id env) stream_id (Py.str stream_id) in
          ret (recipient_id, "Imported from Rocket.Chat")
      end in
  let* mention_user_ids := collect_mentions (set_order env) (m_mentions message) in
  ret {| sender_id := sender_id;
         content := content;
         date_sent := m_ts message;
         reactions := reactions;
         recipient_id := routed.1;
         topic_name := routed.2;
         mention_user_ids := mention_user_ids |}.

(** The first loop of [process_messages]: messages with an event type are
    skipped, the others converted. *)
Definition convert_messages (env : Env) (is_pm_data : bool) (messages : list SourceMessage)
    : M (list RawMessage) :=
  fold_for (λ raw_messages message,
    match m_t message with
    | Some _ => ret raw_messages
    | None =>
        let* raw_message := message_to_dict env is_pm_data message in
        ret (raw_messages ++ [raw_message])
    end) messages [].

Definition chunk_size : nat := 1000.

Definition process_messages (env : Env) (is_pm_data : bool) (messages : list SourceMessage)
    : M unit :=
  let* raw_messages := convert_messages env is_pm_data messages in
  let process_batch := λ lst, process_raw_message_batch env lst is_pm_data in
  process_list_in_batches raw_messages chunk_size process_batch.

(** ** rocketchat1.py, the earlier variant *)

Module Rocketchat1.

(** The body of the loop of [categorize_channels_and_map_with_id]: a
    discussion is a record that has the key [prid]. *)
Definition categorize_channel (maps : ChannelMaps) (channel : Channel) : result ChannelMaps :=
  if decide (is_Some (ch_prid channel)) then
    Ok {| room_id_to_room_map := room_id_to_room_map maps;
          team_id_to_team_map := team_id_to_team_map maps;
          dsc_id_to_dsc_map := <[ch_id channel := channel]> (dsc_id_to_dsc_map maps);
          direct_id_to_direct_map := direct_id_to_direct_map maps |}
  else if decide (ch_t channel = "d") then
    Ok {| room_id_to_room_map := room_id_to_room_map maps;
          team_id_to_team_map := team_id_to_team_map maps;
          dsc_id_to_dsc_map := dsc_id_to_dsc_map maps;
          direct_id_to_direct_map := <[ch_id channel := channel]> (direct_id_to_direct_map maps) |}
  else
    let room := <[ch_id channel := channel]> (room_id_to_room_map maps) in
    match ch_teamMain channel with
    | Some true =>
        match ch_teamId channel with
        | Some team_id =>
            Ok {| room_id_to_room_map := room;
                  team_id_to_team_map := <[team_id := channel]> (team_id_to_team_map maps);
                  dsc_id_to_dsc_map := dsc_id_to_dsc_map maps;
                  direct_id_to_direct_map := direct_id_to_direct_map maps |}
        | None => Raise (KeyError "teamId")
        end
    | _ =>
        Ok {| room_id_to_room_map := room;
              team_id_to_team_map := team_id_to_team_map maps;
              dsc_id_to_dsc_map := dsc_id_to_dsc_map maps;
              direct_id_to_direct_map := direct_id_to_direct_map maps |}
    end.

Definition categorize_channels_and_map_with_id
    (channel_data : list Channel) (maps : ChannelMaps) : result ChannelMaps :=
  fold_result categorize_channel channel_data maps.

(** [separate_channel_and_private_messages]: [message["rid"]] raises when
    the key is absent; [direct_room_list] is the key view of the direct
    index. *)
Fixpoint separate_channel_and_private_messages
    (messages : list SourceMessage) (direct_room_list : gset string)
    (channel_messages private_messages : list SourceMessage)
    : result (list SourceMessage * list SourceMessage) :=
  match messages with
  | [] => Ok (channel_messages, private_messages)
  | message :: rest =>
      match m_rid message with
      | Some rid =>
          if decide (rid ∈ direct_room_list) then
            separate_channel_and_private_messages rest direct_room_list
              channel_messages (private_messages ++ [message])
          else
            separate_channel_and_private_messages rest direct_room_list
              (channel_messages ++ [message]) private_messages
      | None => Raise (KeyError "rid")
      end
  end.

(** The body of the loop of [process_raw_message_batch]; reactions are not
    built. *)
Definition process_raw_message (env : Env) (acc : BatchAcc) (raw_message : RawMessage)
    : M BatchAcc :=
  let* message_id := NEXT_ID "message" in
  let mention_user_ids := mention_user_ids raw_message in
  let mention_map := <[message_id := mention_user_ids]> (mention_map acc) in
  let* content := lift (fix_mentions (user_handler env) (content raw_message) mention_user_ids) in
  if (10000 <? Py.len content)%Z then
    logging_info ("skipping too-long message of length " +:+ pretty (Py.len content));;
    ret {| mention_map := mention_map; acc_zerver_message := acc_zerver_message acc |}
  else
    let message :=
      build_message content message_id (date_sent raw_message) (recipient_id raw_message)
        None (topic_name raw_message) (sender_id raw_message) false in
    ret {| mention_map := mention_map;
           acc_zerver_message := acc_zerver_message acc ++ [message] |}.

Definition process_raw_message_batch (env : Env) (raw_messages : list RawMessage)
    (is_pm_data : bool) : M unit :=
  let* acc := fold_for (process_raw_message env) raw_messages
                {| mention_map := ∅; acc_zerver_message := [] |} in
  let zerver_usermessage :=
    make_user_messages env (acc_zerver_message acc) (subscriber_map env)
      is_pm_data (mention_map acc) in
  let message_json :=
    {| zerver_message := acc_zerver_message acc;
       zerver_usermessage := zerver_usermessage |} in
  let* dump_file_id := NEXT_ID ("dump_file_id" +:+ Py.str (realm_id env)) in
  let message_file := "/messages-" +:+ Py.format_06 dump_file_id +:+ ".json" in
  create_converted_data_files message_json message_file.

(** [message_to_dict]: no reactions are read, and the fixed topics are
    this variant's. *)
Definition message_to_dict (env : Env) (is_pm_data : bool) (message : SourceMessage)
    : M RawMessage :=
  let sender_rc_id := m_sender message in
  let* sender_id := user_id_mapper_get sender_rc_id in
  let content := m_msg message in
  let reactions := [] in
  let* routed :=
    if is_pm_data then
      let* direct_channel_id := field (m_rid message) "rid" in
      let* direct := subscript (direct_id_to_direct_map (channel_maps env)) direct_channel_id direct_channel_id in
      let* rc_member_ids := field (ch_uids direct) "uids" in
      let* member_0 := index rc_member_ids 0 in
      let* recipient_id :=
        if decide (sender_rc_id = member_0) then
          let* member_1 := index rc_member_ids 1 in
          let* zulip_member_id := user_id_mapper_get member_1 in
          subscript (user_id_to_recipient_id env) zulip_member_id (Py.str zulip_member_id)
        else
          let* zulip_member_id := user_id_mapper_get member_0 in
          subscript (user_id_to_recipient_id env) zulip_member_id (Py.str zulip_member_id) in
      ret (recipient_id, "Imported from rocketchat")
    else
      let* rid := field (m_rid message) "rid" in
      match dsc_id_to_dsc_map (channel_maps env) !! rid with
      | Some dsc_channel =>
          let* parent_channel_id := field (ch_prid dsc_channel) "prid" in
          let* stream_id := stream_id_mapper_get parent_channel_id in
          let* recipient_id :=
            subscript (stream_id_to_recipient_id env) stream_id (Py.str stream_id) in
          let* fname := field (ch_fname dsc_channel) "fname" in
          ret (recipient_id, "(Discussion) " +:+ fname)
      | None =>
          let* stream_id := stream_id_mapper_get rid in
          let* recipient_id :=
            subscript (stream_id_to_recipient_id env) stream_id (Py.str stream_id) in
          ret (recipient_id, "Main channel content (imported from rocketchat)")
      end in
  let* mention_user_ids := collect_mentions (set_order env) (m_mentions message) in
  ret {| sender_id := sender_id;
         content := content;
         date_sent := m_ts message;
         reactions := reactions;
         recipient_id := routed.1;
         topic_name := routed.2;
         mention_user_ids := mention_user_ids |}.

Definition convert_messages (env : Env) (is_pm_data : bool) (messages : list SourceMessage)
    : M (list RawMessage) :=
  fold_for (λ raw_messages message,
    match m_t message with
    | Some _ => ret raw_messages
    | None =>
        let* raw_message := message_to_dict env is_pm_data message in
        ret (raw_messages ++ [raw_message])
    end) messages [].

Definition process_messages (env : Env) (is_pm_data : bool) (messages : list SourceMessage)
    : M unit :=
  let* raw_messages := convert_messages env is_pm_data messages in
  let process_batch := λ lst, process_raw_message_batch env lst is_pm_data in
  process_list_in_batches raw_messages chunk_size process_batch.

End Rocketchat1.

(** ** Categories of channels, in the words of the design *)

(** The three exclusive categories: a discussion carries a parent-channel
    reference; otherwise a channel whose type tag is ["d"] is direct;
    otherwise it is a room. *)
Inductive Category : Type := Discussion | Direct | Room.

Global Instance Category_eq_dec : EqDecision Category.
Proof. solve_decision. Defined.

Definition category_of (channel : Channel) : Category :=
  if Py.truthy (ch_prid channel) then Discussion
  else if decide (ch_t channel = "d") then Direct
  else Room.

Definition index_of (c : Category) (maps : ChannelMaps) : gmap string Channel :=
  match c with
  | Discussion => dsc_id_to_dsc_map maps
  | Direct => direct_id_to_direct_map maps
  | Room => room_id_to_room_map maps
  end.

(** A room flagged as the main channel of a team names its team. *)
Definition names_its_team (channel : Channel) : Prop :=
  category_of channel = Room → ch_teamMain channel = Some true →
  is_Some (ch_teamId channel).

(** A room that is the main channel of team [team_id]. *)
Definition main_room_of (team_id : string) (channel : Channel) : Prop :=
  category_of channel = Room ∧ ch_teamMain channel = Some true ∧
  ch_teamId channel = Some team_id.

Global Instance main_room_of_dec team_id channel : Decision (main_room_of team_id channel).
Proof. unfold main_room_of. apply _. Defined.

(** ** Auxiliary notions for the statements *)

(** The state with its user id mapper replaced. *)
Definition with_user_id_mapper (st : State) (m : IdMapper.t) : State :=
  {| user_id_mapper := m;
     stream_id_mapper := stream_id_mapper st;
     counters := counters st;
     total_reactions := total_reactions st;
     files := files st;
     log := log st |}.

(** [st'] is [st] after some calls of [user_id_mapper.get] and nothing else. *)
Definition user_gets (st st' : State) : Prop :=
  ∃ keys, st' = with_user_id_mapper st (IdMapper.gets keys (user_id_mapper st)).

(** Every reaction code of the message has a name between colons, and every
    reacting username is in [username_to_user_id_map]: the conditions under
    which [list_reactions] does not raise. *)
Definition reactions_resolvable (env : Env) (message : SourceMessage) : Prop :=
  Forall (λ entry : string * list string,
            is_Some (Py.split ":" entry.1 !! 1) ∧
            Forall (λ username, is_Some (username_to_user_id_map env !! username)) entry.2)
         (m_reactions message).

(** ** Replacement of mentions, in the words of the design *)

(** Every literal occurrence of [old] in a string is replaced with [new]:
    occurrences are taken from the left and do not overlap.  Either [old]
    does not occur and the string is unchanged, or the string is
    [a ++ old ++ b] with no occurrence starting before the end of [a]; then
    [a] is kept, [new] stands for [old], and the rest [b] is treated
    likewise. *)
Inductive replaces_every_occurrence (old new : string) : string → string → Prop :=
  | no_occurrence s :
      (∀ a b, s ≠ a +:+ old +:+ b) →
      replaces_every_occurrence old new s s
  | leftmost_occurrence a b t :
      (∀ a' b', a +:+ old +:+ b = a' +:+ old +:+ b' →
                String.length a ≤ String.length a') →
      replaces_every_occurrence old new b t →
      replaces_every_occurrence old new (a +:+ old +:+ b) (a +:+ new +:+ t).

(** The body is rewritten for each mentioned user in turn, then for [@all],
    then for [@here]. *)
Inductive mentions_rewritten : list UserProfile → string → string → Prop :=
  | broadcast_rewritten content content1 content2 :
      replaces_every_occurrence "@all" "@**all**" content content1 →
      replaces_every_occurrence "@here" "@**all**" content1 content2 →
      mentions_rewritten [] content content2
  | user_rewritten user users content content1 content2 :
      replaces_every_occurrence ("@" +:+ up_short_name user)
        ("@**" +:+ up_full_name user +:+ "**") content content1 →
      mentions_rewritten users content1 content2 →
      mentions_rewritten (user :: users) content content2.

(** ** Auxiliary notions for batch emission *)

(** The value the next [NEXT_ID("message")] returns. *)
Definition message_counter (st : State) : nat := default 0 (counters st !! "message").

(** The body of a converted message after [fix_mentions]. *)
Definition rewritten (env : Env) (raw_message : RawMessage) : result string :=
  fix_mentions (user_handler env) (content raw_message) (mention_user_ids raw_message).

(** The rewritten body exceeds the ceiling of 10000. *)
Definition too_long (env : Env) (raw_message : RawMessage) : bool :=
  match rewritten env raw_message with
  | Ok content => (10000 <? Py.len content)%Z
  | Raise _ => false
  end.

(** Every mentioned user is known to the user handler: the condition under
    which [fix_mentions] does not raise. *)
Definition mentions_resolvable (env : Env) (raw_message : RawMessage) : Prop :=
  Forall (λ user_id, ∃ user, UserHandler.get_user user_id (user_handler env) = Ok user)
         (mention_user_ids raw_message).

(** The message emitted for a converted message that owns the id [next]. *)
Definition emitted (env : Env) (next : nat) (raw_message : RawMessage) : list Message :=
  match rewritten env raw_message with
  | Ok content =>
      if (10000 <? Py.len content)%Z then []
      else [build_message content next (date_sent raw_message) (recipient_id raw_message)
              None (topic_name raw_message) (sender_id raw_message) false]
  | Raise _ => []
  end.

(** The ids of the messages emitted for a list of converted messages when
    the message counter stands at [next]: the i-th converted message owns
    [next + i], and a message that is too long emits nothing. *)
Fixpoint batch_ids (env : Env) (next : nat) (raw_messages : list RawMessage) : list nat :=
  match raw_messages with
  | [] => []
  | raw_message :: rest =>
      (if too_long env raw_message then [] else [next]) ++ batch_ids env (S next) rest
  end.

(** The messages emitted for a list of converted messages. *)
Fixpoint batch_messages (env : Env) (next : nat) (raw_messages : list RawMessage)
    : list Message :=
  match raw_messages with
  | [] => []
  | raw_message :: rest => emitted env next raw_message ++ batch_messages env (S next) rest
  end.

(** The log lines of a list of converted messages. *)
Fixpoint skip_log (env : Env) (raw_messages : list RawMessage) : list string :=
  match raw_messages with
  | [] => []
  | raw_message :: rest =>
      match rewritten env raw_message with
      | Ok content =>
          if (10000 <? Py.len content)%Z
          then ["skipping too-long message of length " +:+ pretty (Py.len content)]
          else []
      | Raise _ => []
      end ++ skip_log env rest
  end.


(** The chunks that [process_list_in_batches] hands out, as a list. *)
Fixpoint chunks_from {A} (fuel : nat) (lst : list A) (chunk_size offset : nat) : list (list A) :=
  match fuel with
  | 0 => []
  | S fuel' =>
      match take chunk_size (drop offset lst) with
      | [] => []
      | items => items :: chunks_from fuel' lst chunk_size (offset + chunk_size)
      end
  end.

(** The sizes of the chunks of a list of [len] records. *)
Fixpoint chunk_sizes (fuel chunk_size len : nat) : list nat :=
  match fuel with
  | 0 => []
  | S fuel' =>
      if decide (chunk_size `min` len = 0) then []
      else chunk_size `min` len :: chunk_sizes fuel' chunk_size (len - chunk_size)
  end.

(** The message ids of the files written for a list of chunks. *)
Fixpoint files_ids (env : Env) (next : nat) (chunks : list (list RawMessage)) : list (list nat) :=
  match chunks with
  | [] => []
  | chunk :: rest => batch_ids env next chunk :: files_ids env (next + length chunk) rest
  end.

(** The messages of the files written for a list of chunks. *)
Fixpoint files_messages (env : Env) (next : nat) (chunks : list (list RawMessage))
    : list (list Message) :=
  match chunks with
  | [] => []
  | chunk :: rest => batch_messages env next chunk :: files_messages env (next + length chunk) rest
  end.

(** The message ids held by a written file. *)
Definition file_ids (file : string * MessageJson) : list nat :=
  msg_id <$> zerver_message file.2.


(** What emission leaves alone: the id mappers. *)
Record emission_frame (st st' : State) : Prop := {
  ef_user : user_id_mapper st' = user_id_mapper st;
  ef_stream : stream_id_mapper st' = stream_id_mapper st;
}.

(** What the emission of converted messages does to the stores, starting
    from [st]: the message counter advances by [consumed]; [ids] are the ids
    of the messages emitted; reactions are only added, each for an emitted
    message; [lines] are added to the log. *)
Record emission (st st' : State) (consumed : nat) (ids : list nat) (lines : list string)
    : Prop := {
  em_counter : message_counter st' = message_counter st + consumed;
  em_reactions : ∃ new, total_reactions st' = total_reactions st ++ new ∧
                        Forall (λ r, r_message r ∈ ids) new;
  em_log : log st' = log st ++ lines;
  em_frame : emission_frame st st';
}.

(** A batch function that, for a chunk whose mentions resolve, writes one
    file with the messages emitted for the chunk. *)
Definition emits_batch (env : Env) (process_batch : list RawMessage → M unit) : Prop :=
  ∀ chunk st, Forall (mentions_resolvable env) chunk →
    ∃ st' file,
      process_batch chunk st = Ok (tt, st') ∧
      files st' = files st ++ [file] ∧
      zerver_message file.2 = batch_messages env (message_counter st) chunk ∧
      emission st st' (length chunk)
        (batch_ids env (message_counter st) chunk) (skip_log env chunk).

(** The users who reacted to the message are already known to the user id
    mapper, as they are once [process_users] has run over the users that
    [username_to_user_id_map] is built from; listing the reactions then asks
    the mapper for no new id. *)
Definition reactions_known (env : Env) (st : State) (message : SourceMessage) : Prop :=
  Forall (λ entry : string * list string,
            Forall (λ username, ∀ rc_user_id,
                      username_to_user_id_map env !! username = Some rc_user_id →
                      is_Some (IdMapper.map (user_id_mapper st) !! rc_user_id)) entry.2)
         (m_reactions message).

(** ** A small snapshot, for the examples *)

Module Sample.

Definition alice : UserProfile :=
  {| up_id := 0; up_full_name := "Alice Smith"; up_short_name := "alice" |}.
Definition bob : UserProfile :=
  {| up_id := 1; up_full_name := "Bob Jones"; up_short_name := "bob" |}.

Definition general : Channel :=
  {| ch_id := "GENERAL"; ch_t := "c"; ch_prid := None; ch_fname := None;
     ch_uids := None; ch_teamMain := None; ch_teamId := None |}.
Definition triage : Channel :=
  {| ch_id := "dsc-1"; ch_t := "p"; ch_prid := Some "GENERAL";
     ch_fname := Some "Bug Triage"; ch_uids := None;
     ch_teamMain := None; ch_teamId := None |}.
Definition alice_bob : Channel :=
  {| ch_id := "rcAlicercBob"; ch_t := "d"; ch_prid := None; ch_fname := None;
     ch_uids := Some ["rcAlice"; "rcBob"]; ch_teamMain := None; ch_teamId := None |}.
Definition core_team : Channel :=
  {| ch_id := "team-main"; ch_t := "c"; ch_prid := None; ch_fname := None;
     ch_uids := None; ch_teamMain := Some true; ch_teamId := Some "team-1" |}.

Definition channel_data : list Channel := [general; triage; alice_bob; core_team].

Definition maps : ChannelMaps :=
  {| room_id_to_room_map := {[ "GENERAL" := general; "team-main" := core_team ]};
     team_id_to_team_map := {[ "team-1" := core_team ]};
     dsc_id_to_dsc_map := {[ "dsc-1" := triage ]};
     direct_id_to_direct_map := {[ "rcAlicercBob" := alice_bob ]} |}.

(** Users 0 and 1 have the personal recipients 0 and 1; the streams 0 and 1
    have the recipients 2 and 3. *)
Definition env : Env :=
  {| realm_id := 0;
     username_to_user_id_map := {[ "alice" := "rcAlice"; "bob" := "rcBob" ]};
     user_id_to_recipient_id := {[ 0 := 0; 1 := 1 ]};
     stream_id_to_recipient_id := {[ 0 := 2; 1 := 3 ]};
     channel_maps := maps;
     user_handler := [alice; bob];
     subscriber_map := ∅;
     name_to_codepoint := {[ "smile" := "1f604" ]};
     make_user_messages := λ _ _ _ _, [];
     set_order := PySet.ascending |}.

(** The stores after the users and the streams have been converted. *)
Definition state : State :=
  {| user_id_mapper := IdMapper.gets ["rcAlice"; "rcBob"] (IdMapper.new 0);
     stream_id_mapper := IdMapper.gets ["GENERAL"; "team-main"] (IdMapper.new 0);
     counters := ∅;
     total_reactions := [];
     files := [];
     log := [] |}.

Definition message (sender rid body : string) : SourceMessage :=
  {| m_sender := sender; m_msg := body; m_ts := 1600000000; m_rid := Some rid;
     m_t := None; m_mentions := []; m_reactions := [] |}.

Definition hello : SourceMessage := message "rcAlice" "GENERAL" "hello".

Definition review : SourceMessage :=
  {| m_sender := "rcBob"; m_msg := "@alice please review"; m_ts := 1600000000;
     m_rid := Some "GENERAL"; m_t := None; m_mentions := ["rcAlice"];
     m_reactions := [(":smile:", ["alice"])] |}.

Definition joined : SourceMessage :=
  {| m_sender := "rcBob"; m_msg := "bob"; m_ts := 1600000000;
     m_rid := Some "GENERAL"; m_t := Some "uj"; m_mentions := [];
     m_reactions := [] |}.

(** A body of 10001 characters. *)
Definition long_body : string :=
  String.string_of_list_ascii (replicate (Z.to_nat 10001) "a"%char).

Definition oversized : SourceMessage := message "rcAlice" "GENERAL" long_body.

(** 2500 messages within the ceiling. *)
Definition run : list SourceMessage := replicate 2500 hello.

(** 2500 messages, the second of which is over the ceiling. *)
Definition run_with_long : list SourceMessage :=
  hello :: oversized :: replicate 2498 hello.

Definition raw (body : string) : RawMessage :=
  {| sender_id := 0; content := body; date_sent := 1600000000; reactions := [];
     recipient_id := 2; topic_name := "Imported from Rocket.Chat";
     mention_user_ids := [] |}.

Definition raw_review : RawMessage :=
  {| sender_id := 1; content := "@alice please review"; date_sent := 1600000000;
     reactions := [("smile", 0)]; recipient_id := 2;
     topic_name := "Imported from Rocket.Chat"; mention_user_ids := [0] |}.

End Sample.

(** The converted messages, the written files and the topic of an outcome;
    nothing when the outcome is an exception. *)
Definition converted (outcome : result (list RawMessage * State)) : list RawMessage :=
  match outcome with
  | Ok (raw_messages, _) => raw_messages
  | Raise _ => []
  end.

Definition written (outcome : result (unit * State)) : list (string * MessageJson) :=
  match outcome with
  | Ok (_, st) => files st
  | Raise _ => []
  end.

Definition topic_of (outcome : result (RawMessage * State)) : option string :=
  match outcome with
  | Ok (raw_message, _) => Some (topic_name raw_message)
  | Raise _ => None
  end.

(** The topics that rocketchat.py ([topic]) and rocketchat1.py ([topic1])
    give to the same message: for a direct message, each its fixed string;
    for a message of a discussion, both the title of the discussion after
    ["(Discussion) "]; for a message of another room, each its fixed
    string. *)
Definition topics_of_the_variants (env : Env) (is_pm_data : bool) (message : SourceMessage)
    (topic topic1 : string) : Prop :=
  if is_pm_data then
    topic = "" ∧ topic1 = "Imported from rocketchat"
  else
    match m_rid message with
    | Some rid =>
        match dsc_id_to_dsc_map (channel_maps env) !! rid with
        | Some dsc_channel =>
            ∃ fname, ch_fname dsc_channel = Some fname ∧
                     topic = "(Discussion) " +:+ fname ∧ topic1 = topic
        | None =>
            topic = "Imported from Rocket.Chat" ∧
            topic1 = "Main channel content (imported from rocketchat)"
        end
    | None => False
    end.

(** [st'] differs from [st] in the id mappers at most: the same counters,
    reactions, files and log. *)
Definition same_outputs (st st' : State) : Prop :=
  counters st' = counters st ∧ total_reactions st' = total_reactions st ∧
  files st' = files st ∧ log st' = log st.

(** ** Auxiliary notions for the further properties *)

(** The message names a room ([message.get("rid")] is true). *)
Definition has_room (message : SourceMessage) : bool := Py.truthy (m_rid message).

(** The room of the message is a key of the direct index. *)
Definition in_direct_channel (direct_id_to_direct_map : gmap string Channel)
    (message : SourceMessage) : bool :=
  match m_rid message with
  | Some rid => bool_decide (is_Some (direct_id_to_direct_map !! rid))
  | None => false
  end.

(** The (reaction code, username) pairs of a reaction map, in iteration
    order. *)
Definition reaction_pairs (reactions : list (string * list string)) : list (string * string) :=
  concat ((λ entry : string * list string,
             (λ username, (entry.1, username)) <$> entry.2) <$> reactions).

(** What an entry of the list made by [list_reactions] is for a (reaction
    code, username) pair, in the stores [st]: the name is the part of the
    code between its first two colons, the user id is the one the user id
    mapper holds for the username's Rocket.Chat id. *)
Definition lists_reaction (env : Env) (st : State)
    (listed : string * nat) (pair : string * string) : Prop :=
  Py.split ":" pair.1 !! 1 = Some listed.1 ∧
  ∃ rc_user_id, username_to_user_id_map env !! pair.2 = Some rc_user_id ∧
                IdMapper.map (user_id_mapper st) !! rc_user_id = Some listed.2.

(** The value the next [NEXT_ID(name)] returns. *)
Definition counter (name : string) (st : State) : nat := default 0 (counters st !! name).

(** The reactions of a message whose emoji name is in [name_to_codepoint],
    each with its code. *)
Definition known_reactions (env : Env) (reactions : list (string * nat))
    : list (string * string * nat) :=
  omap (λ reaction : string * nat,
          (λ emoji_code, (reaction.1, emoji_code, reaction.2)) <$>
            name_to_codepoint env !! reaction.1) reactions.

(** The name of the counter of message files, and the name of the file that
    is given the number [dump_file_id]. *)
Definition dump_counter (env : Env) : string := "dump_file_id" +:+ Py.str (realm_id env).

Definition message_file (dump_file_id : nat) : string :=
  "/messages-" +:+ Py.format_06 dump_file_id +:+ ".json".

(** A decimal numeral is ["0"] or starts with a digit other than [0]. *)
Definition numeral (digits : string) : Prop :=
  digits = "0" ∨ ∃ c t, digits = String c t ∧ c ≠ "0"%char.

(** What emission does to the numbering of reactions and of files between
    [st] and [st']: reactions are appended, numbered from the reaction
    counter, which moves past them; files are appended, named after the
    numbers from the file counter, which moves past them. *)
Record numbering (env : Env) (st st' : State) : Prop := {
  nb_reactions : ∃ new,
    total_reactions st' = total_reactions st ++ new ∧
    r_id <$> new = seq (counter "reaction" st) (length new) ∧
    counter "reaction" st' = counter "reaction" st + length new;
  nb_files : ∃ new,
    files st' = files st ++ new ∧
    new.*1 = message_file <$> seq (counter (dump_counter env) st) (length new) ∧
    counter (dump_counter env) st' = counter (dump_counter env) st + length new;
}.

(** The message stage of [do_convert_data]: the messages are separated, the
    channel messages are processed, then the private messages. *)
Definition convert_all_messages (env : Env) (messages : list SourceMessage) : M unit :=
  let separated :=
    separate_channel_and_private_messages messages
      (direct_id_to_direct_map (channel_maps env)) [] [] in
  let channel_messages := separated.1 in
  let private_messages := separated.2 in
  process_messages env false channel_messages;;
  process_messages env true private_messages.
(** ** The stages before the messages: users, streams, subscriptions, recipients *)

(** A Python [dict] with string keys, as the list of its items in insertion
    order: assigning to a key that is present replaces the value and keeps
    the place of the key. *)
Module PyDict.

Definition t (V : Type) : Type := list (string * V).

(** [d.get(key)] *)
Fixpoint get {V} (d : t V) (key : string) : option V :=
  match d with
  | [] => None
  | (k, v) :: d' => if decide (k = key) then Some v else get d' key
  end.

(** [d[key] = value] *)
Fixpoint set {V} (d : t V) (key : string) (value : V) : t V :=
  match d with
  | [] => [(key, value)]
  | (k, v) :: d' =>
      if decide (k = key) then (key, value) :: d' else (k, v) :: set d' key value
  end.

(** [d.keys()] *)
Definition keys {V} (d : t V) : list string := d.*1.

End PyDict.

(** A list in a boolean context: [None] and the empty list are false. *)
Definition list_truthy {A} (o : option (list A)) : bool :=
  match o with
  | Some (_ :: _) => true
  | _ => false
  end.

(** A record of the [users] collection, with the fields the importer reads.
    [_id], [type], [username], [name] and [roles] are read from every user
    by a plain subscript and are taken to be present; [u_emails] lists
    [email["address"]] over [user_dict.get("emails")], and [u_rooms] is
    [user_dict.get("__rooms")]. *)
Record User : Type := {
  u_id : string;                      (* user["_id"] *)
  u_type : string;                    (* user_dict["type"] *)
  u_username : string;                (* user_dict["username"] *)
  u_name : string;                    (* user_dict["name"] *)
  u_emails : option (list string);    (* user_dict.get("emails") *)
  u_roles : list string;              (* user_dict["roles"] *)
  u_rooms : option (list string);     (* user_dict.get("__rooms") *)
}.

(** [map_user_id_to_user] *)
Definition map_user_id_to_user (user_data_list : list User) : PyDict.t User :=
  foldl (λ user_id_to_user_map user, PyDict.set user_id_to_user_map (u_id user) user)
        [] user_data_list.

(** [map_username_to_user_id]; the result is only ever subscripted. *)
Definition map_username_to_user_id (user_id_to_user_map : PyDict.t User) : gmap string string :=
  foldl (λ username_to_user_id_map (item : string * User),
           <[u_username item.2 := item.1]> username_to_user_id_map)
        ∅ user_id_to_user_map.

(** Modelled from the spec: the roles of [zerver.models.UserProfile], which
    is not among the sources. *)
Inductive Role : Type := ROLE_REALM_OWNER | ROLE_MEMBER | ROLE_GUEST.

(** Modelled from the spec: [import_util.build_user_profile] is not among the
    sources; a target user holds the values it is built from. *)
Record ZerverUserProfile : Type := build_user_profile {
  zu_avatar_source : string;
  zu_date_joined : Z;
  zu_delivery_email : string;
  zu_email : string;
  zu_full_name : string;
  zu_id : nat;
  zu_is_active : bool;
  zu_role : Role;
  zu_is_mirror_dummy : bool;
  zu_realm_id : nat;
  zu_short_name : string;
  zu_timezone : string;
}.

(** Modelled from the spec: the [UserHandler] of [process_users], holding the
    whole of each user; registering an id already present is fatal. *)
Definition add_user (user : ZerverUserProfile) (user_handler : list ZerverUserProfile)
    : result (list ZerverUserProfile) :=
  match list_find (λ user', zu_id user' = zu_id user) user_handler with
  | Some _ => Raise (KeyError (Py.str (zu_id user)))
  | None => Ok (user_handler ++ [user])
  end.

(** What the message stage reads of a user. *)
Definition fields_read (user : ZerverUserProfile) : UserProfile :=
  {| up_id := zu_id user;
     up_full_name := zu_full_name user;
     up_short_name := zu_short_name user |}.

(** The address that ["{}-{}@{}".format(username, type, domain_name)] gives. *)
Definition placeholder_address (user_dict : User) (domain_name : string) : string :=
  u_username user_dict +:+ "-" +:+ u_type user_dict +:+ "@" +:+ domain_name.

(** The body of the loop of [process_users].  [timezone_now] gives the
    reading of the clock while the user with the given id is converted.  The
    address put into [user_dict["emails"]] is read in the same iteration and
    nowhere else. *)
Definition process_user (realm_id : nat) (domain_name : string) (timezone_now : string → Z)
    (stores : IdMapper.t * list ZerverUserProfile) (item : string * User)
    : result (IdMapper.t * list ZerverUserProfile) :=
  let rc_user_id := item.1 in
  let user_dict := item.2 in
  let is_mirror_dummy := bool_decide (u_type user_dict ≠ "user") in
  let emails :=
    if is_mirror_dummy && negb (list_truthy (u_emails user_dict))
    then Some [placeholder_address user_dict domain_name]
    else u_emails user_dict in
  let avatar_source := "G" in
  let full_name := u_name user_dict in
  let (id, user_id_mapper) := IdMapper.get rc_user_id stores.1 in
  match emails with
  | None => Raise (KeyError "emails")
  | Some addresses =>
      match addresses !! 0 with
      | None => Raise IndexError
      | Some address =>
          let delivery_email := address in
          let email := address in
          let short_name := u_username user_dict in
          let date_joined := timezone_now rc_user_id in
          let timezone := "UTC" in
          let role :=
            if decide ("admin" ∈ u_roles user_dict) then ROLE_REALM_OWNER
            else if decide ("guest" ∈ u_roles user_dict) then ROLE_GUEST
            else ROLE_MEMBER in
          let is_active := negb is_mirror_dummy in
          let user :=
            build_user_profile avatar_source date_joined delivery_email email full_name id
              is_active role is_mirror_dummy realm_id short_name timezone in
          match add_user user stores.2 with
          | Ok user_handler => Ok (user_id_mapper, user_handler)
          | Raise e => Raise e
          end
      end
  end.

(** [process_users]: the user id mapper and the user handler are threaded
    through the loop. *)
Definition process_users (user_id_to_user_map : PyDict.t User) (realm_id : nat)
    (domain_name : string) (timezone_now : string → Z)
    (user_handler : list ZerverUserProfile) (user_id_mapper : IdMapper.t)
    : result (IdMapper.t * list ZerverUserProfile) :=
  fold_result (process_user realm_id domain_name timezone_now) user_id_to_user_map
    (user_id_mapper, user_handler).

(** The account can be converted: a regular user has an address. *)
Definition has_address (user_dict : User) : Prop :=
  u_type user_dict = "user" → list_truthy (u_emails user_dict) = true.

(** The address the account is given. *)
Definition address_of (user_dict : User) (domain_name : string) : string :=
  match u_emails user_dict with
  | Some (address :: _) => address
  | _ => placeholder_address user_dict domain_name
  end.

(** What [process_users] makes of an account: the names are copied, the
    address is the first of the account or the placeholder, only a regular
    user is active, and the role is that of an owner for an administrator, of
    a guest for a guest who is no administrator, of a member otherwise. *)
Definition converts_to (domain_name : string) (item : string * User)
    (user : ZerverUserProfile) : Prop :=
  zu_full_name user = u_name item.2 ∧
  zu_short_name user = u_username item.2 ∧
  zu_email user = address_of item.2 domain_name ∧
  zu_delivery_email user = address_of item.2 domain_name ∧
  zu_is_mirror_dummy user = bool_decide (u_type item.2 ≠ "user") ∧
  zu_is_active user = bool_decide (u_type item.2 = "user") ∧
  ("admin" ∈ u_roles item.2 → zu_role user = ROLE_REALM_OWNER) ∧
  ("admin" ∉ u_roles item.2 → "guest" ∈ u_roles item.2 → zu_role user = ROLE_GUEST) ∧
  ("admin" ∉ u_roles item.2 → "guest" ∉ u_roles item.2 → zu_role user = ROLE_MEMBER).

(** The account cannot be converted, and the exception it meets: a regular
    user without the key [emails], or with an empty list of addresses. *)
Definition lacks_address (item : string * User) (e : Error) : Prop :=
  u_type item.2 = "user" ∧
  ((u_emails item.2 = None ∧ e = KeyError "emails") ∨
   (u_emails item.2 = Some [] ∧ e = IndexError)).

(** A room document as [convert_channel_data] reads it: the record that
    classification files, with its name and its description. *)
Record ChannelDict : Type := {
  cd_channel : Channel;
  cd_name : string;                   (* channel_dict["name"] *)
  cd_description : option string;     (* channel_dict.get("description") *)
}.

(** Modelled from the spec: [import_util.build_stream] is not among the
    sources; a target stream holds the values it is built from. *)
Record Stream : Type := build_stream {
  s_date_created : Z;
  s_realm_id : nat;
  s_name : string;
  s_description : string;
  s_id : nat;
  s_deactivated : bool;
  s_invite_only : bool;
}.

(** The name and the description of the stream of a room: the main channel
    of a team is marked in its name, another channel of a team in its
    description, with the name of the team's main channel. *)
Definition stream_name_and_desc (team_id_to_team_map : gmap string ChannelDict)
    (channel_dict : ChannelDict) : result (string * string) :=
  let stream_name := cd_name channel_dict in
  let stream_desc := default "" (cd_description channel_dict) in
  match ch_teamId (cd_channel channel_dict) with
  | Some (String c s) =>
      match ch_teamMain (cd_channel channel_dict) with
      | Some true => Ok ("[TEAM] " +:+ stream_name, stream_desc)
      | _ =>
          match team_id_to_team_map !! String c s with
          | Some team =>
              Ok (stream_name, "[Team " +:+ cd_name team +:+ " channel]. " +:+ stream_desc)
          | None => Raise (KeyError (String c s))
          end
      end
  | _ => Ok (stream_name, stream_desc)
  end.

(** The body of the loop of [convert_channel_data]. *)
Definition convert_channel (team_id_to_team_map : gmap string ChannelDict) (realm_id : nat)
    (timezone_now : string → Z) (acc : IdMapper.t * list Stream) (item : string * ChannelDict)
    : result (IdMapper.t * list Stream) :=
  let rc_room_id := item.1 in
  let channel_dict := item.2 in
  let now := timezone_now rc_room_id in
  let (stream_id, stream_id_mapper) := IdMapper.get rc_room_id acc.1 in
  let invite_only := bool_decide (ch_t (cd_channel channel_dict) = "p") in
  match stream_name_and_desc team_id_to_team_map channel_dict with
  | Ok (stream_name, stream_desc) =>
      let stream :=
        build_stream now realm_id stream_name stream_desc stream_id false invite_only in
      Ok (stream_id_mapper, acc.2 ++ [stream])
  | Raise e => Raise e
  end.

(** [convert_channel_data]: the stream id mapper is threaded through. *)
Definition convert_channel_data (room_id_to_room_map : PyDict.t ChannelDict)
    (team_id_to_team_map : gmap string ChannelDict) (stream_id_mapper : IdMapper.t)
    (realm_id : nat) (timezone_now : string → Z) : result (IdMapper.t * list Stream) :=
  fold_result (convert_channel team_id_to_team_map realm_id timezone_now)
    room_id_to_room_map (stream_id_mapper, []).

(** A channel of a team, other than the main one, whose team is known. *)
Definition team_is_known (team_id_to_team_map : gmap string ChannelDict)
    (channel_dict : ChannelDict) : Prop :=
  ∀ team_id, ch_teamId (cd_channel channel_dict) = Some team_id → team_id ≠ "" →
    ch_teamMain (cd_channel channel_dict) ≠ Some true →
    is_Some (team_id_to_team_map !! team_id).

(** A channel of a team, other than the main one, whose team is not in the
    team index, and the exception it meets. *)
Definition team_is_unknown (team_id_to_team_map : gmap string ChannelDict)
    (channel_dict : ChannelDict) (e : Error) : Prop :=
  ∃ team_id, ch_teamId (cd_channel channel_dict) = Some team_id ∧ team_id ≠ "" ∧
    ch_teamMain (cd_channel channel_dict) ≠ Some true ∧
    team_id_to_team_map !! team_id = None ∧ e = KeyError team_id.

(** What [convert_channel_data] makes of a room, case by case.  A room
    belongs to a team when it has a team id that is not the empty string.
    - The name of the stream is the name of the room, with ["[TEAM] "]
      before it when the room is the main channel of a team.
    - The description is that of the room, empty when the room has none;
      when the room is a channel of a team other than its main channel,
      ["[Team T channel]. "] stands before it, [T] being the name of the
      room that the team index holds for the team.
    - The stream is invite-only exactly when the type of the room is ["p"];
      it is not deactivated; it carries the realm id given and the reading
      of the clock. *)
Definition stream_of (team_id_to_team_map : gmap string ChannelDict) (realm_id : nat)
    (timezone_now : string → Z) (item : string * ChannelDict) (stream : Stream) : Prop :=
  let room := cd_channel item.2 in
  let description := default "" (cd_description item.2) in
  ((ch_teamId room = None ∨ ch_teamId room = Some "") →
     s_name stream = cd_name item.2 ∧ s_description stream = description) ∧
  (∀ team_id, ch_teamId room = Some team_id → team_id ≠ "" →
     ch_teamMain room = Some true →
     s_name stream = "[TEAM] " +:+ cd_name item.2 ∧ s_description stream = description) ∧
  (∀ team_id, ch_teamId room = Some team_id → team_id ≠ "" →
     ch_teamMain room ≠ Some true →
     ∃ team, team_id_to_team_map !! team_id = Some team ∧
       s_name stream = cd_name item.2 ∧
       s_description stream = "[Team " +:+ cd_name team +:+ " channel]. " +:+ description) ∧
  s_invite_only stream = bool_decide (ch_t room = "p") ∧
  s_deactivated stream = false ∧
  s_realm_id stream = realm_id ∧
  s_date_created stream = timezone_now item.1.

Module SubscriberHandler.

(** Modelled from the spec: [import_util.SubscriberHandler] is not among the
    sources.  It records a set of user ids per stream. *)
Definition t : Type := gmap nat (gset nat).

Definition new : t := ∅.

(** Modelled from the spec: the set recorded for a stream is overwritten. *)
Definition set_info (users : gset nat) (stream_id : nat) (h : t) : t :=
  <[stream_id := users]> h.

(** Modelled from the spec: the recorded set, empty if none was recorded. *)
Definition get_users (stream_id : nat) (h : t) : gset nat := default ∅ (h !! stream_id).

End SubscriberHandler.

(** The stores that the first loop of [convert_subscription_data] works on. *)
Record Memberships : Type := {
  ms_stream_id_mapper : IdMapper.t;
  ms_user_id_mapper : IdMapper.t;
  stream_members_map : gmap nat (gset nat);
}.

(** The body of the inner loop of [convert_subscription_data]. *)
Definition add_member (dsc_id_to_dsc_map : gmap string Channel) (rc_user_id : string)
    (stores : Memberships) (channel : string) : Memberships :=
  if decide (is_Some (dsc_id_to_dsc_map !! channel)) then stores
  else
    let (stream_id, stream_id_mapper) := IdMapper.get channel (ms_stream_id_mapper stores) in
    let members :=
      if decide (is_Some (stream_members_map stores !! stream_id))
      then stream_members_map stores
      else <[stream_id := ∅]> (stream_members_map stores) in
    let (user_id, user_id_mapper) := IdMapper.get rc_user_id (ms_user_id_mapper stores) in
    {| ms_stream_id_mapper := stream_id_mapper;
       ms_user_id_mapper := user_id_mapper;
       stream_members_map :=
         <[stream_id := default ∅ (members !! stream_id) ∪ {[user_id]}]> members |}.

(** The first loop of [convert_subscription_data]. *)
Definition collect_members (user_id_to_user_map : PyDict.t User)
    (dsc_id_to_dsc_map : gmap string Channel) (stores : Memberships) : Memberships :=
  foldl (λ stores (item : string * User),
           if negb (list_truthy (u_rooms item.2)) then stores
           else foldl (add_member dsc_id_to_dsc_map item.1) stores
                      (default [] (u_rooms item.2)))
        stores user_id_to_user_map.

(** [convert_subscription_data]: the two id mappers and the subscriber
    handler are returned as they are at the end. *)
Definition convert_subscription_data (user_id_to_user_map : PyDict.t User)
    (dsc_id_to_dsc_map : gmap string Channel) (zerver_stream : list Stream)
    (stream_id_mapper user_id_mapper : IdMapper.t) (subscriber_handler : SubscriberHandler.t)
    : IdMapper.t * IdMapper.t * SubscriberHandler.t :=
  let stores :=
    collect_members user_id_to_user_map dsc_id_to_dsc_map
      {| ms_stream_id_mapper := stream_id_mapper;
         ms_user_id_mapper := user_id_mapper;
         stream_members_map := ∅ |} in
  let subscriber_handler :=
    foldl (λ subscriber_handler stream,
             let users :=
               match stream_members_map stores !! s_id stream with
               | Some users => users
               | None => ∅
               end in
             SubscriberHandler.set_info users (s_id stream) subscriber_handler)
          subscriber_handler zerver_stream in
  (ms_stream_id_mapper stores, ms_user_id_mapper stores, subscriber_handler).

(** The (user, room) pairs that the first loop of [convert_subscription_data]
    visits: every room listed for a user, discussions left out. *)
Definition memberships (user_id_to_user_map : PyDict.t User)
    (dsc_id_to_dsc_map : gmap string Channel) : list (string * string) :=
  concat ((λ item : string * User,
             (λ channel, (item.1, channel)) <$>
               filter (λ channel, ¬ is_Some (dsc_id_to_dsc_map !! channel))
                      (default [] (u_rooms item.2))) <$> user_id_to_user_map).

(** Modelled from the spec: the kinds of [zerver.models.Recipient], which is
    not among the sources; a recipient is personal, a stream, or of another
    kind. *)
Inductive RecipientType : Type := PERSONAL | STREAM | HUDDLE.

Global Instance RecipientType_eq_dec : EqDecision RecipientType.
Proof. solve_decision. Defined.

(** A record of [zerver_recipient]. *)
Record Recipient : Type := {
  rec_id : nat;                 (* recipient["id"] *)
  rec_type : RecipientType;     (* recipient["type"] *)
  rec_type_id : nat;            (* recipient["type_id"] *)
}.

(** [map_receiver_id_to_recipient_id]: the two dictionaries are returned as
    (stream_id_to_recipient_id, user_id_to_recipient_id). *)
Definition map_receiver_id_to_recipient_id (zerver_recipient : list Recipient)
    (stream_id_to_recipient_id user_id_to_recipient_id : gmap nat nat)
    : gmap nat nat * gmap nat nat :=
  foldl (λ maps recipient,
           if decide (rec_type recipient = STREAM) then
             (<[rec_type_id recipient := rec_id recipient]> maps.1, maps.2)
           else if decide (rec_type recipient = PERSONAL) then
             (maps.1, <[rec_type_id recipient := rec_id recipient]> maps.2)
           else maps)
        (stream_id_to_recipient_id, user_id_to_recipient_id) zerver_recipient.

(** ** rocketchat1.py: the streams and the subscribers *)

Module Rocketchat1Stages.

(** The name and the description of the stream of a room: a room is a
    channel of a team when it has the key [teamId]. *)
Definition stream_name_and_desc (team_id_to_team_map : gmap string ChannelDict)
    (channel_dict : ChannelDict) : result (string * string) :=
  let stream_name := cd_name channel_dict in
  let stream_desc := default "" (cd_description channel_dict) in
  match ch_teamId (cd_channel channel_dict) with
  | Some team_id =>
      match ch_teamMain (cd_channel channel_dict) with
      | Some true => Ok ("[TEAM] " +:+ stream_name, stream_desc)
      | _ =>
          match team_id_to_team_map !! team_id with
          | Some team =>
              Ok (stream_name, "[Team " +:+ cd_name team +:+ " channel]. " +:+ stream_desc)
          | None => Raise (KeyError team_id)
          end
      end
  | None => Ok (stream_name, stream_desc)
  end.

(** The body of the loop of [convert_channel_data]. *)
Definition convert_channel (team_id_to_team_map : gmap string ChannelDict) (realm_id : nat)
    (timezone_now : string → Z) (acc : IdMapper.t * list Stream) (item : string * ChannelDict)
    : result (IdMapper.t * list Stream) :=
  let room_id := item.1 in
  let channel_dict := item.2 in
  let now := timezone_now room_id in
  let (stream_id, stream_id_mapper) := IdMapper.get room_id acc.1 in
  let invite_only := bool_decide (ch_t (cd_channel channel_dict) = "p") in
  match stream_name_and_desc team_id_to_team_map channel_dict with
  | Ok (stream_name, stream_desc) =>
      let stream :=
        build_stream now realm_id stream_name stream_desc stream_id false invite_only in
      Ok (stream_id_mapper, acc.2 ++ [stream])
  | Raise e => Raise e
  end.

Definition convert_channel_data (roomid_room_map : PyDict.t ChannelDict)
    (teamid_team_map : gmap string ChannelDict) (stream_id_mapper : IdMapper.t)
    (realm_id : nat) (timezone_now : string → Z) : result (IdMapper.t * list Stream) :=
  fold_result (convert_channel teamid_team_map realm_id timezone_now)
    roomid_room_map (stream_id_mapper, []).

(** The first loop of [convert_subscription_data]: a user is skipped when it
    has no key [__rooms]. *)
Definition collect_members (userid_user_map : PyDict.t User)
    (dscid_dsc_map : gmap string Channel) (stores : Memberships) : Memberships :=
  foldl (λ stores (item : string * User),
           match u_rooms item.2 with
           | None => stores
           | Some rooms => foldl (add_member dscid_dsc_map item.1) stores rooms
           end)
        stores userid_user_map.

Definition convert_subscription_data (userid_user_map : PyDict.t User)
    (dscid_dsc_map : gmap string Channel) (zerver_stream : list Stream)
    (stream_id_mapper user_id_mapper : IdMapper.t) (subscriber_handler : SubscriberHandler.t)
    : IdMapper.t * IdMapper.t * SubscriberHandler.t :=
  let stores :=
    collect_members userid_user_map dscid_dsc_map
      {| ms_stream_id_mapper := stream_id_mapper;
         ms_user_id_mapper := user_id_mapper;
         stream_members_map := ∅ |} in
  let subscriber_handler :=
    foldl (λ subscriber_handler stream,
             let users :=
               match stream_members_map stores !! s_id stream with
               | Some users => users
               | None => ∅
               end in
             SubscriberHandler.set_info users (s_id stream) subscriber_handler)
          subscriber_handler zerver_stream in
  (ms_stream_id_mapper stores, ms_user_id_mapper stores, subscriber_handler).

End Rocketchat1Stages.

(** ** A second snapshot, for the stages before the messages *)

Module Fixture.

(** A private room that has the id of [Sample.general]. *)
Definition general_private : Channel :=
  {| ch_id := "GENERAL"; ch_t := "p"; ch_prid := None; ch_fname := None;
     ch_uids := None; ch_teamMain := None; ch_teamId := None |}.

(** A room flagged as the main channel of a team that carries no team id,
    and a second room flagged as the main channel of the team of
    [Sample.core_team]. *)
Definition unnamed_team : Channel :=
  {| ch_id := "orphan"; ch_t := "c"; ch_prid := None; ch_fname := None;
     ch_uids := None; ch_teamMain := Some true; ch_teamId := None |}.
Definition second_main : Channel :=
  {| ch_id := "team-main-2"; ch_t := "c"; ch_prid := None; ch_fname := None;
     ch_uids := None; ch_teamMain := Some true; ch_teamId := Some "team-1" |}.

(** Alice's conversation with herself, and a direct channel of three. *)
Definition alice_alone : Channel :=
  {| ch_id := "rcAlice"; ch_t := "d"; ch_prid := None; ch_fname := None;
     ch_uids := Some ["rcAlice"]; ch_teamMain := None; ch_teamId := None |}.
Definition trio : Channel :=
  {| ch_id := "trio"; ch_t := "d"; ch_prid := None; ch_fname := None;
     ch_uids := Some ["rcAlice"; "rcBob"; "rcCarol"];
     ch_teamMain := None; ch_teamId := None |}.

Definition maps : ChannelMaps :=
  {| room_id_to_room_map := room_id_to_room_map Sample.maps;
     team_id_to_team_map := team_id_to_team_map Sample.maps;
     dsc_id_to_dsc_map := dsc_id_to_dsc_map Sample.maps;
     direct_id_to_direct_map :=
       {[ "rcAlicercBob" := Sample.alice_bob; "rcAlice" := alice_alone; "trio" := trio ]} |}.

Definition env : Env :=
  {| realm_id := realm_id Sample.env;
     username_to_user_id_map := username_to_user_id_map Sample.env;
     user_id_to_recipient_id := user_id_to_recipient_id Sample.env;
     stream_id_to_recipient_id := stream_id_to_recipient_id Sample.env;
     channel_maps := maps;
     user_handler := user_handler Sample.env;
     subscriber_map := subscriber_map Sample.env;
     name_to_codepoint := name_to_codepoint Sample.env;
     make_user_messages := make_user_messages Sample.env;
     set_order := set_order Sample.env |}.

(** A message in Alice's direct channel with Bob. *)
Definition whisper : SourceMessage := Sample.message "rcBob" "rcAlicercBob" "hi Alice".

(** A converted message that mentions an id the user handler does not hold. *)
Definition raw_stranger : RawMessage :=
  {| sender_id := 0; content := "@ghost are you there"; date_sent := 1600000000;
     reactions := []; recipient_id := 2; topic_name := "Imported from Rocket.Chat";
     mention_user_ids := [7] |}.

(** Two users, the short name of the first being the beginning of the short
    name of the second, in a run whose sets are iterated in a given order;
    and a message of the first to the second, whom it mentions first. *)
Definition al : UserProfile :=
  {| up_id := 0; up_full_name := "Al Green"; up_short_name := "al" |}.
Definition alice : UserProfile :=
  {| up_id := 1; up_full_name := "Alice Smith"; up_short_name := "alice" |}.

Definition namesakes (order : PySet.order) : Env :=
  {| realm_id := 0;
     username_to_user_id_map := {[ "al" := "rcAl"; "alice" := "rcAlice" ]};
     user_id_to_recipient_id := {[ 0 := 0; 1 := 1 ]};
     stream_id_to_recipient_id := {[ 0 := 2; 1 := 3 ]};
     channel_maps := Sample.maps;
     user_handler := [al; alice];
     subscriber_map := ∅;
     name_to_codepoint := name_to_codepoint Sample.env;
     make_user_messages := make_user_messages Sample.env;
     set_order := order |}.

Definition namesakes_state : State :=
  {| user_id_mapper := IdMapper.gets ["rcAl"; "rcAlice"] (IdMapper.new 0);
     stream_id_mapper := stream_id_mapper Sample.state;
     counters := ∅;
     total_reactions := [];
     files := [];
     log := [] |}.

Definition greeting : SourceMessage :=
  {| m_sender := "rcAl"; m_msg := "@alice hi, al"; m_ts := 1600000000;
     m_rid := Some "GENERAL"; m_t := None; m_mentions := ["rcAlice"; "rcAl"];
     m_reactions := [] |}.

(** Three accounts: two regular users and a bot without address. *)
Definition alice_account : User :=
  {| u_id := "rcAlice"; u_type := "user"; u_username := "alice"; u_name := "Alice Smith";
     u_emails := Some ["alice@example.com"]; u_roles := ["admin"; "user"];
     u_rooms := Some ["GENERAL"; "dsc-1"; "rcAlicercBob"] |}.
Definition bob_account : User :=
  {| u_id := "rcBob"; u_type := "user"; u_username := "bob"; u_name := "Bob Jones";
     u_emails := Some ["bob@example.com"]; u_roles := ["user"];
     u_rooms := Some ["GENERAL"] |}.
Definition bot_account : User :=
  {| u_id := "rcBot"; u_type := "bot"; u_username := "rocket.cat"; u_name := "Rocket.Cat";
     u_emails := None; u_roles := ["bot"]; u_rooms := None |}.

Definition users : list User := [alice_account; bob_account; bot_account].

Definition user_map : PyDict.t User :=
  [("rcAlice", alice_account); ("rcBob", bob_account); ("rcBot", bot_account)].

(** The stores that [process_users] leaves. *)
Definition converted : IdMapper.t * list ZerverUserProfile :=
  match process_users user_map 0 "example.com" (λ _, 1600000000%Z) [] (IdMapper.new 0) with
  | Ok stores => stores
  | Raise _ => (IdMapper.new 0, [])
  end.

(** The context and the stores of the message stage after the user stage. *)
Definition staged_env : Env :=
  {| realm_id := 0;
     username_to_user_id_map := map_username_to_user_id user_map;
     user_id_to_recipient_id := user_id_to_recipient_id Sample.env;
     stream_id_to_recipient_id := stream_id_to_recipient_id Sample.env;
     channel_maps := Sample.maps;
     user_handler := fields_read <$> converted.2;
     subscriber_map := ∅;
     name_to_codepoint := name_to_codepoint Sample.env;
     make_user_messages := make_user_messages Sample.env;
     set_order := set_order Sample.env |}.

Definition staged_state : State :=
  {| user_id_mapper := converted.1;
     stream_id_mapper := stream_id_mapper Sample.state;
     counters := ∅;
     total_reactions := [];
     files := [];
     log := [] |}.

(** Three rooms: a public room, the main channel of a team, and another
    channel of that team. *)
Definition general_dict : ChannelDict :=
  {| cd_channel := Sample.general; cd_name := "general"; cd_description := None |}.
Definition core_team_dict : ChannelDict :=
  {| cd_channel := Sample.core_team; cd_name := "core";
     cd_description := Some "The core team" |}.
Definition core_dev_dict : ChannelDict :=
  {| cd_channel :=
       {| ch_id := "core-dev"; ch_t := "p"; ch_prid := None; ch_fname := None;
          ch_uids := None; ch_teamMain := None; ch_teamId := Some "team-1" |};
     cd_name := "core-dev"; cd_description := Some "Development" |}.

Definition room_map : PyDict.t ChannelDict :=
  [("GENERAL", general_dict); ("team-main", core_team_dict); ("core-dev", core_dev_dict)].

Definition team_map : gmap string ChannelDict := {[ "team-1" := core_team_dict ]}.

(** The recipients of the two users and the two streams of [Sample.env]. *)
Definition recipients : list Recipient :=
  [ {| rec_id := 0; rec_type := PERSONAL; rec_type_id := 0 |};
    {| rec_id := 1; rec_type := PERSONAL; rec_type_id := 1 |};
    {| rec_id := 2; rec_type := STREAM; rec_type_id := 0 |};
    {| rec_id := 3; rec_type := STREAM; rec_type_id := 1 |} ].

End Fixture.

(** ** Properties of IdMapper *)

Module IdMapperFacts.
Import IdMapper.

Lemma inv_new floor : inv floor (new floor).
Proof.
  split; simpl.
  - intros k v; rewrite lookup_empty; discriminate.
  - intros k1 k2 v; rewrite lookup_empty; discriminate.
  - rewrite map_size_empty; lia.
Qed.

Lemma inv_get floor k m : inv floor m → inv floor (get k m).2.
Proof.
  intros [Hr Hi Hc]. unfold get.
  destruct (map m !! k) as [v|] eqn:Hk; simpl; [by split|].
  split; simpl.
  - intros k' v'. rewrite lookup_insert. case_decide.
    + intros [= <-]. lia.
    + intros Hv. apply Hr in Hv. lia.
  - intros k1 k2 v. rewrite !lookup_insert.
    repeat case_decide; subst; try done.
    + intros [= <-] Hv. apply Hr in Hv. lia.
    + intros Hv [= <-]. apply Hr in Hv. lia.
    + apply Hi.
  - rewrite map_size_insert_None by done. lia.
Qed.

Lemma inv_gets floor ks m : inv floor m → inv floor (gets ks m).
Proof.
  revert m. induction ks as [|k ks IH]; intros m Hm; [done|].
  apply IH. by apply inv_get.
Qed.

Lemma gets_app ks1 ks2 m : gets (ks1 ++ ks2) m = gets ks2 (gets ks1 m).
Proof. unfold gets. by rewrite foldl_app. Qed.

(** [get] records the integer it returns. *)
Lemma get_recorded k m : map (get k m).2 !! k = Some (get k m).1.
Proof.
  unfold get. destruct (map m !! k) as [v|] eqn:Hk; simpl; [done|].
  by rewrite lookup_insert_eq.
Qed.

(** An assignment, once recorded, survives every later call. *)
Lemma get_preserves k k' v m :
  map m !! k = Some v → map (get k' m).2 !! k = Some v.
Proof.
  intros Hk. unfold get. destruct (map m !! k') as [v'|] eqn:Hk'; simpl; [done|].
  rewrite lookup_insert_ne; [done|]. intros ->. congruence.
Qed.

Lemma gets_preserves ks k v m :
  map m !! k = Some v → map (gets ks m) !! k = Some v.
Proof.
  revert m. induction ks as [|k' ks IH]; intros m Hk; [done|].
  apply IH. by apply get_preserves.
Qed.

Lemma get_known k v m : map m !! k = Some v → get k m = (v, m).
Proof. intros Hk. unfold get. by rewrite Hk. Qed.

Lemma get_fresh k m :
  map m !! k = None →
  get k m = (cnt m, {| map := <[k := cnt m]> (map m); cnt := S (cnt m) |}).
Proof. intros Hk. unfold get. by rewrite Hk. Qed.

(** The keys recorded after a history are the keys of the history. *)
Lemma gets_dom ks m k :
  is_Some (map (gets ks m) !! k) ↔ k ∈ ks ∨ is_Some (map m !! k).
Proof.
  revert m. induction ks as [|k' ks IH]; intros m; simpl.
  - rewrite elem_of_nil. naive_solver.
  - rewrite IH, elem_of_cons. unfold get.
    destruct (map m !! k') as [v'|] eqn:Hk'; simpl.
    + split; [naive_solver|]. intros [[->|?]|?]; eauto.
    + rewrite lookup_insert. case_decide; subst.
      * split; eauto.
      * naive_solver.
Qed.

Lemma seen_elem k ks : k ∈ seen ks ↔ k ∈ ks.
Proof.
  induction ks as [|k' ks IH]; simpl; [done|].
  rewrite !elem_of_cons, list_elem_of_filter, IH.
  destruct (decide (k = k')); naive_solver.
Qed.

Lemma seen_NoDup ks : NoDup (seen ks).
Proof.
  induction ks as [|k ks IH]; simpl; [constructor|].
  constructor.
  - rewrite list_elem_of_filter. naive_solver.
  - by apply NoDup_filter.
Qed.

(** The number of keys recorded by a fresh mapper after a history is the
    number of distinct keys of the history. *)
Lemma gets_size floor ks :
  size (map (gets ks (new floor))) = length (seen ks).
Proof.
  assert (Hdom : dom (map (gets ks (new floor))) = list_to_set (seen ks)).
  { apply set_eq. intros k.
    rewrite elem_of_dom, gets_dom, elem_of_list_to_set, seen_elem.
    simpl. rewrite lookup_empty. split; [|by left].
    intros [?|[? [=]]]; done. }
  rewrite <- size_dom, Hdom.
  rewrite size_list_to_set; [done|]. apply seen_NoDup.
Qed.

End IdMapperFacts.

(** C4.  Within one run and one namespace (a mapper created with any floor
    and used through any history of [get] calls): a call for [k1], any
    further calls, then a call for [k2] return different integers when
    [k1 ≠ k2] and the same integer when [k1 = k2]; and a key that the history
    has not shown is given the floor plus the number of distinct keys seen so
    far, that is, the next integer counting from the floor. *)
Theorem IdMapper_get_injective_stable_next
    (floor : nat) (history more : list string) (k1 k2 : string) :
  let m := IdMapper.gets history (IdMapper.new floor) in
  let r1 := IdMapper.get k1 m in
  let r2 := IdMapper.get k2 (IdMapper.gets more r1.2) in
  (k1 ≠ k2 → r1.1 ≠ r2.1) ∧
  (k1 = k2 → r1.1 = r2.1) ∧
  (k1 ∉ history → r1.1 = floor + length (IdMapper.seen history)).
Proof.
  intros m r1 r2.
  assert (Hm : IdMapper.inv floor m)
    by apply IdMapperFacts.inv_gets, IdMapperFacts.inv_new.
  assert (H1 : IdMapper.map (IdMapper.gets more r1.2) !! k1 = Some r1.1).
  { apply IdMapperFacts.gets_preserves, IdMapperFacts.get_recorded. }
  assert (Hinv2 : IdMapper.inv floor (IdMapper.get k2 (IdMapper.gets more r1.2)).2).
  { apply IdMapperFacts.inv_get, IdMapperFacts.inv_gets, IdMapperFacts.inv_get, Hm. }
  assert (H2 : IdMapper.map r2.2 !! k2 = Some r2.1)
    by apply IdMapperFacts.get_recorded.
  assert (H1' : IdMapper.map r2.2 !! k1 = Some r1.1)
    by apply IdMapperFacts.get_preserves, H1.
  split; [|split].
  - intros Hne Heq. apply Hne.
    eapply (IdMapper.inv_inj _ _ Hinv2); [exact H1'|]. by rewrite Heq.
  - intros <-. congruence.
  - intros Hnew.
    assert (Hk : IdMapper.map m !! k1 = None).
    { apply eq_None_not_Some. intros Hs.
      apply IdMapperFacts.gets_dom in Hs as [?|[? Hs]]; [done|].
      simpl in Hs. by rewrite lookup_empty in Hs. }
    subst r1. rewrite (IdMapperFacts.get_fresh _ _ Hk). simpl.
    rewrite (IdMapper.inv_cnt _ _ Hm). subst m.
    by rewrite IdMapperFacts.gets_size.
Qed.

(** ** The conversion monad *)

Lemma bind_ret_l {A B} (a : A) (k : A → M B) st : bind (ret a) k st = k a st.
Proof. reflexivity. Qed.

Lemma bind_Ok {A B} (c : M A) (k : A → M B) st a st' :
  c st = Ok (a, st') → bind c k st = k a st'.
Proof. intros H. unfold bind. by rewrite H. Qed.

Lemma bind_Raise {A B} (c : M A) (k : A → M B) st e :
  c st = Raise e → bind c k st = Raise e.
Proof. intros H. unfold bind. by rewrite H. Qed.

Lemma bind_inv {A B} (c : M A) (k : A → M B) st b st'' :
  bind c k st = Ok (b, st'') → ∃ a st', c st = Ok (a, st') ∧ k a st' = Ok (b, st'').
Proof.
  unfold bind. destruct (c st) as [[a st']|e] eqn:Hc; [|discriminate].
  intros Hk. by exists a, st'.
Qed.

Lemma bind_ext {A B} (c : M A) (k1 k2 : A → M B) st :
  (∀ a st', k1 a st' = k2 a st') → bind c k1 st = bind c k2 st.
Proof. intros H. unfold bind. destruct (c st) as [[a st']|e]; [apply H|done]. Qed.

Lemma fold_for_app {A B} (body : B → A → M B) l1 l2 acc st :
  fold_for body (l1 ++ l2) acc st = bind (fold_for body l1 acc) (fold_for body l2) st.
Proof.
  revert acc st. induction l1 as [|x l1 IH]; intros acc st; simpl; [done|].
  unfold bind in *. destruct (body acc x st) as [[acc' st']|e]; [apply IH|done].
Qed.

(** ** Event messages *)

Lemma convert_messages_event env is_pm_data message rest raw_messages st :
  is_Some (m_t message) →
  fold_for (λ raw_messages message,
      match m_t message with
      | Some _ => ret raw_messages
      | None =>
          let* raw_message := message_to_dict env is_pm_data message in
          ret (raw_messages ++ [raw_message])
      end) (message :: rest) raw_messages st
  = fold_for (λ raw_messages message,
      match m_t message with
      | Some _ => ret raw_messages
      | None =>
          let* raw_message := message_to_dict env is_pm_data message in
          ret (raw_messages ++ [raw_message])
      end) rest raw_messages st.
Proof. intros [t Ht]. simpl. rewrite Ht. apply bind_ret_l. Qed.

Lemma convert_messages_skip env is_pm_data pre message post st :
  is_Some (m_t message) →
  convert_messages env is_pm_data (pre ++ message :: post) st
  = convert_messages env is_pm_data (pre ++ post) st.
Proof.
  intros Ht. unfold convert_messages. rewrite !fold_for_app.
  apply bind_ext. intros acc st'. by apply convert_messages_event.
Qed.

(** C7.  A raw message that carries an event type yields no target message
    and takes no part in the conversion: processed alone it leaves every
    store as it was (no id mapper is consulted, so no sender or mention is
    resolved, no reaction is listed, no counter moves, no file is written);
    processed among other messages, the conversion and the whole of
    [process_messages] are what they are without it. *)
Theorem event_messages_are_skipped env is_pm_data pre message post st :
  is_Some (m_t message) →
  process_messages env is_pm_data [message] st = Ok (tt, st) ∧
  convert_messages env is_pm_data (pre ++ message :: post) st
    = convert_messages env is_pm_data (pre ++ post) st ∧
  process_messages env is_pm_data (pre ++ message :: post) st
    = process_messages env is_pm_data (pre ++ post) st.
Proof.
  intros Ht. split; [|split].
  - destruct Ht as [t Ht]. unfold process_messages, convert_messages. simpl.
    rewrite Ht. reflexivity.
  - by apply convert_messages_skip.
  - unfold process_messages, bind. by rewrite convert_messages_skip.
Qed.

(** ** Classification of channels *)

Lemma fold_result_app {A B} (body : B → A → result B) l1 l2 acc :
  fold_result body (l1 ++ l2) acc =
  match fold_result body l1 acc with
  | Ok acc' => fold_result body l2 acc'
  | Raise e => Raise e
  end.
Proof.
  revert acc. induction l1 as [|x l1 IH]; intros acc; simpl; [done|].
  destruct (body acc x); [apply IH|done].
Qed.

(** One step files the record under its id in the index of its category and
    leaves the two other indexes alone. *)
Lemma categorize_channel_index maps channel maps' c :
  categorize_channel maps channel = Ok maps' →
  index_of c maps' =
    if decide (c = category_of channel)
    then <[ch_id channel := channel]> (index_of c maps)
    else index_of c maps.
Proof.
  unfold categorize_channel, category_of.
  destruct (Py.truthy (ch_prid channel)).
  { intros [= <-]. by destruct c. }
  destruct (decide (ch_t channel = "d")).
  { intros [= <-]. by destruct c. }
  destruct (ch_teamMain channel) as [[]|]; [destruct (ch_teamId channel)|..];
    intros [= <-]; by destruct c.
Qed.

Lemma categorize_channel_team maps channel maps' :
  categorize_channel maps channel = Ok maps' →
  (∃ team_id, main_room_of team_id channel ∧
     team_id_to_team_map maps' = <[team_id := channel]> (team_id_to_team_map maps))
  ∨ ((∀ team_id, ¬ main_room_of team_id channel) ∧
     team_id_to_team_map maps' = team_id_to_team_map maps).
Proof.
  unfold categorize_channel, main_room_of, category_of.
  destruct (Py.truthy (ch_prid channel)).
  { intros [= <-]. right. split; [|done]. by intros ? [? _]. }
  destruct (decide (ch_t channel = "d")).
  { intros [= <-]. right. split; [|done]. by intros ? [? _]. }
  destruct (ch_teamMain channel) as [[]|] eqn:Hmain.
  - destruct (ch_teamId channel) as [team_id|] eqn:Hid; [|discriminate].
    intros [= <-]. left. by exists team_id.
  - intros [= <-]. right. split; [|done]. by intros ? (_ & ? & _).
  - intros [= <-]. right. split; [|done]. by intros ? (_ & ? & _).
Qed.

Lemma categorize_channel_total maps channel :
  names_its_team channel → ∃ maps', categorize_channel maps channel = Ok maps'.
Proof.
  unfold names_its_team, categorize_channel, category_of.
  destruct (Py.truthy (ch_prid channel)); [eauto|].
  destruct (decide (ch_t channel = "d")); [eauto|].
  destruct (ch_teamMain channel) as [[]|]; [|eauto..].
  intros H. destruct (H eq_refl eq_refl) as [team_id ->]. eauto.
Qed.

Lemma categorize_total channel_data maps :
  Forall names_its_team channel_data →
  ∃ maps', categorize_channels_and_map_with_id channel_data maps = Ok maps'.
Proof.
  unfold categorize_channels_and_map_with_id.
  intros H. revert maps. induction H as [|channel rest Hc _ IH]; intros maps; simpl; [eauto|].
  destruct (categorize_channel_total maps channel Hc) as [maps1 ->]. apply IH.
Qed.

(** Where the entries of the indexes come from. *)
Lemma categorize_origin channel_data maps0 maps :
  categorize_channels_and_map_with_id channel_data maps0 = Ok maps →
  (∀ c i channel, index_of c maps !! i = Some channel →
     index_of c maps0 !! i = Some channel ∨
     (channel ∈ channel_data ∧ ch_id channel = i ∧ category_of channel = c)) ∧
  (∀ i channel, team_id_to_team_map maps !! i = Some channel →
     team_id_to_team_map maps0 !! i = Some channel ∨
     (channel ∈ channel_data ∧ main_room_of i channel)).
Proof.
  unfold categorize_channels_and_map_with_id.
  revert maps0. induction channel_data as [|ch rest IH]; intros maps0; simpl.
  { intros [= <-]. eauto. }
  destruct (categorize_channel maps0 ch) as [maps1|] eqn:Hstep; [|discriminate].
  intros Hrest. destruct (IH _ Hrest) as [IHi IHt]. split.
  - intros c i channel Hl. destruct (IHi _ _ _ Hl) as [Hl1|(? & ? & ?)].
    + rewrite (categorize_channel_index _ _ _ c Hstep) in Hl1.
      case_decide; [|by left].
      rewrite lookup_insert in Hl1. case_decide; [|by left].
      injection Hl1 as <-. right. split_and!; [left|done..].
    + right. split_and!; [by right|done..].
  - intros i channel Hl. destruct (IHt _ _ Hl) as [Hl1|(? & ?)].
    + destruct (categorize_channel_team _ _ _ Hstep) as [(tid & Hmain & Heq)|[_ Heq]];
        rewrite Heq in Hl1; [|by left].
      rewrite lookup_insert in Hl1. case_decide; [|by left].
      injection Hl1 as <-. subst. right. split; [left|done].
    + right. split; [by right|done].
Qed.

(** An entry stays where it is as long as no later record of the same
    category has the same id. *)
Lemma categorize_keeps channel_data maps0 maps c i channel :
  categorize_channels_and_map_with_id channel_data maps0 = Ok maps →
  index_of c maps0 !! i = Some channel →
  (∀ ch, ch ∈ channel_data → ch_id ch = i → category_of ch ≠ c) →
  index_of c maps !! i = Some channel.
Proof.
  unfold categorize_channels_and_map_with_id.
  revert maps0. induction channel_data as [|ch rest IH]; intros maps0; simpl.
  { by intros [= <-]. }
  destruct (categorize_channel maps0 ch) as [maps1|] eqn:Hstep; [|discriminate].
  intros Hrest Hl Hlater. apply (IH maps1); [done| |].
  - rewrite (categorize_channel_index _ _ _ c Hstep).
    case_decide as Hc; [|done]. rewrite lookup_insert_ne; [done|].
    intros Hid. by apply (Hlater ch (list_elem_of_here _ _) Hid).
  - intros ch' Hin. apply Hlater. by right.
Qed.

Lemma categorize_team_keeps channel_data maps0 maps i :
  categorize_channels_and_map_with_id channel_data maps0 = Ok maps →
  is_Some (team_id_to_team_map maps0 !! i) →
  is_Some (team_id_to_team_map maps !! i).
Proof.
  unfold categorize_channels_and_map_with_id.
  revert maps0. induction channel_data as [|ch rest IH]; intros maps0; simpl.
  { by intros [= <-]. }
  destruct (categorize_channel maps0 ch) as [maps1|] eqn:Hstep; [|discriminate].
  intros Hrest Hs. apply (IH maps1); [done|].
  destruct (categorize_channel_team _ _ _ Hstep) as [(tid & Hmain & ->)|[_ ->]]; [|done].
  rewrite lookup_insert. case_decide; [eauto|done].
Qed.

(** Every record is filed in the index of its category, and a team's main
    room makes its team known to the team index. *)
Lemma categorize_files channel_data maps0 maps channel :
  categorize_channels_and_map_with_id channel_data maps0 = Ok maps →
  NoDup (ch_id <$> channel_data) →
  channel ∈ channel_data →
  index_of (category_of channel) maps !! ch_id channel = Some channel ∧
  (∀ team_id, main_room_of team_id channel →
     is_Some (team_id_to_team_map maps !! team_id)).
Proof.
  unfold categorize_channels_and_map_with_id.
  revert maps0. induction channel_data as [|ch rest IH]; intros maps0; simpl.
  { intros _ _ Hin. by apply elem_of_nil in Hin. }
  destruct (categorize_channel maps0 ch) as [maps1|] eqn:Hstep; [|discriminate].
  intros Hrest Hnd Hin. apply NoDup_cons in Hnd as [Hfresh Hnd].
  apply elem_of_cons in Hin as [->|Hin]; [|by apply (IH maps1)].
  split.
  - apply (categorize_keeps rest maps1); [done| |].
    + rewrite (categorize_channel_index _ _ _ _ Hstep).
      rewrite decide_True by done. apply lookup_insert_eq.
    + intros ch' Hin' Hid. exfalso. apply Hfresh.
      rewrite <- Hid. apply list_elem_of_fmap. by exists ch'.
  - intros team_id Hmain. apply (categorize_team_keeps rest maps1); [done|].
    destruct (categorize_channel_team _ _ _ Hstep) as [(tid & Hmain' & ->)|[Hno _]].
    + destruct Hmain as (_ & _ & H1), Hmain' as (_ & _ & H2).
      rewrite H1 in H2. injection H2 as <-. rewrite lookup_insert_eq. eauto.
    + by destruct (Hno team_id).
Qed.

(** In each of the three indexes an id holds the last record of the
    collection with that id and the category of the index. *)
Lemma categorize_index_last channel_data maps0 maps c i :
  categorize_channels_and_map_with_id channel_data maps0 = Ok maps →
  index_of c maps !! i
  = from_option Some (index_of c maps0 !! i)
      (last (filter (λ channel, ch_id channel = i ∧ category_of channel = c) channel_data)).
Proof.
  unfold categorize_channels_and_map_with_id.
  revert maps0. induction channel_data as [|ch rest IH]; intros maps0; cbn [fold_result].
  { by intros [= <-]. }
  destruct (categorize_channel maps0 ch) as [maps1|] eqn:Hstep; [|discriminate].
  intros Hrest. rewrite (IH _ Hrest), (categorize_channel_index _ _ _ c Hstep).
  rewrite filter_cons.
  destruct (decide (ch_id ch = i ∧ category_of ch = c)) as [[Hid Hc]|HP].
  - subst i c. rewrite decide_True by done.
    rewrite last_cons, lookup_insert_eq. by destruct (last _).
  - destruct (last _); [done|]. simpl.
    case_decide as Hc; [|done]. rewrite lookup_insert_ne; [done|].
    intros Hid. by apply HP.
Qed.

(** The team index holds for a team the last room of the collection that is
    flagged as its main channel. *)
Lemma categorize_team_last channel_data maps0 maps team_id :
  categorize_channels_and_map_with_id channel_data maps0 = Ok maps →
  team_id_to_team_map maps !! team_id
  = from_option Some (team_id_to_team_map maps0 !! team_id)
      (last (filter (main_room_of team_id) channel_data)).
Proof.
  unfold categorize_channels_and_map_with_id.
  revert maps0. induction channel_data as [|ch rest IH]; intros maps0; cbn [fold_result].
  { by intros [= <-]. }
  destruct (categorize_channel maps0 ch) as [maps1|] eqn:Hstep; [|discriminate].
  intros Hrest. rewrite (IH _ Hrest). rewrite filter_cons.
  destruct (categorize_channel_team _ _ _ Hstep) as [(tid & Hmain & ->)|[Hno ->]].
  - destruct (decide (tid = team_id)) as [->|Hne].
    + rewrite decide_True by done. rewrite last_cons, lookup_insert_eq.
      by destruct (last _).
    + rewrite decide_False.
      * by rewrite lookup_insert_ne.
      * intros (_ & _ & Hid). destruct Hmain as (_ & _ & Hid'). congruence.
  - rewrite decide_False by apply Hno. done.
Qed.

(** C8, as the code has it.  Provided every room flagged as the main channel
    of a team carries a team id (otherwise classification raises and yields
    no index at all):
    - in each of the discussion, direct and room indexes an id holds the last
      record of the collection that has this id and whose category, by the
      precedence discussion, then direct, then room, is that of the index;
    - the team index holds for a team the last room flagged as main channel
      of that team;
    - no record is held by two of the discussion, direct and room indexes;
    - when the records have distinct ids, every record is found, under its
      own id, in the index of exactly one of the three categories;
    - a room flagged as main channel of a team is the entry of its team when
      no other room of the collection is flagged as main channel of the same
      team. *)
Theorem categorize_exactly_one_category channel_data :
  Forall names_its_team channel_data →
  ∃ maps,
    categorize_channels_and_map_with_id channel_data empty_maps = Ok maps ∧
    (∀ c i, index_of c maps !! i
            = last (filter (λ channel, ch_id channel = i ∧ category_of channel = c)
                           channel_data)) ∧
    (∀ team_id, team_id_to_team_map maps !! team_id
                = last (filter (main_room_of team_id) channel_data)) ∧
    (∀ c1 c2 i j channel,
       index_of c1 maps !! i = Some channel → index_of c2 maps !! j = Some channel →
       c1 = c2 ∧ i = j) ∧
    (NoDup (ch_id <$> channel_data) →
     ∀ channel, channel ∈ channel_data →
       ∀ c, index_of c maps !! ch_id channel = Some channel ↔ c = category_of channel) ∧
    (∀ team_id channel, channel ∈ channel_data → main_room_of team_id channel →
       (∀ other, other ∈ channel_data → main_room_of team_id other → other = channel) →
       team_id_to_team_map maps !! team_id = Some channel).
Proof.
  intros Hwf.
  destruct (categorize_total channel_data empty_maps Hwf) as [maps Hmaps].
  exists maps. split; [done|].
  destruct (categorize_origin _ _ _ Hmaps) as [Hi Ht].
  assert (Hi' : ∀ c i channel, index_of c maps !! i = Some channel →
            channel ∈ channel_data ∧ ch_id channel = i ∧ category_of channel = c).
  { intros c i channel Hl. destruct (Hi _ _ _ Hl) as [Hl0|?]; [|done].
    destruct c; simpl in Hl0; by rewrite lookup_empty in Hl0. }
  assert (Hteam : ∀ team_id, team_id_to_team_map maps !! team_id
                  = last (filter (main_room_of team_id) channel_data)).
  { intros team_id. rewrite (categorize_team_last _ _ _ team_id Hmaps).
    simpl. rewrite lookup_empty. by destruct (last _). }
  split_and!; [|done| | |].
  - intros c i. rewrite (categorize_index_last _ _ _ c i Hmaps).
    assert (index_of c empty_maps !! i = None) as ->
      by (destruct c; apply lookup_empty).
    by destruct (last _).
  - intros c1 c2 i j channel H1 H2.
    destruct (Hi' _ _ _ H1) as (_ & <- & <-), (Hi' _ _ _ H2) as (_ & <- & <-). done.
  - intros Hnd channel Hin c.
    destruct (categorize_files _ _ _ _ Hmaps Hnd Hin) as [Hfile _].
    split; [|by intros ->].
    intros Hl. by destruct (Hi' _ _ _ Hl) as (_ & _ & <-).
  - intros team_id channel Hin Hmain Honly. rewrite Hteam.
    assert (Hne : filter (main_room_of team_id) channel_data ≠ []).
    { intros Hnil. assert (channel ∈ filter (main_room_of team_id) channel_data) as Hf
        by (by apply list_elem_of_filter).
      rewrite Hnil in Hf. by apply elem_of_nil in Hf. }
    apply last_is_Some in Hne as [main Hlast]. rewrite Hlast. f_equal.
    apply last_Some in Hlast as [l' Hl'].
    assert (main ∈ filter (main_room_of team_id) channel_data) as Hf
      by (rewrite Hl'; apply elem_of_app; right; by left).
    apply list_elem_of_filter in Hf as [Hm Hd]. by apply Honly.
Qed.

(** ** Routing of a message: recipient and topic *)

Lemma with_user_id_mapper_id st : with_user_id_mapper st (user_id_mapper st) = st.
Proof. by destruct st. Qed.

Lemma user_gets_refl st : user_gets st st.
Proof. exists []. simpl. by rewrite with_user_id_mapper_id. Qed.

Lemma user_gets_trans st1 st2 st3 : user_gets st1 st2 → user_gets st2 st3 → user_gets st1 st3.
Proof.
  intros [ks1 ->] [ks2 ->]. exists (ks1 ++ ks2).
  by rewrite IdMapperFacts.gets_app.
Qed.

Lemma user_gets_stream st st' : user_gets st st' → stream_id_mapper st' = stream_id_mapper st.
Proof. by intros [ks ->]. Qed.

Lemma user_gets_known st st' k v :
  user_gets st st' →
  IdMapper.map (user_id_mapper st) !! k = Some v →
  IdMapper.map (user_id_mapper st') !! k = Some v.
Proof. intros [ks ->] Hk. simpl. by apply IdMapperFacts.gets_preserves. Qed.

Lemma user_id_mapper_get_spec k st :
  user_id_mapper_get k st =
    Ok ((IdMapper.get k (user_id_mapper st)).1,
        with_user_id_mapper st (IdMapper.get k (user_id_mapper st)).2).
Proof. unfold user_id_mapper_get. by destruct (IdMapper.get k (user_id_mapper st)). Qed.

Lemma user_id_mapper_get_frame k st : user_gets st (with_user_id_mapper st (IdMapper.get k (user_id_mapper st)).2).
Proof. by exists [k]. Qed.

Lemma stream_id_mapper_get_spec k st :
  ∃ st', stream_id_mapper_get k st = Ok ((IdMapper.get k (stream_id_mapper st)).1, st') ∧
         user_id_mapper st' = user_id_mapper st.
Proof.
  unfold stream_id_mapper_get. destruct (IdMapper.get k (stream_id_mapper st)). eauto.
Qed.

Lemma fold_for_frame {A B} (R : State → State → Prop) (body : B → A → M B) l :
  (∀ st, R st st) → (∀ st1 st2 st3, R st1 st2 → R st2 st3 → R st1 st3) →
  (∀ acc x st acc' st', body acc x st = Ok (acc', st') → R st st') →
  ∀ acc st acc' st', fold_for body l acc st = Ok (acc', st') → R st st'.
Proof.
  intros Hrefl Htrans Hbody. induction l as [|x l IH]; intros acc st acc' st'; simpl.
  - intros [= _ <-]. apply Hrefl.
  - intros H. apply bind_inv in H as (acc1 & st1 & H1 & H2).
    eapply Htrans; [by eapply Hbody|by eapply IH].
Qed.

Lemma fold_for_total {A B} (P : A → Prop) (body : B → A → M B) l :
  (∀ acc x st, P x → ∃ acc' st', body acc x st = Ok (acc', st')) →
  Forall P l → ∀ acc st, ∃ acc' st', fold_for body l acc st = Ok (acc', st').
Proof.
  intros Hbody H. induction H as [|x l Hx _ IH]; intros acc st; simpl; [by eexists _, _|].
  destruct (Hbody acc x st Hx) as (acc1 & st1 & H1).
  rewrite (bind_Ok _ _ _ _ _ H1). apply IH.
Qed.

Lemma list_reactions_frame env reactions st reactions_list st' :
  list_reactions env reactions st = Ok (reactions_list, st') → user_gets st st'.
Proof.
  unfold list_reactions.
  apply (fold_for_frame user_gets); [apply user_gets_refl|apply user_gets_trans|].
  intros acc entry st0 acc0 st0' H.
  apply bind_inv in H as (name & st1 & H1 & H2).
  assert (st1 = st0) as ->.
  { unfold index in H1. destruct (_ !! 1); [|discriminate]. by injection H1 as _ <-. }
  revert H2. apply (fold_for_frame user_gets); [apply user_gets_refl|apply user_gets_trans|].
  clear. intros acc username st acc' st' H.
  apply bind_inv in H as (rc_user_id & st1 & H1 & H2).
  assert (st1 = st) as ->.
  { unfold subscript in H1. destruct (_ !! username); [|discriminate]. by injection H1 as _ <-. }
  rewrite bind_Ok with (1 := user_id_mapper_get_spec _ _) in H2.
  injection H2 as _ <-. apply user_id_mapper_get_frame.
Qed.

Lemma list_reactions_total env message st :
  reactions_resolvable env message →
  ∃ reactions_list st', list_reactions env (m_reactions message) st = Ok (reactions_list, st').
Proof.
  unfold reactions_resolvable, list_reactions. intros H.
  eapply fold_for_total; [|exact H]. clear.
  intros acc entry st [[name Hname] Husers]. simpl in Hname.
  unfold index. rewrite Hname, bind_ret_l.
  eapply fold_for_total; [|exact Husers]. clear.
  intros acc username st [rc_user_id Hu]. simpl in Hu.
  unfold subscript. rewrite Hu, bind_ret_l.
  rewrite bind_Ok with (1 := user_id_mapper_get_spec _ _). by eexists _, _.
Qed.

Lemma collect_mentions_frame order mentions st ids st' :
  collect_mentions order mentions st = Ok (ids, st') → user_gets st st'.
Proof.
  unfold collect_mentions. intros H.
  apply bind_inv in H as (added & st1 & H & [= _ <-]). revert H.
  apply (fold_for_frame user_gets); [apply user_gets_refl|apply user_gets_trans|].
  clear. intros acc mention_id st acc' st'. case_decide.
  - intros [= _ <-]. apply user_gets_refl.
  - rewrite bind_Ok with (1 := user_id_mapper_get_spec _ _).
    intros [= _ <-]. apply user_id_mapper_get_frame.
Qed.

Lemma collect_mentions_total order mentions st :
  ∃ ids st', collect_mentions order mentions st = Ok (ids, st').
Proof.
  unfold collect_mentions.
  match goal with |- context [bind (fold_for ?body _ _)] =>
    assert (∃ added st', fold_for body mentions [] st = Ok (added, st'))
      as (added & st' & H) end.
  { apply (fold_for_total (λ _, True)); [|by apply Forall_true].
    intros acc mention_id st0 _. case_decide; [by eexists _, _|].
    rewrite bind_Ok with (1 := user_id_mapper_get_spec _ _). by eexists _, _. }
  rewrite bind_Ok with (1 := H). by eexists _, _.
Qed.

Lemma subscript_inv `{Countable K} {V} (d : gmap K V) key shown st v st' :
  subscript d key shown st = Ok (v, st') → d !! key = Some v ∧ st' = st.
Proof. unfold subscript. destruct (d !! key); [|discriminate]. by intros [= <- <-]. Qed.

Lemma field_inv {V} (o : option V) name st v st' :
  field o name st = Ok (v, st') → o = Some v ∧ st' = st.
Proof. unfold field. destruct o; [|discriminate]. by intros [= <- <-]. Qed.

Lemma index_inv {V} (l : list V) i st v st' :
  index l i st = Ok (v, st') → l !! i = Some v ∧ st' = st.
Proof. unfold index. destruct (l !! i); [|discriminate]. by intros [= <- <-]. Qed.

Lemma NoDup_fmap_elem_inj {A B} (f : A → B) (l : list A) x y :
  NoDup (f <$> l) → x ∈ l → y ∈ l → f x = f y → x = y.
Proof.
  induction l as [|z l IH]; [by intros _ ?%elem_of_nil|].
  rewrite fmap_cons. intros [Hz Hnd]%NoDup_cons Hx Hy Hf.
  apply elem_of_cons in Hx as [->|Hx]; apply elem_of_cons in Hy as [->|Hy].
  - done.
  - exfalso. apply Hz. rewrite Hf. by apply list_elem_of_fmap_2.
  - exfalso. apply Hz. rewrite <- Hf. by apply list_elem_of_fmap_2.
  - by apply IH.
Qed.

(** When the room records have distinct ids, the id of a discussion channel
    is not an id of the direct index, so the messages of a discussion
    channel are separated into the channel messages, which
    [process_messages] converts with [is_pm_data] false. *)
Lemma discussion_channel_is_not_direct channel_data maps rid dsc_channel :
  NoDup (ch_id <$> channel_data) →
  categorize_channels_and_map_with_id channel_data empty_maps = Ok maps →
  dsc_id_to_dsc_map maps !! rid = Some dsc_channel →
  direct_id_to_direct_map maps !! rid = None.
Proof.
  intros Hnd Hmaps Hdsc.
  destruct (categorize_origin _ _ _ Hmaps) as [Horigin _].
  destruct (Horigin Discussion rid dsc_channel Hdsc) as [H0|(Hin & Hid & Hcat)].
  { simpl in H0. by rewrite lookup_empty in H0. }
  destruct (direct_id_to_direct_map maps !! rid) as [direct|] eqn:Hdirect; [|done].
  destruct (Horigin Direct rid direct Hdirect) as [H0|(Hin' & Hid' & Hcat')].
  { simpl in H0. by rewrite lookup_empty in H0. }
  assert (dsc_channel = direct) as ->.
  { eapply (NoDup_fmap_elem_inj ch_id); [exact Hnd|done..|congruence]. }
  congruence.
Qed.

Lemma discussion_message_is_a_channel_message
    direct_id_to_direct_map message c rid channel_messages private_messages :
  m_rid message = Some (String c rid) →
  direct_id_to_direct_map !! String c rid = None →
  separate_channel_and_private_messages [message] direct_id_to_direct_map
    channel_messages private_messages
  = (channel_messages ++ [message], private_messages).
Proof.
  intros Hrid Hdirect. simpl. rewrite Hrid, Hdirect.
  rewrite decide_False; [done|]. by intros [? ?].
Qed.



(** The routing step of [message_to_dict] for a message of a direct channel
    whose members are [A] and [B], converted with the private messages. *)
Lemma direct_route env st message rid direct A B :
  m_rid message = Some rid →
  direct_id_to_direct_map (channel_maps env) !! rid = Some direct →
  ch_uids direct = Some [A; B] →
  ∀ k : nat * string → M RawMessage,
  bind (let* direct_channel_id := field (m_rid message) "rid" in
        let* direct := subscript (direct_id_to_direct_map (channel_maps env))
                         direct_channel_id direct_channel_id in
        let* rc_member_ids := field (ch_uids direct) "uids" in
        let* member_0 := index rc_member_ids 0 in
        let* recipient_id :=
          if decide (m_sender message = member_0) then
            let* member_1 := index rc_member_ids 1 in
            let* zulip_member_id := user_id_mapper_get member_1 in
            subscript (user_id_to_recipient_id env) zulip_member_id (Py.str zulip_member_id)
          else
            let* zulip_member_id := user_id_mapper_get member_0 in
            subscript (user_id_to_recipient_id env) zulip_member_id (Py.str zulip_member_id) in
        ret (recipient_id, "")) k st
  = let target := if decide (m_sender message = A) then B else A in
    let got := IdMapper.get target (user_id_mapper st) in
    match user_id_to_recipient_id env !! got.1 with
    | Some r => k (r, "") (with_user_id_mapper st got.2)
    | None => Raise (KeyError (Py.str got.1))
    end.
Proof.
  intros Hrid Hdirect Huids k.
  rewrite Hrid. simpl. unfold bind at 1 2. simpl.
  unfold subscript at 1. rewrite Hdirect. simpl.
  unfold bind at 1 2. simpl. rewrite Huids. simpl.
  unfold bind at 1 2. simpl.
  destruct (decide (m_sender message = A)); simpl.
  - unfold bind. simpl. rewrite user_id_mapper_get_spec.
    unfold subscript. by destruct (user_id_to_recipient_id env !! _).
  - unfold bind. rewrite user_id_mapper_get_spec.
    unfold subscript. by destruct (user_id_to_recipient_id env !! _).
Qed.

(** C2.  A message of a direct channel whose member list is [[A; B]],
    converted with the private messages.  The addressee is [B] when the
    sender is [A], and [A] for any other sender ([B] included).  Whenever
    the conversion yields a record, its recipient is the personal recipient
    of the addressee, that is, the entry of [user_id_to_recipient_id] for the
    integer that the user id mapper holds for the addressee, and the topic
    is empty; and it does yield that record as soon as the reactions
    resolve and the addressee, already known to the mapper, has a personal
    recipient. *)
Theorem direct_routing env st message rid direct A B :
  m_rid message = Some rid →
  direct_id_to_direct_map (channel_maps env) !! rid = Some direct →
  ch_uids direct = Some [A; B] →
  let addressee := if decide (m_sender message = A) then B else A in
  (∀ raw st', message_to_dict env true message st = Ok (raw, st') →
     user_id_to_recipient_id env !! (IdMapper.get addressee (user_id_mapper st')).1
       = Some (recipient_id raw) ∧
     topic_name raw = "") ∧
  (reactions_resolvable env message →
   ∀ i r, IdMapper.map (user_id_mapper st) !! addressee = Some i →
          user_id_to_recipient_id env !! i = Some r →
     ∃ raw st', message_to_dict env true message st = Ok (raw, st') ∧
       recipient_id raw = r ∧ topic_name raw = "" ∧
       (IdMapper.get addressee (user_id_mapper st')).1 = i).
Proof.
  intros Hrid Hdirect Huids addressee. split.
  - intros raw st' H. unfold message_to_dict in H.
    rewrite bind_Ok with (1 := user_id_mapper_get_spec _ _) in H.
    apply bind_inv in H as (rs & st2 & Hr & H).
    rewrite (direct_route env st2 message rid direct A B) in H by done.
    fold addressee in H. cbv zeta in H.
    destruct (user_id_to_recipient_id env !! _) as [r|] eqn:Hrec; [|discriminate].
    apply bind_inv in H as (ids & st4 & Hm & H). injection H as <- <-. simpl.
    split; [|done]. apply collect_mentions_frame in Hm.
    rewrite (IdMapperFacts.get_known addressee
               (IdMapper.get addressee (user_id_mapper st2)).1); [done|].
    eapply user_gets_known; [exact Hm|]. simpl. apply IdMapperFacts.get_recorded.
  - intros Hres i r Hknown Hrec. unfold message_to_dict.
    rewrite bind_Ok with (1 := user_id_mapper_get_spec _ _).
    destruct (list_reactions_total env message
                (with_user_id_mapper st (IdMapper.get (m_sender message) (user_id_mapper st)).2)
                Hres) as (rs & st2 & Hr).
    assert (Hframe : user_gets st st2).
    { eapply user_gets_trans; [apply user_id_mapper_get_frame|].
      by eapply list_reactions_frame. }
    rewrite bind_Ok with (1 := Hr).
    rewrite (direct_route env st2 message rid direct A B) by done.
    fold addressee. cbv zeta.
    pose proof (user_gets_known _ _ _ _ Hframe Hknown) as Hknown2.
    rewrite (IdMapperFacts.get_known _ _ _ Hknown2). simpl. rewrite Hrec.
    match goal with |- context [bind (collect_mentions ?o ?ms) _ ?s] =>
      destruct (collect_mentions_total o ms s) as (ids & st4 & Hm) end.
    rewrite bind_Ok with (1 := Hm). eexists _, _. split; [done|]. simpl.
    split_and!; [done..|].
    apply collect_mentions_frame in Hm.
    rewrite (IdMapperFacts.get_known addressee i); [done|].
    eapply user_gets_known; [exact Hm|]. simpl. done.
Qed.

(** ** Python strings *)

Module PyFacts.

Lemma app_cons c s t : String c s +:+ t = String c (s +:+ t).
Proof. reflexivity. Qed.

Lemma app_nil_l s : "" +:+ s = s.
Proof. reflexivity. Qed.

Lemma app_assoc s t u : (s +:+ t) +:+ u = s +:+ t +:+ u.
Proof. induction s as [|c s IH]; [done|]. rewrite !app_cons. by f_equal. Qed.

Lemma length_app s t : String.length (s +:+ t) = String.length s + String.length t.
Proof. induction s as [|c s IH]; [done|]. rewrite app_cons. simpl. by f_equal. Qed.

Lemma prefix_app old b : String.prefix old (old +:+ b) = true.
Proof.
  induction old as [|c old IH]; [by destruct b|].
  rewrite app_cons. simpl. by destruct (ascii_dec c c).
Qed.

Lemma prefix_inv old s : String.prefix old s = true → ∃ b, s = old +:+ b.
Proof.
  revert s. induction old as [|c old IH]; intros s; [by exists s|].
  destruct s as [|c' s]; simpl; [done|].
  destruct (ascii_dec c c') as [<-|]; [|done].
  intros [b ->]%IH. by exists b.
Qed.

Lemma replace_from_skip old new a b :
  Py.replace_from old new (String.length a) (a +:+ b) = Py.replace_from old new 0 b.
Proof. induction a as [|c a IH]; [done|]. rewrite app_cons. simpl. apply IH. Qed.

Lemma replace_from_hit c old new b :
  Py.replace_from (String c old) new 0 (String c old +:+ b)
  = new +:+ Py.replace_from (String c old) new 0 b.
Proof.
  rewrite app_cons. cbn [Py.replace_from].
  rewrite <- (app_cons c old b), prefix_app. f_equal.
  cbn [String.length]. rewrite Nat.sub_1_r. simpl. apply replace_from_skip.
Qed.

Lemma replace_from_miss old new c s :
  String.prefix old (String c s) = false →
  Py.replace_from old new 0 (String c s) = String c (Py.replace_from old new 0 s).
Proof. intros H. cbn [Py.replace_from]. by rewrite H. Qed.

(** One round of the scan: either [old] does not occur, or the scan copies
    the text before the leftmost occurrence, emits [new] and goes on after
    the occurrence. *)
Lemma replace_from_round c old new s :
  ((∀ a b, s ≠ a +:+ String c old +:+ b) ∧
   Py.replace_from (String c old) new 0 s = s)
  ∨ (∃ a b, s = a +:+ String c old +:+ b ∧
       (∀ a' b', s = a' +:+ String c old +:+ b' → String.length a ≤ String.length a') ∧
       Py.replace_from (String c old) new 0 s
         = a +:+ new +:+ Py.replace_from (String c old) new 0 b).
Proof.
  induction s as [|c' s IH].
  { left. split; [|done]. by intros [|??] b. }
  destruct (String.prefix (String c old) (String c' s)) eqn:Hp.
  { apply prefix_inv in Hp as [b Hb]. right. exists "", b. split; [done|].
    split; [simpl; lia|]. rewrite Hb, app_nil_l. apply replace_from_hit. }
  assert (Hhead : ∀ b, String c' s ≠ String c old +:+ b).
  { intros b Hb. by rewrite Hb, prefix_app in Hp. }
  rewrite replace_from_miss by done.
  destruct IH as [[Hno Hr]|(a & b & Hs & Hmin & Hr)].
  - left. split; [|by rewrite Hr].
    intros [|c'' a] b; [apply Hhead|].
    rewrite app_cons. intros [= _ Hs]. by apply (Hno a b).
  - right. exists (String c' a), b. rewrite app_cons. split; [by rewrite Hs|].
    split; [|by rewrite Hr].
    intros [|c'' a'] b'; [intros H; by apply Hhead in H|].
    rewrite app_cons. intros [= _ Hs']. simpl. apply Hmin in Hs'. lia.
Qed.

Lemma replace_from_spec c old new s :
  replaces_every_occurrence (String c old) new s (Py.replace_from (String c old) new 0 s).
Proof.
  remember (String.length s) as n eqn:Hn.
  revert s Hn. induction (lt_wf n) as [n _ IH]. intros s ->.
  destruct (replace_from_round c old new s) as [[Hno ->]|(a & b & -> & Hmin & ->)].
  - by constructor.
  - constructor; [done|]. eapply IH; [|done].
    rewrite !length_app. simpl. lia.
Qed.

(** [s.replace(old, new)] for a non-empty [old] replaces every literal
    occurrence of [old]. *)
Lemma replace_spec old new s :
  old ≠ "" → replaces_every_occurrence old new s (Py.replace old new s).
Proof. destruct old as [|c old]; [done|]. intros _. apply replace_from_spec. Qed.

(** The relation determines the result. *)
Lemma replaces_every_occurrence_unique old new s t1 t2 :
  old ≠ "" →
  replaces_every_occurrence old new s t1 →
  replaces_every_occurrence old new s t2 → t1 = t2.
Proof.
  intros Hold H1. revert t2.
  induction H1 as [s Hno|a b t Hmin H1 IH]; intros t2 H2.
  - inversion H2 as [|a b t Hmin' H' Heq]; [done|]. subst. by destruct (Hno a b).
  - remember (a +:+ old +:+ b) as s eqn:Hs.
    destruct H2 as [s Hno|a' b' t' Hmin' H2]; [by destruct (Hno a b)|].
    assert (String.length a = String.length a') as Hlen.
    { apply Nat.le_antisymm; [by apply (Hmin a' b')|by apply (Hmin' a b)]. }
    assert (a = a' ∧ b = b') as [<- <-].
    { clear -Hs Hlen. revert a' Hs Hlen.
      induction a as [|c a IH]; intros [|c' a'] Hs Hlen; try discriminate.
      - rewrite !app_nil_l in Hs. split; [done|]. by eapply String.app_inj.
      - rewrite !app_cons in Hs. injection Hs as <- Hs. injection Hlen as Hlen.
        destruct (IH _ Hs Hlen) as [<- <-]. done. }
    f_equal. f_equal. by apply IH.
Qed.

End PyFacts.

(** ** Rewriting of mentions *)

Lemma fix_mentions_fold user_handler ids users content :
  Forall2 (λ user_id user, UserHandler.get_user user_id user_handler = Ok user) ids users →
  fix_mentions user_handler content ids =
    Ok (Py.replace "@here" "@**all**"
          (Py.replace "@all" "@**all**"
             (foldl (λ content user,
                       Py.replace ("@" +:+ up_short_name user)
                         ("@**" +:+ up_full_name user +:+ "**") content)
                    content users))).
Proof.
  intros H. unfold fix_mentions.
  revert content. induction H as [|user_id user ids users Hu _ IH]; intros content; simpl.
  - done.
  - rewrite Hu. apply IH.
Qed.

Lemma mentions_rewritten_fold users content :
  mentions_rewritten users content
    (Py.replace "@here" "@**all**"
       (Py.replace "@all" "@**all**"
          (foldl (λ content user,
                    Py.replace ("@" +:+ up_short_name user)
                      ("@**" +:+ up_full_name user +:+ "**") content)
                 content users))).
Proof.
  revert content. induction users as [|user users IH]; intros content; simpl.
  - eapply broadcast_rewritten; by apply PyFacts.replace_spec.
  - eapply user_rewritten; [|apply IH]. by apply PyFacts.replace_spec.
Qed.

Lemma mentions_resolvable_users env raw_message :
  mentions_resolvable env raw_message →
  ∃ users, Forall2 (λ user_id user, UserHandler.get_user user_id (user_handler env) = Ok user)
             (mention_user_ids raw_message) users.
Proof.
  unfold mentions_resolvable. induction 1 as [|user_id ids [user Hu] _ [users IH]].
  - by exists [].
  - exists (user :: users). by constructor.
Qed.

Lemma rewritten_total env raw_message :
  mentions_resolvable env raw_message → ∃ content, rewritten env raw_message = Ok content.
Proof.
  intros [users H]%mentions_resolvable_users. unfold rewritten.
  rewrite (fix_mentions_fold _ _ _ _ H). eauto.
Qed.

(** ** Emission of one converted message *)

Lemma emission_frame_refl st : emission_frame st st.
Proof. by split. Qed.

Lemma emission_frame_trans st1 st2 st3 :
  emission_frame st1 st2 → emission_frame st2 st3 → emission_frame st1 st3.
Proof.
  intros [U1 S1] [U2 S2]. split; congruence.
Qed.

Lemma emission_refl st : emission st st 0 [] [].
Proof.
  split; [lia|exists []; by rewrite app_nil_r|by rewrite app_nil_r|apply emission_frame_refl].
Qed.

Lemma emission_trans st1 st2 st3 n1 n2 ids1 ids2 lines1 lines2 :
  emission st1 st2 n1 ids1 lines1 → emission st2 st3 n2 ids2 lines2 →
  emission st1 st3 (n1 + n2) (ids1 ++ ids2) (lines1 ++ lines2).
Proof.
  intros [C1 (new1 & R1 & F1) L1 Fr1] [C2 (new2 & R2 & F2) L2 Fr2]. split.
  - lia.
  - exists (new1 ++ new2). split; [by rewrite R2, R1, app_assoc|].
    apply Forall_app. split; (eapply Forall_impl; [eassumption|]);
      intros r Hr; apply elem_of_app; auto.
  - by rewrite L2, L1, app_assoc.
  - by eapply emission_frame_trans.
Qed.

Lemma build_reactions_spec env reactions message_id st :
  ∃ st', build_reactions env reactions message_id st = Ok (tt, st') ∧
         files st' = files st ∧
         emission st st' 0 [message_id] [].
Proof.
  unfold build_reactions. revert st.
  induction reactions as [|reaction reactions IH]; intros st; simpl.
  { eexists. split; [done|]. split; [done|]. split; [lia|exists []; by rewrite app_nil_r|
      by rewrite app_nil_r|apply emission_frame_refl]. }
  destruct (name_to_codepoint env !! reaction.1) as [emoji_code|].
  - erewrite bind_Ok; [|reflexivity].
    match goal with |- context [fold_for _ reactions tt ?s] =>
      destruct (IH s) as (st' & Hb & Hf & [C (new & R & F) L [U S]]) end.
    rewrite Hb. simpl in *. eexists. split; [done|]. split; [done|]. split.
    + unfold message_counter in *. simpl in C.
      by rewrite lookup_insert_ne in C.
    + eexists (_ :: new). split; [by rewrite R, <- app_assoc|].
      constructor; [simpl; by left|done].
    + by rewrite L.
    + by split.
  - rewrite bind_ret_l. apply IH.
Qed.

Lemma process_raw_message_spec env acc raw_message st :
  mentions_resolvable env raw_message →
  ∃ acc' st',
    process_raw_message env acc raw_message st = Ok (acc', st') ∧
    acc_zerver_message acc' =
      acc_zerver_message acc ++ emitted env (message_counter st) raw_message ∧
    files st' = files st ∧
    emission st st' 1 (batch_ids env (message_counter st) [raw_message])
      (skip_log env [raw_message]).
Proof.
  intros [content Hc]%rewritten_total.
  unfold process_raw_message, emitted. simpl. unfold too_long. rewrite Hc.
  unfold bind at 1. unfold NEXT_ID at 1. fold (message_counter st).
  unfold rewritten in Hc. unfold bind at 1. rewrite Hc. simpl.
  destruct (10000 <? Py.len content)%Z.
  - unfold bind, logging_info, ret. simpl. eexists _, _. split; [done|]. simpl.
    split; [by rewrite app_nil_r|]. split; [done|]. split; simpl.
    + unfold message_counter at 1. simpl. rewrite lookup_insert_eq. simpl. lia.
    + exists []. by rewrite app_nil_r.
    + done.
    + by split.
  - match goal with |- context [build_reactions env ?rs ?id] =>
      match goal with |- context [bind (build_reactions env rs id) _ ?s] =>
        destruct (build_reactions_spec env rs id s)
          as (st' & Hb & Hf & [C (new & R & F) L [U S]]) end end.
    rewrite bind_Ok with (1 := Hb). unfold ret. eexists _, _. split; [done|]. simpl.
    split; [done|]. simpl in *. split; [done|]. split; simpl.
    + rewrite C. unfold message_counter at 1. simpl. rewrite lookup_insert_eq. simpl. lia.
    + by exists new.
    + by rewrite L.
    + by split.
Qed.

(** ** Emission of a batch *)

Lemma batch_ids_app env next l1 l2 :
  batch_ids env next (l1 ++ l2) =
  batch_ids env next l1 ++ batch_ids env (next + length l1) l2.
Proof.
  revert next. induction l1 as [|raw l1 IH]; intros next; simpl.
  - by rewrite Nat.add_0_r.
  - rewrite IH, <- app_assoc. do 3 f_equal. lia.
Qed.

Lemma skip_log_app env l1 l2 : skip_log env (l1 ++ l2) = skip_log env l1 ++ skip_log env l2.
Proof. induction l1 as [|raw l1 IH]; simpl; [done|]. by rewrite IH, app_assoc. Qed.

Lemma batch_messages_ids env next raw_messages :
  Forall (mentions_resolvable env) raw_messages →
  msg_id <$> batch_messages env next raw_messages = batch_ids env next raw_messages.
Proof.
  intros H. revert next.
  induction H as [|raw rest [content Hc]%rewritten_total _ IH]; intros next; simpl; [done|].
  rewrite fmap_app, IH. f_equal. unfold emitted, too_long. rewrite Hc.
  by destruct (10000 <? Py.len content)%Z.
Qed.

(** The ids of a batch are taken, in order, from the ids the batch
    consumes. *)
Lemma batch_ids_sublist env next raw_messages :
  batch_ids env next raw_messages `sublist_of` seq next (length raw_messages).
Proof.
  revert next. induction raw_messages as [|raw rest IH]; intros next; simpl; [done|].
  destruct (too_long env raw); simpl.
  - by apply sublist_cons.
  - by apply sublist_skip.
Qed.

Lemma batch_ids_bounds env next raw_messages id :
  id ∈ batch_ids env next raw_messages → next ≤ id < next + length raw_messages.
Proof.
  intros Hin. eapply elem_of_sublist in Hin; [|apply batch_ids_sublist].
  apply elem_of_seq in Hin. lia.
Qed.

Lemma batch_ids_NoDup env next raw_messages : NoDup (batch_ids env next raw_messages).
Proof. eapply sublist_NoDup; [apply NoDup_seq|apply batch_ids_sublist]. Qed.

Lemma batch_ids_length env next raw_messages :
  length (batch_ids env next raw_messages) + length (filter (λ raw, too_long env raw = true) raw_messages)
  = length raw_messages.
Proof.
  revert next. induction raw_messages as [|raw rest IH]; intros next; simpl; [done|].
  rewrite filter_cons. specialize (IH (S next)).
  destruct (too_long env raw); simpl; lia.
Qed.

(** No message is dropped exactly when every consumed id is emitted. *)
Lemma batch_ids_all env next raw_messages :
  batch_ids env next raw_messages = seq next (length raw_messages)
  ↔ Forall (λ raw, too_long env raw = false) raw_messages.
Proof.
  split.
  - intros Heq. pose proof (batch_ids_length env next raw_messages) as Hlen.
    rewrite Heq, length_seq in Hlen.
    assert (Hnil : filter (λ raw, too_long env raw = true) raw_messages = []).
    { apply length_zero_iff_nil. lia. }
    apply Forall_forall. intros raw Hin.
    destruct (too_long env raw) eqn:Ht; [|done].
    assert (raw ∈ filter (λ raw, too_long env raw = true) raw_messages)
      by (by apply list_elem_of_filter).
    rewrite Hnil in *. by apply elem_of_nil in H.
  - intros H. revert next. induction H as [|raw rest Hraw _ IH]; intros next; simpl; [done|].
    by rewrite Hraw, IH.
Qed.

Lemma batch_loop_spec env raw_messages :
  Forall (mentions_resolvable env) raw_messages →
  ∀ acc st, ∃ acc' st',
    fold_for (process_raw_message env) raw_messages acc st = Ok (acc', st') ∧
    acc_zerver_message acc' =
      acc_zerver_message acc ++ batch_messages env (message_counter st) raw_messages ∧
    files st' = files st ∧
    emission st st' (length raw_messages)
      (batch_ids env (message_counter st) raw_messages) (skip_log env raw_messages).
Proof.
  induction 1 as [|raw rest Hraw _ IH]; intros acc st; simpl.
  { eexists _, _. split; [done|]. rewrite app_nil_r. split_and!; [done..|apply emission_refl]. }
  destruct (process_raw_message_spec env acc raw st Hraw) as (acc1 & st1 & H1 & Hm1 & Hf1 & E1).
  rewrite bind_Ok with (1 := H1).
  destruct (IH acc1 st1) as (acc' & st' & H2 & Hm2 & Hf2 & E2).
  exists acc', st'. split; [done|].
  assert (Hc : message_counter st1 = S (message_counter st)).
  { rewrite (em_counter _ _ _ _ _ E1). lia. }
  rewrite Hc in *. split_and!.
  - by rewrite Hm2, Hm1, <- app_assoc.
  - congruence.
  - simpl in E1. rewrite app_nil_r in E1.
    pose proof (emission_trans _ _ _ _ _ _ _ _ _ E1 E2) as E.
    by rewrite app_nil_r in E.
Qed.

Lemma dump_counter_not_message suffix : "dump_file_id" +:+ suffix ≠ "message".
Proof. discriminate. Qed.

Lemma process_raw_message_batch_spec env raw_messages is_pm_data st :
  Forall (mentions_resolvable env) raw_messages →
  ∃ st' file,
    process_raw_message_batch env raw_messages is_pm_data st = Ok (tt, st') ∧
    files st' = files st ++ [file] ∧
    zerver_message file.2 = batch_messages env (message_counter st) raw_messages ∧
    emission st st' (length raw_messages)
      (batch_ids env (message_counter st) raw_messages) (skip_log env raw_messages).
Proof.
  intros Hres. unfold process_raw_message_batch.
  destruct (batch_loop_spec env raw_messages Hres
              {| mention_map := ∅; acc_zerver_message := [] |} st)
    as (acc & st1 & Hloop & Hm & Hf & [C R L [U S]]).
  rewrite bind_Ok with (1 := Hloop). simpl in Hm.
  erewrite bind_Ok; [|reflexivity].
  unfold create_converted_data_files. simpl.
  eexists _, _. split; [done|]. simpl. split_and!.
  - by rewrite Hf.
  - done.
  - split; simpl; [|done..|by split].
    rewrite <- C. unfold message_counter. simpl.
    rewrite lookup_insert_ne; [done|]. apply dump_counter_not_message.
Qed.

(** ** Chunks *)

Lemma batches_from_chunks {A} fuel (lst : list A) chunk_size process_batch offset st :
  batches_from fuel lst chunk_size process_batch offset st =
  fold_for (λ _ items, process_batch items) (chunks_from fuel lst chunk_size offset) tt st.
Proof.
  revert offset st. induction fuel as [|fuel IH]; intros offset st; simpl; [done|].
  destruct (take chunk_size (drop offset lst)) as [|x items]; [done|].
  simpl. apply bind_ext. intros [] st'. apply IH.
Qed.

Lemma chunks_from_concat {A} fuel (lst : list A) chunk_size offset :
  0 < chunk_size → length lst < offset + fuel →
  concat (chunks_from fuel lst chunk_size offset) = drop offset lst.
Proof.
  intros Hpos. revert offset. induction fuel as [|fuel IH]; intros offset Hfuel; simpl.
  { rewrite drop_ge; [done|lia]. }
  destruct (take chunk_size (drop offset lst)) as [|x items] eqn:Htake.
  - apply (f_equal length) in Htake. rewrite length_take, length_drop in Htake.
    simpl in Htake. rewrite drop_ge; [done|lia].
  - cbn [concat]. rewrite IH by lia. rewrite <- Htake.
    rewrite <- drop_drop. apply take_drop.
Qed.

Lemma chunks_from_lengths {A} fuel (lst : list A) chunk_size offset :
  length <$> chunks_from fuel lst chunk_size offset
  = chunk_sizes fuel chunk_size (length lst - offset).
Proof.
  revert offset. induction fuel as [|fuel IH]; intros offset; simpl; [done|].
  destruct (take chunk_size (drop offset lst)) as [|x items] eqn:Htake.
  - apply (f_equal length) in Htake. rewrite length_take, length_drop in Htake.
    simpl in Htake. by rewrite decide_True.
  - pose proof (f_equal length Htake) as Hlen.
    rewrite length_take, length_drop in Hlen. simpl in Hlen.
    rewrite decide_False by lia. rewrite fmap_cons, IH. simpl. f_equal; [lia|].
    f_equal. lia.
Qed.

Lemma chunks_from_resolvable env fuel raw_messages chunk_size offset :
  Forall (mentions_resolvable env) raw_messages →
  Forall (Forall (mentions_resolvable env)) (chunks_from fuel raw_messages chunk_size offset).
Proof.
  intros H. revert offset. induction fuel as [|fuel IH]; intros offset; simpl; [done|].
  destruct (take chunk_size (drop offset raw_messages)) as [|x items] eqn:Htake; [done|].
  constructor; [|apply IH]. rewrite <- Htake. by apply Forall_take, Forall_drop.
Qed.

Lemma files_ids_concat env next chunks :
  concat (files_ids env next chunks) = batch_ids env next (concat chunks).
Proof.
  revert next. induction chunks as [|chunk chunks IH]; intros next; simpl; [done|].
  by rewrite batch_ids_app, IH.
Qed.

Lemma skip_log_concat env chunks :
  skip_log env (concat chunks) = concat (skip_log env <$> chunks).
Proof.
  induction chunks as [|chunk chunks IH]; simpl; [done|]. by rewrite skip_log_app, IH.
Qed.

Lemma batch_messages_app env next l1 l2 :
  batch_messages env next (l1 ++ l2) =
  batch_messages env next l1 ++ batch_messages env (next + length l1) l2.
Proof.
  revert next. induction l1 as [|raw l1 IH]; intros next; simpl.
  - by rewrite Nat.add_0_r.
  - rewrite IH, <- app_assoc. do 3 f_equal. lia.
Qed.

Lemma files_messages_concat env next chunks :
  concat (files_messages env next chunks) = batch_messages env next (concat chunks).
Proof.
  revert next. induction chunks as [|chunk chunks IH]; intros next; simpl; [done|].
  by rewrite batch_messages_app, IH.
Qed.

Lemma files_messages_ids env next chunks :
  Forall (Forall (mentions_resolvable env)) chunks →
  fmap (M:=list) msg_id <$> files_messages env next chunks = files_ids env next chunks.
Proof.
  intros H. revert next. induction H as [|chunk chunks Hc _ IH]; intros next; simpl; [done|].
  by rewrite batch_messages_ids, IH.
Qed.

(** What the emission of a list of chunks does: one file per chunk, in
    order, the ids running on from chunk to chunk. *)
Lemma emit_chunks_spec env process_batch chunks :
  emits_batch env process_batch →
  Forall (Forall (mentions_resolvable env)) chunks →
  ∀ st, ∃ st' new_files,
    fold_for (λ _ items, process_batch items) chunks tt st = Ok (tt, st') ∧
    files st' = files st ++ new_files ∧
    (λ file, zerver_message file.2) <$> new_files
      = files_messages env (message_counter st) chunks ∧
    emission st st' (length (concat chunks))
      (batch_ids env (message_counter st) (concat chunks)) (skip_log env (concat chunks)).
Proof.
  intros Hbatch.
  induction 1 as [|chunk chunks Hchunk _ IH]; intros st; simpl.
  { exists st, []. rewrite app_nil_r. split_and!; [done..|apply emission_refl]. }
  destruct (Hbatch chunk st Hchunk) as (st1 & file & H1 & Hf1 & Hm1 & E1).
  rewrite bind_Ok with (1 := H1).
  destruct (IH st1) as (st' & new_files & H2 & Hf2 & Hi2 & E2).
  exists st', (file :: new_files). split; [done|].
  rewrite (em_counter _ _ _ _ _ E1) in Hi2, E2. split_and!.
  - by rewrite Hf2, Hf1, <- app_assoc.
  - by rewrite fmap_cons, Hi2, Hm1.
  - rewrite length_app, batch_ids_app, skip_log_app.
    by eapply emission_trans.
Qed.

Lemma process_raw_message_batch_emits env is_pm_data :
  emits_batch env (λ lst, process_raw_message_batch env lst is_pm_data).
Proof. intros chunk st H. by apply process_raw_message_batch_spec. Qed.

(** The whole of [process_list_in_batches] over the converted messages. *)
Lemma emit_run_spec env process_batch raw_messages n st :
  emits_batch env process_batch →
  0 < n →
  Forall (mentions_resolvable env) raw_messages →
  ∃ st' new_files,
    process_list_in_batches raw_messages n process_batch st = Ok (tt, st') ∧
    files st' = files st ++ new_files ∧
    (λ file, zerver_message file.2) <$> new_files
      = files_messages env (message_counter st)
          (chunks_from (S (length raw_messages)) raw_messages n 0) ∧
    concat ((λ file, zerver_message file.2) <$> new_files)
      = batch_messages env (message_counter st) raw_messages ∧
    concat (file_ids <$> new_files) = batch_ids env (message_counter st) raw_messages ∧
    emission st st' (length raw_messages)
      (batch_ids env (message_counter st) raw_messages) (skip_log env raw_messages).
Proof.
  intros Hbatch Hn Hres. unfold process_list_in_batches.
  rewrite batches_from_chunks.
  pose proof (chunks_from_resolvable env (S (length raw_messages)) _ n 0 Hres) as Hchunks.
  destruct (emit_chunks_spec env process_batch _ Hbatch Hchunks st)
    as (st' & new_files & H & Hf & Hm & E).
  assert (Hcat : concat (chunks_from (S (length raw_messages)) raw_messages n 0)
                 = raw_messages).
  { rewrite chunks_from_concat by lia. apply drop_0. }
  rewrite Hcat in E. exists st', new_files. split_and!; [done..| | |done].
  - by rewrite Hm, files_messages_concat, Hcat.
  - assert (file_ids <$> new_files
            = fmap (M:=list) msg_id <$> ((λ file, zerver_message file.2) <$> new_files)) as ->
      by (by rewrite <- list_fmap_compose).
    rewrite Hm, files_messages_ids by done. by rewrite files_ids_concat, Hcat.
Qed.

(** The i-th converted message owns the id [next + i], and that id is
    emitted exactly when the message is not dropped for its length. *)
Lemma batch_ids_lookup env next raw_messages i raw :
  raw_messages !! i = Some raw →
  next + i ∈ batch_ids env next raw_messages ↔ too_long env raw = false.
Proof.
  intros Hi. pose proof (lookup_lt_Some _ _ _ Hi) as Hlt.
  rewrite <- (take_drop_middle _ _ _ Hi), batch_ids_app.
  rewrite length_take, Nat.min_l by lia. simpl.
  rewrite !elem_of_app. split.
  - intros [Hin|[Hin|Hin]].
    + apply batch_ids_bounds in Hin. rewrite length_take in Hin. lia.
    + by destruct (too_long env raw); [apply elem_of_nil in Hin|].
    + apply batch_ids_bounds in Hin. lia.
  - intros ->. right. left. by left.
Qed.

(** ** Conversion consults the id mappers and nothing else *)

Lemma same_outputs_refl st : same_outputs st st.
Proof. by repeat split. Qed.

Lemma same_outputs_trans st1 st2 st3 :
  same_outputs st1 st2 → same_outputs st2 st3 → same_outputs st1 st3.
Proof. intros (? & ? & ? & ?) (? & ? & ? & ?). repeat split; congruence. Qed.

Lemma user_gets_outputs st st' : user_gets st st' → same_outputs st st'.
Proof. intros [keys ->]. by repeat split. Qed.

Lemma user_id_mapper_get_outputs k st v st' :
  user_id_mapper_get k st = Ok (v, st') → same_outputs st st'.
Proof.
  rewrite user_id_mapper_get_spec. intros [= _ <-]. by repeat split.
Qed.

Lemma stream_id_mapper_get_outputs k st v st' :
  stream_id_mapper_get k st = Ok (v, st') → same_outputs st st'.
Proof.
  unfold stream_id_mapper_get. destruct (IdMapper.get k (stream_id_mapper st)).
  intros [= _ <-]. by repeat split.
Qed.

Lemma message_to_dict_outputs env is_pm_data message st raw st' :
  message_to_dict env is_pm_data message st = Ok (raw, st') → same_outputs st st'.
Proof.
  unfold message_to_dict. intros H.
  apply bind_inv in H as (sender_id & st1 & H1 & H).
  apply user_id_mapper_get_outputs in H1.
  apply bind_inv in H as (rs & st2 & H2 & H).
  apply list_reactions_frame, user_gets_outputs in H2.
  apply bind_inv in H as (routed & st3 & H3 & H).
  apply bind_inv in H as (ids & st4 & H4 & H).
  apply collect_mentions_frame, user_gets_outputs in H4.
  injection H as _ <-.
  assert (same_outputs st2 st3) as H23; [|by repeat (eapply same_outputs_trans; [eassumption|])].
  clear -H3. destruct is_pm_data.
  - apply bind_inv in H3 as (rid & s1 & E1 & H3). apply field_inv in E1 as [_ ->].
    apply bind_inv in H3 as (direct & s2 & E2 & H3). apply subscript_inv in E2 as [_ ->].
    apply bind_inv in H3 as (uids & s3 & E3 & H3). apply field_inv in E3 as [_ ->].
    apply bind_inv in H3 as (member_0 & s4 & E4 & H3). apply index_inv in E4 as [_ ->].
    apply bind_inv in H3 as (recipient & s5 & E5 & H3). injection H3 as _ <-.
    destruct (decide (m_sender message = member_0)).
    + apply bind_inv in E5 as (member_1 & s6 & E6 & E5). apply index_inv in E6 as [_ ->].
      apply bind_inv in E5 as (zid & s7 & E7 & E5). apply subscript_inv in E5 as [_ ->].
      by eapply user_id_mapper_get_outputs.
    + apply bind_inv in E5 as (zid & s7 & E7 & E5). apply subscript_inv in E5 as [_ ->].
      by eapply user_id_mapper_get_outputs.
  - apply bind_inv in H3 as (rid & s1 & E1 & H3). apply field_inv in E1 as [_ ->].
    destruct (dsc_id_to_dsc_map (channel_maps env) !! rid) as [dsc_channel|].
    + apply bind_inv in H3 as (prid & s2 & E2 & H3). apply field_inv in E2 as [_ ->].
      apply bind_inv in H3 as (sid & s3 & E3 & H3).
      apply bind_inv in H3 as (recipient & s4 & E4 & H3). apply subscript_inv in E4 as [_ ->].
      apply bind_inv in H3 as (fname & s5 & E5 & H3). apply field_inv in E5 as [_ ->].
      injection H3 as _ <-. by eapply stream_id_mapper_get_outputs.
    + apply bind_inv in H3 as (sid & s3 & E3 & H3).
      apply bind_inv in H3 as (recipient & s4 & E4 & H3). apply subscript_inv in E4 as [_ ->].
      injection H3 as _ <-. by eapply stream_id_mapper_get_outputs.
Qed.

Lemma convert_messages_outputs env is_pm_data messages st raw_messages st' :
  convert_messages env is_pm_data messages st = Ok (raw_messages, st') →
  same_outputs st st'.
Proof.
  unfold convert_messages.
  apply (fold_for_frame same_outputs); [apply same_outputs_refl|apply same_outputs_trans|].
  intros acc message st0 acc' st0'. destruct (m_t message).
  - intros [= _ <-]. apply same_outputs_refl.
  - intros H. apply bind_inv in H as (raw & st1 & H1 & H). injection H as _ <-.
    by eapply message_to_dict_outputs.
Qed.

Lemma chunk_sizes_2500 : chunk_sizes 2501 chunk_size 2500 = [1000; 1000; 500].
Proof. vm_compute. reflexivity. Qed.

Lemma emitted_length env next chunk :
  Forall (mentions_resolvable env) chunk →
  Forall (λ raw, too_long env raw = false) chunk →
  length (batch_messages env next chunk) = length chunk.
Proof.
  intros Hres Hshort.
  rewrite <- (length_fmap msg_id), batch_messages_ids by done.
  apply (batch_ids_all env next) in Hshort. by rewrite Hshort, length_seq.
Qed.

(** C1, as the code has it.  When the conversion yields 2500 records whose
    mentions resolve, [process_messages] adds exactly three files to the
    files written and the message ids in them are pairwise distinct; when
    moreover no record is dropped for its length, the files hold 1000, 1000
    and 500 messages and their ids, read in order, are the 2500 consecutive
    integers from the value of the message counter.  The records, and with
    them the bodies whose length is tested, are those of the order in which
    the run iterates over its sets of mentioned users, whatever that order
    is. *)
Theorem batch_emission_of_2500 env is_pm_data messages raw_messages st st1 :
  convert_messages env is_pm_data messages st = Ok (raw_messages, st1) →
  length raw_messages = 2500 →
  Forall (mentions_resolvable env) raw_messages →
  ∃ st' f1 f2 f3,
    process_messages env is_pm_data messages st = Ok (tt, st') ∧
    files st' = files st ++ [f1; f2; f3] ∧
    NoDup (file_ids f1 ++ file_ids f2 ++ file_ids f3) ∧
    (Forall (λ raw, too_long env raw = false) raw_messages →
       length (zerver_message f1.2) = 1000 ∧
       length (zerver_message f2.2) = 1000 ∧
       length (zerver_message f3.2) = 500 ∧
       file_ids f1 ++ file_ids f2 ++ file_ids f3 = seq (message_counter st) 2500).
Proof.
  intros Hconv Hlen Hres. unfold process_messages.
  rewrite bind_Ok with (1 := Hconv).
  destruct (convert_messages_outputs _ _ _ _ _ _ Hconv) as (Hcounters & _ & Hfiles0 & _).
  assert (Hcounter0 : message_counter st1 = message_counter st)
    by (unfold message_counter; by rewrite Hcounters).
  rewrite <- Hfiles0, <- Hcounter0.
  destruct (emit_run_spec env (λ lst, process_raw_message_batch env lst is_pm_data)
              raw_messages chunk_size st1 (process_raw_message_batch_emits env is_pm_data))
    as (st' & new_files & Hrun & Hfiles & Hmsgs & _ & Hids & _);
    [unfold chunk_size; lia|done|].
  pose proof (chunks_from_lengths (S (length raw_messages)) raw_messages chunk_size 0) as Hsizes.
  pose proof (chunks_from_resolvable env (S (length raw_messages)) _ chunk_size 0 Hres) as Hcres.
  assert (Hcat : concat (chunks_from (S (length raw_messages)) raw_messages chunk_size 0)
                 = raw_messages).
  { rewrite chunks_from_concat; [apply drop_0|unfold chunk_size; lia|lia]. }
  remember (chunks_from (S (length raw_messages)) raw_messages chunk_size 0)
    as chunks eqn:Hchunks in *. clear Hchunks.
  rewrite Nat.sub_0_r, Hlen, chunk_sizes_2500 in Hsizes.
  destruct chunks as [|c1 [|c2 [|c3 [|c4 chunks]]]];
    cbn [fmap list_fmap] in Hsizes; try discriminate Hsizes.
  injection Hsizes as L1 L2 L3.
  destruct new_files as [|f1 [|f2 [|f3 [|f4 new_files]]]];
    cbn [fmap list_fmap files_messages] in Hmsgs; try discriminate Hmsgs.
  injection Hmsgs as M1 M2 M3.
  exists st', f1, f2, f3. split; [done|]. split; [done|].
  cbn [fmap list_fmap concat] in Hids. rewrite app_nil_r in Hids. split.
  - rewrite Hids. apply batch_ids_NoDup.
  - intros Hshort. cbn [concat] in Hcat. rewrite app_nil_r in Hcat.
    apply Forall_cons in Hcres as [R1 Hcres]. apply Forall_cons in Hcres as [R2 Hcres].
    apply Forall_cons in Hcres as [R3 _].
    rewrite <- Hcat in Hshort.
    apply Forall_app in Hshort as [S1 Hshort]. apply Forall_app in Hshort as [S2 S3].
    rewrite M1, M2, M3, !emitted_length by done. split_and!; [done..|].
    rewrite Hids, (proj2 (batch_ids_all env _ raw_messages)); [by rewrite Hlen|].
    rewrite <- Hcat. by repeat (apply Forall_app; split).
Qed.

(** ** Messages dropped for their length *)

Lemma batch_messages_short env next raw_messages message :
  message ∈ batch_messages env next raw_messages →
  (Py.len (msg_content message) ≤ 10000)%Z.
Proof.
  revert next. induction raw_messages as [|raw rest IH]; intros next; simpl.
  { by intros ?%elem_of_nil. }
  intros [Hin|Hin]%elem_of_app; [|by eapply IH].
  unfold emitted in Hin. destruct (rewritten env raw) as [content|];
    [|by apply elem_of_nil in Hin].
  destruct (10000 <? Py.len content)%Z eqn:Hlen; [by apply elem_of_nil in Hin|].
  apply list_elem_of_singleton in Hin as ->. simpl. lia.
Qed.

Lemma skip_log_lookup env raw_messages i raw content :
  raw_messages !! i = Some raw →
  rewritten env raw = Ok content →
  (10000 < Py.len content)%Z →
  ∃ before after,
    skip_log env raw_messages =
      before ++ ["skipping too-long message of length " +:+ pretty (Py.len content)] ++ after.
Proof.
  intros Hi Hc Hlen. rewrite <- (take_drop_middle _ _ _ Hi), skip_log_app.
  exists (skip_log env (take i raw_messages)), (skip_log env (drop (S i) raw_messages)).
  f_equal. simpl. rewrite Hc.
  by destruct (Z.ltb_spec 10000 (Py.len content)); [|lia].
Qed.

Lemma elem_of_concat {A} (x : A) (ls : list (list A)) :
  x ∈ concat ls ↔ ∃ l, x ∈ l ∧ l ∈ ls.
Proof.
  induction ls as [|l ls IH]; simpl.
  - split; [by intros ?%elem_of_nil|]. by intros (l & _ & ?%elem_of_nil).
  - rewrite elem_of_app, IH. split.
    + intros [?|(l' & ? & ?)]; [exists l; split; [done|by left]|].
      exists l'. split; [done|by right].
    + intros (l' & Hx & [->|?]%elem_of_cons); [by left|right; eauto].
Qed.

Lemma in_written_files (new_files : list (string * MessageJson)) id :
  id ∈ concat (file_ids <$> new_files) ↔
  ∃ file message, file ∈ new_files ∧ message ∈ zerver_message file.2 ∧ msg_id message = id.
Proof.
  rewrite elem_of_concat. split.
  - intros (ids & Hid & (file & -> & Hfile)%list_elem_of_fmap).
    unfold file_ids in Hid. apply list_elem_of_fmap in Hid as (message & -> & Hm). eauto.
  - intros (file & message & Hfile & Hm & <-). exists (file_ids file). split.
    + unfold file_ids. apply list_elem_of_fmap. eauto.
    + apply list_elem_of_fmap. eauto.
Qed.

(** C6.  A converted message whose rewritten body is longer than 10000 is
    dropped and the run goes on: [process_list_in_batches] returns normally;
    no written file holds a message with the id the dropped message
    consumed, nor any message over the ceiling; no reaction is recorded for
    that id; the log has the line that reports the drop; and every message
    of the run that is within the ceiling, before or after the dropped one,
    is emitted under its own id. *)
Theorem too_long_message_is_dropped env is_pm_data raw_messages st i raw content :
  Forall (mentions_resolvable env) raw_messages →
  raw_messages !! i = Some raw →
  rewritten env raw = Ok content →
  (10000 < Py.len content)%Z →
  ∃ st' new_files,
    process_list_in_batches raw_messages chunk_size
      (λ lst, process_raw_message_batch env lst is_pm_data) st = Ok (tt, st') ∧
    files st' = files st ++ new_files ∧
    (∀ file message, file ∈ new_files → message ∈ zerver_message file.2 →
       msg_id message ≠ message_counter st + i ∧
       (Py.len (msg_content message) ≤ 10000)%Z) ∧
    (∃ new, total_reactions st' = total_reactions st ++ new ∧
            Forall (λ r, r_message r ≠ message_counter st + i) new) ∧
    (∃ before after,
       log st' = log st ++ before ++
         ["skipping too-long message of length " +:+ pretty (Py.len content)] ++ after) ∧
    (∀ j raw', raw_messages !! j = Some raw' → too_long env raw' = false →
       ∃ file message, file ∈ new_files ∧ message ∈ zerver_message file.2 ∧
                       msg_id message = message_counter st + j).
Proof.
  intros Hres Hi Hc Hlen.
  destruct (emit_run_spec env (λ lst, process_raw_message_batch env lst is_pm_data)
              raw_messages chunk_size st (process_raw_message_batch_emits env is_pm_data))
    as (st' & new_files & Hrun & Hfiles & _ & Hmsgs & Hids & [C (new & R & F) L _]);
    [unfold chunk_size; lia|done|].
  assert (Hlong : too_long env raw = true).
  { unfold too_long. rewrite Hc. by apply Z.ltb_lt. }
  assert (Hnot : message_counter st + i ∉ batch_ids env (message_counter st) raw_messages).
  { rewrite (batch_ids_lookup _ _ _ _ _ Hi), Hlong. discriminate. }
  exists st', new_files. split_and!; [done..| | | |].
  - intros file message Hfile Hm. split.
    + intros Hid. apply Hnot. rewrite <- Hids. apply in_written_files. eauto.
    + apply (batch_messages_short env (message_counter st) raw_messages).
      rewrite <- Hmsgs. apply elem_of_concat. eexists. split; [exact Hm|].
      apply list_elem_of_fmap. eauto.
  - exists new. split; [done|]. eapply Forall_impl; [exact F|].
    intros r Hr Heq. apply Hnot. by rewrite <- Heq.
  - destruct (skip_log_lookup _ _ _ _ _ Hi Hc Hlen) as (before & after & Hlog).
    exists before, after. by rewrite L, Hlog.
  - intros j raw' Hj Hshort. apply in_written_files. rewrite Hids.
    by apply (batch_ids_lookup _ _ _ _ _ Hj).
Qed.

(** ** The batch function of rocketchat1.py *)














(** C5.  For every converted message whose mentioned users are known to the
    user handler, [fix_mentions] returns the body in which, for each
    mentioned user in turn, every literal occurrence of ["@"] followed by
    the short name has been replaced with ["@**"], the full name and
    ["**"], then every occurrence of ["@all"], then every occurrence of
    ["@here"], with ["@**all**"]; and the loop of
    [process_raw_message_batch] compares the length of that rewritten body,
    not of the original one, with the ceiling: the message is emitted with
    the rewritten body when it is within 10000, and not emitted otherwise. *)
Theorem mentions_are_rewritten_before_the_ceiling env acc raw_message users st :
  Forall2 (λ user_id user, UserHandler.get_user user_id (user_handler env) = Ok user)
    (mention_user_ids raw_message) users →
  ∃ body,
    fix_mentions (user_handler env) (content raw_message) (mention_user_ids raw_message)
      = Ok body ∧
    mentions_rewritten users (content raw_message) body ∧
    ∃ acc' st',
      process_raw_message env acc raw_message st = Ok (acc', st') ∧
      acc_zerver_message acc' =
        acc_zerver_message acc ++
        if (10000 <? Py.len body)%Z then []
        else [build_message body (message_counter st) (date_sent raw_message)
                (recipient_id raw_message) None (topic_name raw_message)
                (sender_id raw_message) false].
Proof.
  intros Husers. eexists. split; [by apply fix_mentions_fold|].
  split; [apply mentions_rewritten_fold|].
  assert (Hres : mentions_resolvable env raw_message).
  { unfold mentions_resolvable. clear -Husers.
    induction Husers; constructor; eauto. }
  destruct (process_raw_message_spec env acc raw_message st Hres)
    as (acc' & st' & H & Hm & _).
  exists acc', st'. split; [done|]. rewrite Hm. unfold emitted, rewritten.
  by rewrite (fix_mentions_fold _ _ _ _ Husers).
Qed.

(** ** The two variants *)

Lemma list_reactions_known env st message reactions_list st' :
  reactions_known env st message →
  list_reactions env (m_reactions message) st = Ok (reactions_list, st') →
  st' = st.
Proof.
  unfold reactions_known, list_reactions. intros Hknown.
  match goal with |- fold_for ?body _ [] _ = _ → _ =>
    enough (∀ acc, fold_for body (m_reactions message) acc st = Ok (reactions_list, st')
                   → st' = st) by eauto end.
  induction Hknown as [|entry rest Hentry _ IH]; intros acc; cbn [fold_for].
  { by intros [= _ <-]. }
  intros H. apply bind_inv in H as (acc1 & st1 & H1 & H2).
  assert (st1 = st) as ->; [|by eapply IH].
  clear -Hentry H1. apply bind_inv in H1 as (name & st0 & Hn & H1).
  apply index_inv in Hn as [_ ->]. revert acc H1.
  induction Hentry as [|username usernames Hu _ IH]; intros acc; cbn [fold_for].
  { by intros [= _ <-]. }
  intros H. apply bind_inv in H as (acc2 & st2 & H2 & H3).
  assert (st2 = st) as ->; [|by eapply IH].
  clear -Hu H2. apply bind_inv in H2 as (rc_user_id & st0 & Hs & H2).
  apply subscript_inv in Hs as [Hs ->]. destruct (Hu _ Hs) as [user_id Hknown].
  rewrite bind_Ok with (1 := user_id_mapper_get_spec _ _) in H2.
  injection H2 as _ <-. rewrite (IdMapperFacts.get_known _ _ _ Hknown). simpl.
  apply with_user_id_mapper_id.
Qed.

Lemma reactions_known_preserved env st st' message :
  user_gets st st' → reactions_known env st message → reactions_known env st' message.
Proof.
  intros Hgets. unfold reactions_known. intros Hk.
  eapply Forall_impl; [exact Hk|]. intros entry He.
  eapply Forall_impl; [exact He|]. intros username H rc_user_id Hu. simpl in *.
  destruct (H _ Hu) as [v Hv]. exists v. by eapply user_gets_known.
Qed.

(** The routing step of the two variants: same state, same recipient; the
    topics agree for a discussion, and are the fixed strings of each variant
    otherwise. *)
Lemma routes_agree env (is_pm_data : bool) message (st : State) r t st' :
  ((if is_pm_data then
     let* direct_channel_id := field (m_rid message) "rid" in
     let* direct := subscript (direct_id_to_direct_map (channel_maps env))
                      direct_channel_id direct_channel_id in
     let* rc_member_ids := field (ch_uids direct) "uids" in
     let* member_0 := index rc_member_ids 0 in
     let* recipient_id :=
       if decide (m_sender message = member_0) then
         let* member_1 := index rc_member_ids 1 in
         let* zulip_member_id := user_id_mapper_get member_1 in
         subscript (user_id_to_recipient_id env) zulip_member_id (Py.str zulip_member_id)
       else
         let* zulip_member_id := user_id_mapper_get member_0 in
         subscript (user_id_to_recipient_id env) zulip_member_id (Py.str zulip_member_id) in
     ret (recipient_id, "")
   else
     let* rid := field (m_rid message) "rid" in
     match dsc_id_to_dsc_map (channel_maps env) !! rid with
     | Some dsc_channel =>
         let* parent_channel_id := field (ch_prid dsc_channel) "prid" in
         let* stream_id := stream_id_mapper_get parent_channel_id in
         let* recipient_id :=
           subscript (stream_id_to_recipient_id env) stream_id (Py.str stream_id) in
         let* fname := field (ch_fname dsc_channel) "fname" in
         ret (recipient_id, "(Discussion) " +:+ fname)
     | None =>
         let* stream_id := stream_id_mapper_get rid in
         let* recipient_id :=
           subscript (stream_id_to_recipient_id env) stream_id (Py.str stream_id) in
         ret (recipient_id, "Imported from Rocket.Chat")
     end) : M (nat * string)) st = Ok ((r, t), st') →
  ∃ t1,
    ((if is_pm_data then
       let* direct_channel_id := field (m_rid message) "rid" in
       let* direct := subscript (direct_id_to_direct_map (channel_maps env))
                        direct_channel_id direct_channel_id in
       let* rc_member_ids := field (ch_uids direct) "uids" in
       let* member_0 := index rc_member_ids 0 in
       let* recipient_id :=
         if decide (m_sender message = member_0) then
           let* member_1 := index rc_member_ids 1 in
           let* zulip_member_id := user_id_mapper_get member_1 in
           subscript (user_id_to_recipient_id env) zulip_member_id (Py.str zulip_member_id)
         else
           let* zulip_member_id := user_id_mapper_get member_0 in
           subscript (user_id_to_recipient_id env) zulip_member_id (Py.str zulip_member_id) in
       ret (recipient_id, "Imported from rocketchat")
     else
       let* rid := field (m_rid message) "rid" in
       match dsc_id_to_dsc_map (channel_maps env) !! rid with
       | Some dsc_channel =>
           let* parent_channel_id := field (ch_prid dsc_channel) "prid" in
           let* stream_id := stream_id_mapper_get parent_channel_id in
           let* recipient_id :=
             subscript (stream_id_to_recipient_id env) stream_id (Py.str stream_id) in
           let* fname := field (ch_fname dsc_channel) "fname" in
           ret (recipient_id, "(Discussion) " +:+ fname)
       | None =>
           let* stream_id := stream_id_mapper_get rid in
           let* recipient_id :=
             subscript (stream_id_to_recipient_id env) stream_id (Py.str stream_id) in
           ret (recipient_id, "Main channel content (imported from rocketchat)")
       end) : M (nat * string)) st = Ok ((r, t1), st') ∧
    topics_of_the_variants env is_pm_data message t t1.
Proof.
  unfold topics_of_the_variants. destruct is_pm_data.
  - intros H.
    apply bind_inv in H as (rid & st1 & H1 & H). rewrite (bind_Ok _ _ _ _ _ H1).
    apply bind_inv in H as (direct & st2 & H2 & H). rewrite (bind_Ok _ _ _ _ _ H2).
    apply bind_inv in H as (uids & st3 & H3 & H). rewrite (bind_Ok _ _ _ _ _ H3).
    apply bind_inv in H as (member_0 & st4 & H4 & H). rewrite (bind_Ok _ _ _ _ _ H4).
    apply bind_inv in H as (recipient & st5 & H5 & H). rewrite (bind_Ok _ _ _ _ _ H5).
    injection H as <- <- <-. eexists. split; [done|]. done.
  - intros H.
    apply bind_inv in H as (rid & st1 & H1 & H). rewrite (bind_Ok _ _ _ _ _ H1).
    apply field_inv in H1 as [Hrid ->]. rewrite Hrid.
    destruct (dsc_id_to_dsc_map (channel_maps env) !! rid) as [dsc_channel|] eqn:Hdsc.
    + exists t. split; [done|].
      apply bind_inv in H as (prid & st2 & H2 & H).
      apply bind_inv in H as (stream_id & st3 & H3 & H).
      apply bind_inv in H as (recipient & st4 & H4 & H).
      apply bind_inv in H as (fname & st5 & H5 & H).
      apply field_inv in H5 as [Hfname _]. injection H as _ <- _.
      exists fname. done.
    + apply bind_inv in H as (stream_id & st2 & H2 & H). rewrite (bind_Ok _ _ _ _ _ H2).
      apply bind_inv in H as (recipient & st3 & H3 & H). rewrite (bind_Ok _ _ _ _ _ H3).
      injection H as <- <- <-. eexists. split; [done|]. done.
Qed.

Lemma Rocketchat1_separate_agrees messages direct_id_to_direct_map channel_messages private_messages :
  Forall (λ message, Py.truthy (m_rid message) = true) messages →
  Rocketchat1.separate_channel_and_private_messages messages
    (dom direct_id_to_direct_map) channel_messages private_messages
  = Ok (separate_channel_and_private_messages messages direct_id_to_direct_map
          channel_messages private_messages).
Proof.
  intros H. revert channel_messages private_messages.
  induction H as [|message rest Hrid _ IH]; intros channel_messages private_messages;
    simpl; [done|].
  destruct (m_rid message) as [[|c rid]|]; try discriminate Hrid.
  destruct (decide (is_Some (direct_id_to_direct_map !! String c rid))) as [Hs|Hs].
  - rewrite decide_True by (by apply elem_of_dom). apply IH.
  - rewrite decide_False by (by rewrite elem_of_dom). apply IH.
Qed.

Lemma Rocketchat1_categorize_agrees channel_data maps :
  Forall (λ channel, is_Some (ch_prid channel) → Py.truthy (ch_prid channel) = true)
    channel_data →
  Rocketchat1.categorize_channels_and_map_with_id channel_data maps
  = categorize_channels_and_map_with_id channel_data maps.
Proof.
  unfold Rocketchat1.categorize_channels_and_map_with_id, categorize_channels_and_map_with_id.
  intros H. revert maps. induction H as [|channel rest Hc _ IH]; intros maps; simpl; [done|].
  assert (Rocketchat1.categorize_channel maps channel = categorize_channel maps channel) as ->.
  { unfold Rocketchat1.categorize_channel, categorize_channel.
    destruct (ch_prid channel) as [prid|].
    - rewrite decide_True by eauto. by rewrite Hc by eauto.
    - rewrite decide_False; [done|]. by intros [? ?]. }
  destruct (categorize_channel maps channel); [apply IH|done].
Qed.

(** C9, as the code has it.  Whenever [message_to_dict] of rocketchat.py
    converts a message whose reacting users are known to the user id mapper,
    [message_to_dict] of rocketchat1.py converts it too, into a record with
    the same recipient, sender, body, date and mentions, leaving the same
    state; the variant's record carries no reactions.  The topics are those
    that [topics_of_the_variants] lists: equal, the title of the discussion
    after ["(Discussion) "], for a message of a discussion channel; for a
    direct message the empty string in rocketchat.py and
    ["Imported from rocketchat"] in rocketchat1.py; for any other room
    message ["Imported from Rocket.Chat"] in rocketchat.py and
    ["Main channel content (imported from rocketchat)"] in rocketchat1.py.
    And [separate_channel_and_private_messages] of the variant returns the
    partition of rocketchat.py when every message carries a non-empty
    room id. *)
Theorem variants_agree_on_recipient_and_partition env is_pm_data message st raw st' :
  reactions_known env st message →
  message_to_dict env is_pm_data message st = Ok (raw, st') →
  (∃ raw1,
     Rocketchat1.message_to_dict env is_pm_data message st = Ok (raw1, st') ∧
     recipient_id raw1 = recipient_id raw ∧
     sender_id raw1 = sender_id raw ∧
     content raw1 = content raw ∧
     date_sent raw1 = date_sent raw ∧
     mention_user_ids raw1 = mention_user_ids raw ∧
     reactions raw1 = [] ∧
     topics_of_the_variants env is_pm_data message (topic_name raw) (topic_name raw1)) ∧
  (∀ messages direct_id_to_direct_map,
     Forall (λ message, Py.truthy (m_rid message) = true) messages →
     Rocketchat1.separate_channel_and_private_messages messages
       (dom direct_id_to_direct_map) [] []
     = Ok (separate_channel_and_private_messages messages direct_id_to_direct_map [] [])).
Proof.
  intros Hknown H. split; [|intros; by apply Rocketchat1_separate_agrees].
  unfold message_to_dict in H. unfold Rocketchat1.message_to_dict.
  rewrite bind_Ok with (1 := user_id_mapper_get_spec _ _) in H.
  rewrite bind_Ok with (1 := user_id_mapper_get_spec _ _).
  apply bind_inv in H as (rs & st2 & Hr & H).
  apply list_reactions_known in Hr as ->;
    [|eapply reactions_known_preserved; [apply user_id_mapper_get_frame|done]].
  apply bind_inv in H as ([r t] & st3 & Hroute & H).
  apply routes_agree in Hroute as (t1 & Hroute1 & Htopic).
  rewrite bind_Ok with (1 := Hroute1).
  apply bind_inv in H as (ids & st4 & Hm & H). rewrite bind_Ok with (1 := Hm).
  injection H as <- <-. eexists. split; [done|]. simpl. split_and!; done.
Qed.

(** ** The properties on the small snapshot *)

Example replace_alice :
  Py.replace "@alice" "@**Alice Smith**" "@alice please review"
  = "@**Alice Smith** please review".
Proof. reflexivity. Qed.

Example replace_is_not_boundary_aware :
  Py.replace "@al" "@**Al**" "@alice and @al" = "@**Al**ice and @**Al**".
Proof. reflexivity. Qed.

Example fix_mentions_broadcast :
  fix_mentions [] "@all and @here" [] = Ok "@**all** and @**all**".
Proof. reflexivity. Qed.

Example split_reaction_code : Py.split ":" ":smile:" = [""; "smile"; ""].
Proof. reflexivity. Qed.

Example format_06_12 : Py.format_06 12 = "000012".
Proof. vm_compute. reflexivity. Qed.

Example categorize_example :
  categorize_channels_and_map_with_id Sample.channel_data empty_maps = Ok Sample.maps.
Proof. vm_compute. reflexivity. Qed.

Example convert_review :
  message_to_dict Sample.env false Sample.review Sample.state
  = Ok (Sample.raw_review, Sample.state).
Proof. vm_compute. reflexivity. Qed.

(** The body written for a message depends on the order in which the set of
    the mentioned users is iterated: in ascending order of the ids, [@al] is
    rewritten first, inside [@alice]; in the order of the mentions, [@alice]
    is rewritten first. *)
Example mention_order_decides_the_body :
  mention_user_ids <$>
    converted (convert_messages (Fixture.namesakes PySet.ascending) false
                 [Fixture.greeting] Fixture.namesakes_state) = [[0; 1]] ∧
  (λ file : string * MessageJson, msg_content <$> zerver_message file.2) <$>
    written (process_messages (Fixture.namesakes PySet.ascending) false
               [Fixture.greeting] Fixture.namesakes_state)
    = [["@**Al Green**ice hi, al"]] ∧
  mention_user_ids <$>
    converted (convert_messages (Fixture.namesakes PySet.as_added) false
                 [Fixture.greeting] Fixture.namesakes_state) = [[1; 0]] ∧
  (λ file : string * MessageJson, msg_content <$> zerver_message file.2) <$>
    written (process_messages (Fixture.namesakes PySet.as_added) false
               [Fixture.greeting] Fixture.namesakes_state)
    = [["@**Alice Smith** hi, al"]].
Proof. vm_compute. done. Qed.

(** The counterexample to C1 as stated: a run of 2500 converted messages, the
    second of which is over the ceiling, writes files of 999, 1000 and 500
    messages, and the ids written skip 1. *)
Lemma batch_emission_with_a_long_message :
  length (converted (convert_messages Sample.env false Sample.run_with_long Sample.state))
    = 2500 ∧
  (λ file : string * MessageJson, length (zerver_message file.2)) <$>
    written (process_messages Sample.env false Sample.run_with_long Sample.state)
    = [999; 1000; 500] ∧
  take 3 (concat (file_ids <$>
            written (process_messages Sample.env false Sample.run_with_long Sample.state)))
    = [0; 2; 3].
Proof. vm_compute. done. Qed.

(** The counterexample to C9 as stated: for the same room message the two
    variants give different topics; and for a message without a room id,
    rocketchat.py ignores the message while the variant raises. *)
Lemma variants_differ_on_topic_and_partition :
  topic_of (message_to_dict Sample.env false Sample.hello Sample.state)
    = Some "Imported from Rocket.Chat" ∧
  topic_of (Rocketchat1.message_to_dict Sample.env false Sample.hello Sample.state)
    = Some "Main channel content (imported from rocketchat)" ∧
  (let livechat :=
     {| m_sender := "rcAlice"; m_msg := "hello"; m_ts := 1600000000; m_rid := None;
        m_t := None; m_mentions := []; m_reactions := [] |} in
   separate_channel_and_private_messages [livechat]
     (direct_id_to_direct_map Sample.maps) [] [] = ([], []) ∧
   Rocketchat1.separate_channel_and_private_messages [livechat]
     (dom (direct_id_to_direct_map Sample.maps)) [] [] = Raise (KeyError "rid")).
Proof. vm_compute. done. Qed.

(** The counterexample to C8 as stated.  A room flagged as the main channel
    of a team without a team id makes classification raise, so that no
    record is in any index; of two records with the same id, the earlier is
    in none of the indexes; of two rooms flagged as the main channel of one
    team, the earlier is not in the team index. *)
Lemma categorize_leaves_records_out :
  categorize_channels_and_map_with_id [Sample.general; Fixture.unnamed_team] empty_maps
    = Raise (KeyError "teamId") ∧
  (∃ maps,
     categorize_channels_and_map_with_id [Sample.general; Fixture.general_private] empty_maps
       = Ok maps ∧
     ∀ c i, index_of c maps !! i ≠ Some Sample.general) ∧
  (∃ maps,
     categorize_channels_and_map_with_id [Sample.core_team; Fixture.second_main] empty_maps
       = Ok maps ∧
     room_id_to_room_map maps !! "team-main" = Some Sample.core_team ∧
     ∀ team_id, team_id_to_team_map maps !! team_id ≠ Some Sample.core_team).
Proof.
  split; [vm_compute; reflexivity|]. split.
  - exists {| room_id_to_room_map := {[ "GENERAL" := Fixture.general_private ]};
              team_id_to_team_map := ∅; dsc_id_to_dsc_map := ∅;
              direct_id_to_direct_map := ∅ |}.
    split; [vm_compute; reflexivity|].
    intros c i. destruct c; simpl; rewrite ?lookup_empty; [done|done|].
    rewrite lookup_singleton_Some. by intros [_ [=]].
  - exists {| room_id_to_room_map :=
                {[ "team-main" := Sample.core_team; "team-main-2" := Fixture.second_main ]};
              team_id_to_team_map := {[ "team-1" := Fixture.second_main ]};
              dsc_id_to_dsc_map := ∅; direct_id_to_direct_map := ∅ |}.
    split; [vm_compute; reflexivity|]. split; [vm_compute; reflexivity|].
    intros team_id. simpl. rewrite lookup_singleton_Some. by intros [_ [=]].
Qed.


(** [batch_emission_of_2500] on a run of 2500 short messages. *)
Lemma batch_emission_of_2500_witness :
  ∃ st' f1 f2 f3,
    process_messages Sample.env false Sample.run Sample.state = Ok (tt, st') ∧
    files st' = [f1; f2; f3] ∧
    length (zerver_message f1.2) = 1000 ∧
    length (zerver_message f2.2) = 1000 ∧
    length (zerver_message f3.2) = 500 ∧
    file_ids f1 ++ file_ids f2 ++ file_ids f3 = seq 0 2500.
Proof.
  destruct (batch_emission_of_2500 Sample.env false Sample.run
              (replicate 2500 (Sample.raw "hello")) Sample.state Sample.state)
    as (st' & f1 & f2 & f3 & H & Hf & _ & Hs).
  - vm_compute. reflexivity.
  - apply length_replicate.
  - apply Forall_replicate. constructor.
  - exists st', f1, f2, f3. split; [exact H|]. split; [exact Hf|].
    apply Hs. apply Forall_replicate. vm_compute. reflexivity.
Defined.

(** [direct_routing] on a message from Alice in her direct channel with Bob. *)
Lemma direct_routing_witness :
  ∃ raw st',
    message_to_dict Sample.env true
      (Sample.message "rcAlice" "rcAlicercBob" "hi Bob") Sample.state = Ok (raw, st') ∧
    recipient_id raw = 1 ∧ topic_name raw = "".
Proof.
  destruct (direct_routing Sample.env Sample.state
              (Sample.message "rcAlice" "rcAlicercBob" "hi Bob")
              "rcAlicercBob" Sample.alice_bob "rcAlice" "rcBob")
    as [_ Htotal]; [reflexivity..|].
  destruct (Htotal (Forall_nil_2 _) 1 1) as (raw & st' & H & Hr & Ht & _);
    [vm_compute; reflexivity..|].
  exists raw, st'. split; [exact H|]. split; [exact Hr|exact Ht].
Defined.


(** [mentions_are_rewritten_before_the_ceiling] on a mention of Alice. *)
Lemma mentions_are_rewritten_witness :
  fix_mentions (user_handler Sample.env) "@alice please review" [0]
    = Ok "@**Alice Smith** please review" ∧
  mentions_rewritten [Sample.alice] "@alice please review" "@**Alice Smith** please review".
Proof.
  destruct (mentions_are_rewritten_before_the_ceiling Sample.env
              {| mention_map := ∅; acc_zerver_message := [] |}
              Sample.raw_review [Sample.alice] Sample.state)
    as (body & Hfix & Hrel & _).
  - constructor; [reflexivity|constructor].
  - assert (body = "@**Alice Smith** please review") as ->.
    { vm_compute in Hfix. by injection Hfix as <-. }
    split; [reflexivity|exact Hrel].
Defined.

(** [too_long_message_is_dropped] on three messages, the second over the ceiling. *)
Lemma too_long_message_is_dropped_witness :
  ∃ st' new_files,
    process_list_in_batches
      [Sample.raw "hello"; Sample.raw Sample.long_body; Sample.raw_review] chunk_size
      (λ lst, process_raw_message_batch Sample.env lst false) Sample.state = Ok (tt, st') ∧
    files st' = new_files ∧
    ∀ file message, file ∈ new_files → message ∈ zerver_message file.2 →
      msg_id message ≠ 1.
Proof.
  destruct (too_long_message_is_dropped Sample.env false
              [Sample.raw "hello"; Sample.raw Sample.long_body; Sample.raw_review]
              Sample.state 1 (Sample.raw Sample.long_body) Sample.long_body)
    as (st' & new_files & H & Hf & Hm & _).
  - repeat constructor. by exists Sample.alice.
  - reflexivity.
  - vm_compute. reflexivity.
  - vm_compute. reflexivity.
  - exists st', new_files. split; [exact H|]. split; [exact Hf|].
    intros file message Hfile Hmessage. by destruct (Hm file message Hfile Hmessage).
Defined.

(** [event_messages_are_skipped] on a user-joined notice. *)
Lemma event_messages_are_skipped_witness :
  process_messages Sample.env false [Sample.joined] Sample.state
    = Ok (tt, Sample.state) ∧
  process_messages Sample.env false [Sample.hello; Sample.joined; Sample.review]
    Sample.state
  = process_messages Sample.env false [Sample.hello; Sample.review] Sample.state.
Proof.
  destruct (event_messages_are_skipped Sample.env false [Sample.hello] Sample.joined
              [Sample.review] Sample.state) as (H1 & _ & H3).
  - by exists "uj".
  - split; [exact H1|exact H3].
Defined.

(** [categorize_exactly_one_category] on the four rooms of the snapshot. *)
Lemma categorize_exactly_one_category_witness :
  ∃ maps,
    categorize_channels_and_map_with_id Sample.channel_data empty_maps = Ok maps ∧
    (∀ channel, channel ∈ Sample.channel_data →
       ∀ c, index_of c maps !! ch_id channel = Some channel ↔ c = category_of channel) ∧
    team_id_to_team_map maps !! "team-1" = Some Sample.core_team.
Proof.
  destruct (categorize_exactly_one_category Sample.channel_data)
    as (maps & H & _ & Hteam & _ & Hall & _).
  - unfold Sample.channel_data.
    repeat apply Forall_cons_2; [..|apply Forall_nil_2];
      unfold names_its_team; simpl; intros; try discriminate; eauto.
  - exists maps. split; [exact H|]. split; [|by rewrite Hteam].
    apply Hall.
    apply (bool_decide_unpack (NoDup (ch_id <$> Sample.channel_data))).
    vm_compute. exact I.
Defined.

(** [variants_agree_on_recipient_and_partition] on a room message with a reaction. *)
Lemma variants_agree_witness :
  ∃ raw1,
    Rocketchat1.message_to_dict Sample.env false Sample.review Sample.state
      = Ok (raw1, Sample.state) ∧
    recipient_id raw1 = 2.
Proof.
  destruct (variants_agree_on_recipient_and_partition Sample.env false Sample.review
              Sample.state Sample.raw_review Sample.state)
    as [(raw1 & H & Hr & _) _].
  - repeat constructor. intros rc_user_id Hu. vm_compute in Hu.
    injection Hu as <-. vm_compute. eauto.
  - vm_compute. reflexivity.
  - exists raw1. split; [exact H|exact Hr].
Defined.


(** ** Separation of the messages into channel and private messages *)

(** X1.  [separate_channel_and_private_messages] appends to the private
    messages the messages that name a room of the direct index, and to the
    channel messages the messages that name a room outside it, both in the
    order of the input; a message without a room (no [rid], or an empty
    one) goes to neither list. *)
Theorem separate_is_two_filters messages direct_id_to_direct_map
    channel_messages private_messages :
  separate_channel_and_private_messages messages direct_id_to_direct_map
    channel_messages private_messages
  = (channel_messages ++
       filter (λ message, has_room message = true ∧
                          in_direct_channel direct_id_to_direct_map message = false) messages,
     private_messages ++
       filter (λ message, has_room message = true ∧
                          in_direct_channel direct_id_to_direct_map message = true) messages).
Proof.
  revert channel_messages private_messages.
  induction messages as [|message rest IH]; intros channel_messages private_messages.
  { simpl. by rewrite !filter_nil, !app_nil_r. }
  rewrite !filter_cons. cbn [separate_channel_and_private_messages].
  destruct (m_rid message) as [[|c r]|] eqn:Hrid.
  - rewrite !decide_False
      by (intros [H _]; unfold has_room in H; by rewrite Hrid in H).
    apply IH.
  - assert (has_room message = true) as Hroom by (unfold has_room; by rewrite Hrid).
    assert (in_direct_channel direct_id_to_direct_map message
            = bool_decide (is_Some (direct_id_to_direct_map !! String c r))) as Hin
      by (unfold in_direct_channel; by rewrite Hrid).
    destruct (decide (is_Some (direct_id_to_direct_map !! String c r))) as [Hd|Hd].
    + rewrite decide_False
        by (intros [_ H]; rewrite Hin, bool_decide_true in H; done).
      rewrite decide_True by (by rewrite Hin, bool_decide_true).
      rewrite IH. by rewrite <- !app_assoc.
    + rewrite decide_True by (by rewrite Hin, bool_decide_false).
      rewrite decide_False
        by (intros [_ H]; rewrite Hin, bool_decide_false in H; done).
      rewrite IH. by rewrite <- !app_assoc.
  - rewrite !decide_False
      by (intros [H _]; unfold has_room in H; by rewrite Hrid in H).
    apply IH.
Qed.

(** ** Classification of channels: failure, and records that share an id *)

(** X2.  Classification succeeds exactly when every room that is flagged as
    the main channel of a team names its team; when it fails, the exception
    is the [KeyError] of [channel["teamId"]].  Discussions and direct
    channels never make it fail. *)
Theorem categorize_fails_only_for_a_team_without_id channel_data maps :
  ((∃ maps', categorize_channels_and_map_with_id channel_data maps = Ok maps')
   ↔ Forall names_its_team channel_data) ∧
  (∀ e, categorize_channels_and_map_with_id channel_data maps = Raise e →
        e = KeyError "teamId").
Proof.
  unfold categorize_channels_and_map_with_id. split; [split|].
  - revert maps. induction channel_data as [|channel rest IH]; intros maps; simpl.
    { by intros _. }
    destruct (categorize_channel maps channel) as [maps1|e] eqn:Hstep.
    + intros H. constructor; [|by eapply IH].
      unfold names_its_team, category_of. unfold categorize_channel in Hstep.
      destruct (Py.truthy (ch_prid channel)); [done|].
      destruct (decide (ch_t channel = "d")); [done|].
      intros _ Hmain. rewrite Hmain in Hstep.
      destruct (ch_teamId channel); [eauto|discriminate].
    + by intros [? ?].
  - apply categorize_total.
  - revert maps. induction channel_data as [|channel rest IH]; intros maps e; simpl.
    { discriminate. }
    destruct (categorize_channel maps channel) as [maps1|e1] eqn:Hstep; [apply IH|].
    intros [= <-]. unfold categorize_channel in Hstep.
    destruct (Py.truthy (ch_prid channel)); [discriminate|].
    destruct (decide (ch_t channel = "d")); [discriminate|].
    destruct (ch_teamMain channel) as [[]|]; [|discriminate..].
    destruct (ch_teamId channel); [discriminate|]. by injection Hstep as <-.
Qed.

(** X3.  Records that share an id: in the index of a category, an id holds
    the last record of the collection with that id and that category (the
    room records need not have distinct ids here). *)
Theorem categorize_last_record_wins earlier channel later maps0 maps :
  categorize_channels_and_map_with_id (earlier ++ channel :: later) maps0 = Ok maps →
  (∀ ch, ch ∈ later → ch_id ch = ch_id channel → category_of ch ≠ category_of channel) →
  index_of (category_of channel) maps !! ch_id channel = Some channel.
Proof.
  unfold categorize_channels_and_map_with_id. rewrite fold_result_app.
  destruct (fold_result categorize_channel earlier maps0) as [maps1|]; [|discriminate].
  simpl. destruct (categorize_channel maps1 channel) as [maps2|] eqn:Hstep; [|discriminate].
  intros Hrest Hlater. apply (categorize_keeps later maps2); [done| |done].
  rewrite (categorize_channel_index _ _ _ _ Hstep).
  rewrite decide_True by done. apply lookup_insert_eq.
Qed.

(** ** Bodies without mentions *)

Lemma replace_from_absent c old new s :
  (∀ a b, s ≠ a +:+ String c "" +:+ b) →
  Py.replace_from (String c old) new 0 s = s.
Proof.
  intros Habsent.
  destruct (PyFacts.replace_from_round c old new s) as [[_ Hr]|(a & b & Hs & _)]; [done|].
  exfalso. apply (Habsent a (old +:+ b)).
  by rewrite Hs, !PyFacts.app_cons, PyFacts.app_nil_l.
Qed.

(** X4.  A body in which the character [@] does not occur is left as it is
    by [fix_mentions], whoever is mentioned (the mentioned users being known
    to the user handler). *)
Theorem fix_mentions_keeps_a_body_without_at user_handler content mention_user_ids :
  Forall (λ user_id, ∃ user, UserHandler.get_user user_id user_handler = Ok user)
         mention_user_ids →
  (∀ a b, content ≠ a +:+ "@" +:+ b) →
  fix_mentions user_handler content mention_user_ids = Ok content.
Proof.
  intros Hres Habsent.
  assert (∃ users, Forall2 (λ user_id user,
            UserHandler.get_user user_id user_handler = Ok user) mention_user_ids users)
    as [users Husers].
  { induction Hres as [|user_id ids [user Hu] _ [users IH]]; [by exists []|].
    exists (user :: users). by constructor. }
  rewrite (fix_mentions_fold _ _ _ _ Husers).
  assert (Hrep : ∀ name new, Py.replace ("@" +:+ name) new content = content).
  { intros name new. exact (replace_from_absent "@" name new content Habsent). }
  assert (foldl (λ content user,
                   Py.replace ("@" +:+ up_short_name user)
                     ("@**" +:+ up_full_name user +:+ "**") content) content users
          = content) as ->.
  { clear Husers. induction users as [|user users IH]; cbn [foldl]; [done|].
    by rewrite Hrep. }
  rewrite (Hrep "all"). by rewrite (Hrep "here").
Qed.
(** ** The reactions of a message *)

Lemma lists_reaction_mono env st st' listed pair :
  user_gets st st' → lists_reaction env st listed pair → lists_reaction env st' listed pair.
Proof.
  intros Hframe [Hname (rc_user_id & Hu & Hid)]. split; [done|].
  exists rc_user_id. split; [done|]. by eapply user_gets_known.
Qed.

Lemma list_reactions_users env name react_code usernames :
  Py.split ":" react_code !! 1 = Some name →
  ∀ acc st l st',
    fold_for (λ reactions_list username,
      let* rc_user_id := subscript (username_to_user_id_map env) username username in
      let* user_id := user_id_mapper_get rc_user_id in
      ret (reactions_list ++ [(name, user_id)])) usernames acc st = Ok (l, st') →
    user_gets st st' ∧
    Forall (λ username, is_Some (username_to_user_id_map env !! username)) usernames ∧
    ∃ new, l = acc ++ new ∧
           Forall2 (lists_reaction env st') new ((λ username, (react_code, username)) <$> usernames).
Proof.
  intros Hname. induction usernames as [|username usernames IH]; intros acc st l st'.
  { intros [= <- <-]. split; [apply user_gets_refl|]. split; [done|].
    exists []. by rewrite app_nil_r. }
  cbn [fold_for]. intros H. apply bind_inv in H as (acc1 & st1 & H1 & H).
  apply bind_inv in H1 as (rc_user_id & s & Hu & H1).
  apply subscript_inv in Hu as [Hu ->].
  rewrite bind_Ok with (1 := user_id_mapper_get_spec _ _) in H1. injection H1 as <- <-.
  destruct (IH _ _ _ _ H) as (Hframe & Hknown & new & -> & Hnew).
  split; [eapply user_gets_trans; [apply user_id_mapper_get_frame|done]|].
  split; [constructor; eauto|].
  eexists (_ :: new). split; [by rewrite <- app_assoc|].
  rewrite fmap_cons. constructor; [|done].
  split; [done|]. exists rc_user_id. split; [done|].
  eapply user_gets_known; [exact Hframe|]. simpl. apply IdMapperFacts.get_recorded.
Qed.

Lemma list_reactions_entries env reactions :
  ∀ acc st l st',
    fold_for (λ reactions_list (entry : string * list string),
      let react_code := entry.1 in
      let* name := index (Py.split ":" react_code) 1 in
      let usernames := entry.2 in
      fold_for (λ reactions_list username,
        let* rc_user_id := subscript (username_to_user_id_map env) username username in
        let* user_id := user_id_mapper_get rc_user_id in
        ret (reactions_list ++ [(name, user_id)])) usernames reactions_list)
      reactions acc st = Ok (l, st') →
    user_gets st st' ∧
    Forall (λ entry : string * list string,
              is_Some (Py.split ":" entry.1 !! 1) ∧
              Forall (λ username, is_Some (username_to_user_id_map env !! username)) entry.2)
           reactions ∧
    ∃ new, l = acc ++ new ∧ Forall2 (lists_reaction env st') new (reaction_pairs reactions).
Proof.
  induction reactions as [|entry reactions IH]; intros acc st l st'.
  { intros [= <- <-]. split; [apply user_gets_refl|]. split; [done|].
    exists []. by rewrite app_nil_r. }
  cbn [fold_for]. intros H. apply bind_inv in H as (acc1 & st1 & H1 & H).
  apply bind_inv in H1 as (name & s & Hname & H1).
  apply index_inv in Hname as [Hname ->].
  destruct (list_reactions_users env name entry.1 entry.2 Hname _ _ _ _ H1)
    as (Hframe1 & Hknown1 & new1 & -> & Hnew1).
  destruct (IH _ _ _ _ H) as (Hframe & Hknown & new & -> & Hnew).
  split; [by eapply user_gets_trans|].
  split; [constructor; eauto|].
  exists (new1 ++ new). split; [by rewrite <- app_assoc|].
  unfold reaction_pairs. rewrite fmap_cons. cbn [concat].
  apply Forall2_app; [|done].
  eapply Forall2_impl; [exact Hnew1|]. intros listed pair. by apply lists_reaction_mono.
Qed.

(** X5.  [list_reactions] returns a list exactly when every reaction code has
    a name between colons and every reacting username is in
    [username_to_user_id_map]; the list then has one entry per (code,
    username) pair, in the order of the reaction map, with the name cut out
    of the code and the id that the user id mapper holds for the user; and
    nothing but the user id mapper is touched. *)
Theorem list_reactions_lists_every_reacting_user env message st :
  ((∃ reactions_list st',
      list_reactions env (m_reactions message) st = Ok (reactions_list, st'))
   ↔ reactions_resolvable env message) ∧
  (∀ reactions_list st',
     list_reactions env (m_reactions message) st = Ok (reactions_list, st') →
     user_gets st st' ∧
     Forall2 (lists_reaction env st') reactions_list (reaction_pairs (m_reactions message))).
Proof.
  split; [split|].
  - intros (l & st' & H). unfold list_reactions in H.
    by destruct (list_reactions_entries env _ _ _ _ _ H) as (_ & Hres & _).
  - apply list_reactions_total.
  - intros l st' H. unfold list_reactions in H.
    destruct (list_reactions_entries env _ _ _ _ _ H) as (Hframe & _ & new & -> & Hnew).
    done.
Qed.

(** ** The reactions built for an emitted message *)

Lemma build_reactions_run env reactions message_id st :
  ∃ st',
    build_reactions env reactions message_id st = Ok (tt, st') ∧
    total_reactions st' = total_reactions st ++
      imap (λ i known,
              {| r_id := counter "reaction" st + i;
                 r_emoji_code := known.1.2;
                 r_emoji_name := known.1.1;
                 r_reaction_type := UNICODE_EMOJI;
                 r_message := message_id;
                 r_user_profile := known.2 |}) (known_reactions env reactions) ∧
    counter "reaction" st' = counter "reaction" st + length (known_reactions env reactions) ∧
    (∀ name, name ≠ "reaction" → counter name st' = counter name st) ∧
    files st' = files st ∧ log st' = log st ∧
    user_id_mapper st' = user_id_mapper st ∧ stream_id_mapper st' = stream_id_mapper st.
Proof.
  unfold build_reactions, known_reactions. revert st.
  induction reactions as [|reaction reactions IH]; intros st.
  { exists st. simpl. rewrite app_nil_r. split_and!; [done|done|lia|done..]. }
  cbn [fold_for omap list_omap].
  destruct (name_to_codepoint env !! reaction.1) as [emoji_code|] eqn:Hcode.
  - erewrite bind_Ok; [|reflexivity].
    match goal with |- context [fold_for _ reactions tt ?s] =>
      destruct (IH s) as (st' & Hb & Hr & Hc & Hn & Hf & Hl & Hu & Hs) end.
    exists st'. split; [exact Hb|].
    unfold counter in *. simpl in *. rewrite lookup_insert_eq in Hr, Hc. simpl in Hr, Hc.
    split_and!; [|lia| |done..].
    + rewrite Hr, <- app_assoc. f_equal. simpl. rewrite Nat.add_0_r. f_equal.
      apply imap_ext. intros i known _. simpl. f_equal. lia.
    + intros name Hname. rewrite (Hn name Hname). by rewrite lookup_insert_ne.
  - rewrite bind_ret_l. simpl. apply IH.
Qed.

(** X6.  [build_reactions] appends one reaction per listed reaction whose
    emoji name is in [name_to_codepoint], in order, and skips the others; the
    reactions appended carry the code of the table, the message id and the
    user id given, and the ids that the reaction counter hands out, which are
    consecutive; the counter moves past them, and no other store changes. *)
Theorem build_reactions_numbers_the_known_reactions env reactions message_id st :
  ∃ st',
    build_reactions env reactions message_id st = Ok (tt, st') ∧
    total_reactions st' = total_reactions st ++
      imap (λ i known,
              {| r_id := counter "reaction" st + i;
                 r_emoji_code := known.1.2;
                 r_emoji_name := known.1.1;
                 r_reaction_type := UNICODE_EMOJI;
                 r_message := message_id;
                 r_user_profile := known.2 |}) (known_reactions env reactions) ∧
    counter "reaction" st' = counter "reaction" st + length (known_reactions env reactions) ∧
    (∀ name, name ≠ "reaction" → counter name st' = counter name st) ∧
    files st' = files st ∧ log st' = log st ∧
    user_id_mapper st' = user_id_mapper st ∧ stream_id_mapper st' = stream_id_mapper st.
Proof. apply build_reactions_run. Qed.
(** ** The mentioned users of a message *)

Lemma collect_mentions_ids mentions :
  ∀ acc st ids st',
    fold_for (λ added mention_id,
      if decide (mention_id ∈ ["all"; "here"]) then ret added
      else
        let* user_id := user_id_mapper_get mention_id in
        ret (added ++ [user_id])) mentions acc st = Ok (ids, st') →
    user_gets st st' ∧
    ∀ id, id ∈ ids ↔
      id ∈ acc ∨ (∃ mention_id, mention_id ∈ mentions ∧ (mention_id ∉ ["all"; "here"]) ∧
                    IdMapper.map (user_id_mapper st') !! mention_id = Some id).
Proof.
  induction mentions as [|mention_id mentions IH]; intros acc st ids st'.
  { intros [= <- <-]. split; [apply user_gets_refl|].
    intros id. split; [by left|]. intros [?|(? & []%elem_of_nil & _)]. done. }
  cbn [fold_for]. case_decide as Hb.
  - rewrite bind_ret_l. intros H.
    destruct (IH _ _ _ _ H) as (Hframe & Hids).
    split; [done|]. intros id. rewrite Hids. split.
    + intros [?|(m & Hm & Hmb & Hid)]; [by left|]. right. exists m. split; [by right|done].
    + intros [?|(m & Hm & Hmb & Hid)]; [by left|]. right. exists m.
      apply elem_of_cons in Hm as [->|Hm]; [done|]. done.
  - intros H. apply bind_inv in H as (acc1 & st1 & H1 & H).
    rewrite bind_Ok with (1 := user_id_mapper_get_spec _ _) in H1.
    injection H1 as <- <-.
    set (user_id := (IdMapper.get mention_id (user_id_mapper st)).1) in *.
    destruct (IH _ _ _ _ H) as (Hframe & Hids).
    assert (Hrec : IdMapper.map (user_id_mapper st') !! mention_id = Some user_id).
    { eapply user_gets_known; [exact Hframe|]. simpl. apply IdMapperFacts.get_recorded. }
    assert (Hacc : ∀ id, id ∈ acc ++ [user_id] ↔ id ∈ acc ∨ id = user_id).
    { intros id. rewrite elem_of_app, list_elem_of_singleton. done. }
    split.
    { eapply user_gets_trans; [apply user_id_mapper_get_frame|done]. }
    intros id. rewrite Hids, Hacc. split.
    + intros [[?| ->]|(m & Hm & Hmb & Hid)].
      * by left.
      * right. exists mention_id. split; [by left|done].
      * right. exists m. split; [by right|done].
    + intros [?|(m & Hm & Hmb & Hid)]; [by left; left|].
      apply elem_of_cons in Hm as [->|Hm].
      * left. right. congruence.
      * right. by exists m.
Qed.

(** X7.  The loop of [message_to_dict] over the mentions never raises; the
    ids it collects have no duplicate and are exactly the ids that the user
    id mapper holds for the mentioned ids other than [all] and [here]; and
    nothing but the user id mapper is touched.  This holds in whatever order
    the set of the ids is iterated. *)
Theorem collect_mentions_collects_the_users_once order mentions st :
  ∃ ids st',
    collect_mentions order mentions st = Ok (ids, st') ∧
    NoDup ids ∧ user_gets st st' ∧
    ∀ id, id ∈ ids ↔
      ∃ mention_id, mention_id ∈ mentions ∧ mention_id ≠ "all" ∧ mention_id ≠ "here" ∧
        IdMapper.map (user_id_mapper st') !! mention_id = Some id.
Proof.
  destruct (collect_mentions_total order mentions st) as (ids & st' & H).
  exists ids, st'. split; [done|]. unfold collect_mentions in H.
  apply bind_inv in H as (added & st1 & H & [= <- <-]).
  destruct (collect_mentions_ids _ _ _ _ _ H) as (Hframe & Hids).
  split; [apply PySet.iterate_NoDup|]. split; [done|].
  intros id. rewrite PySet.iterate_elem, Hids. split.
  - intros [[]%elem_of_nil|(m & Hm & Hmb & Hid)]. exists m. split; [done|].
    split_and!; [| |done]; intros ->; apply Hmb; set_solver.
  - intros (m & Hm & Hall & Hhere & Hid). right. exists m. split; [done|].
    split; [|done]. set_solver.
Qed.

(** ** A message that cannot be converted *)

Lemma convert_messages_raise env is_pm_data pre message post raw_messages st st1 e :
  convert_messages env is_pm_data pre st = Ok (raw_messages, st1) →
  m_t message = None →
  message_to_dict env is_pm_data message st1 = Raise e →
  convert_messages env is_pm_data (pre ++ message :: post) st = Raise e.
Proof.
  unfold convert_messages. intros Hpre Ht Hraise.
  rewrite fold_for_app, bind_Ok with (1 := Hpre). cbn [fold_for]. rewrite Ht.
  apply bind_Raise. by apply bind_Raise.
Qed.

(** The routing step of [message_to_dict] for a message of a room that is
    not a discussion, converted with the channel messages. *)
Lemma room_route env st0 st message rid :
  user_gets st0 st →
  m_rid message = Some rid →
  dsc_id_to_dsc_map (channel_maps env) !! rid = None →
  ∀ k : nat * string → M RawMessage,
  bind (let* rid := field (m_rid message) "rid" in
        match dsc_id_to_dsc_map (channel_maps env) !! rid with
        | Some dsc_channel =>
            let* parent_channel_id := field (ch_prid dsc_channel) "prid" in
            let* stream_id := stream_id_mapper_get parent_channel_id in
            let* recipient_id :=
              subscript (stream_id_to_recipient_id env) stream_id (Py.str stream_id) in
            let* fname := field (ch_fname dsc_channel) "fname" in
            ret (recipient_id, "(Discussion) " +:+ fname)
        | None =>
            let* stream_id := stream_id_mapper_get rid in
            let* recipient_id :=
              subscript (stream_id_to_recipient_id env) stream_id (Py.str stream_id) in
            ret (recipient_id, "Imported from Rocket.Chat")
        end) k st
  = match stream_id_to_recipient_id env !! (IdMapper.get rid (stream_id_mapper st0)).1 with
    | Some r =>
        k (r, "Imported from Rocket.Chat")
          {| user_id_mapper := user_id_mapper st;
             stream_id_mapper := (IdMapper.get rid (stream_id_mapper st0)).2;
             counters := counters st;
             total_reactions := total_reactions st;
             files := files st;
             log := log st |}
    | None => Raise (KeyError (Py.str (IdMapper.get rid (stream_id_mapper st0)).1))
    end.
Proof.
  intros Hframe Hrid Hdsc k.
  rewrite Hrid. simpl. unfold bind at 1 2. simpl. rewrite Hdsc.
  unfold bind, stream_id_mapper_get, subscript. simpl.
  rewrite (user_gets_stream _ _ Hframe).
  destruct (IdMapper.get rid (stream_id_mapper st0)) as [stream_id sm]. simpl.
  by destruct (stream_id_to_recipient_id env !! stream_id).
Qed.

(** X8.  A message of a room that is not in the discussion index, converted
    with the channel messages and with resolvable reactions: the record has
    the topic ["Imported from Rocket.Chat"] and the stream recipient of the
    room itself when the room's stream has a recipient; when it has none,
    the conversion of the message raises the [KeyError] of the stream id,
    and so does [process_messages] on any list in which the message follows
    messages that convert. *)
Theorem room_routing env st message rid :
  m_rid message = Some rid →
  dsc_id_to_dsc_map (channel_maps env) !! rid = None →
  reactions_resolvable env message →
  let stream_id := (IdMapper.get rid (stream_id_mapper st)).1 in
  match stream_id_to_recipient_id env !! stream_id with
  | Some r =>
      ∃ raw st', message_to_dict env false message st = Ok (raw, st') ∧
        topic_name raw = "Imported from Rocket.Chat" ∧ recipient_id raw = r ∧
        IdMapper.map (stream_id_mapper st') !! rid = Some stream_id
  | None =>
      message_to_dict env false message st = Raise (KeyError (Py.str stream_id)) ∧
      (m_t message = None →
       ∀ pre post raw_messages st0,
         convert_messages env false pre st0 = Ok (raw_messages, st) →
         process_messages env false (pre ++ message :: post) st0
           = Raise (KeyError (Py.str stream_id)))
  end.
Proof.
  intros Hrid Hdsc Hres stream_id. subst stream_id.
  assert (Hrun : message_to_dict env false message st =
    match stream_id_to_recipient_id env !! (IdMapper.get rid (stream_id_mapper st)).1 with
    | Some r =>
        message_to_dict env false message st
    | None => Raise (KeyError (Py.str (IdMapper.get rid (stream_id_mapper st)).1))
    end).
  { destruct (stream_id_to_recipient_id env !! _) eqn:Hrec; [done|].
    unfold message_to_dict.
    rewrite bind_Ok with (1 := user_id_mapper_get_spec _ _).
    destruct (list_reactions_total env message
                (with_user_id_mapper st (IdMapper.get (m_sender message) (user_id_mapper st)).2)
                Hres) as (rs & st2 & Hr).
    assert (Hframe : user_gets st st2).
    { eapply user_gets_trans; [apply user_id_mapper_get_frame|].
      by eapply list_reactions_frame. }
    rewrite bind_Ok with (1 := Hr).
    rewrite (room_route env st st2 message rid) by done. by rewrite Hrec. }
  destruct (stream_id_to_recipient_id env !! _) as [r|] eqn:Hrec.
  - clear Hrun. unfold message_to_dict.
    rewrite bind_Ok with (1 := user_id_mapper_get_spec _ _).
    destruct (list_reactions_total env message
                (with_user_id_mapper st (IdMapper.get (m_sender message) (user_id_mapper st)).2)
                Hres) as (rs & st2 & Hr).
    assert (Hframe : user_gets st st2).
    { eapply user_gets_trans; [apply user_id_mapper_get_frame|].
      by eapply list_reactions_frame. }
    rewrite bind_Ok with (1 := Hr).
    rewrite (room_route env st st2 message rid) by done. rewrite Hrec. cbv beta.
    match goal with |- context [bind (collect_mentions ?o ?ms) _ ?s] =>
      destruct (collect_mentions_total o ms s) as (ids & st4 & Hm) end.
    rewrite bind_Ok with (1 := Hm). eexists _, _. split; [done|]. simpl.
    split_and!; [done..|].
    apply collect_mentions_frame, user_gets_stream in Hm. rewrite Hm. simpl.
    apply IdMapperFacts.get_recorded.
  - split; [done|]. intros Ht pre post raw_messages st0 Hpre.
    unfold process_messages. apply bind_Raise.
    by eapply convert_messages_raise.
Qed.


(** ** Numbering of reactions and files *)

Lemma numbering_refl env st : numbering env st st.
Proof.
  split; exists []; rewrite app_nil_r; (split; [done|]); simpl; (split; [done|lia]).
Qed.

Lemma numbering_trans env st1 st2 st3 :
  numbering env st1 st2 → numbering env st2 st3 → numbering env st1 st3.
Proof.
  intros [(r1 & R1 & I1 & C1) (f1 & F1 & N1 & D1)] [(r2 & R2 & I2 & C2) (f2 & F2 & N2 & D2)].
  split.
  - exists (r1 ++ r2). split; [by rewrite R2, R1, app_assoc|].
    rewrite fmap_app, length_app, seq_app, I1, I2, C1. split; [done|lia].
  - exists (f1 ++ f2). split; [by rewrite F2, F1, app_assoc|].
    rewrite fmap_app, length_app, seq_app, fmap_app, N1, N2, D1. split; [done|lia].
Qed.

(** A step that leaves the counters, the reactions and the files alone. *)
Lemma same_outputs_numbering env st st' : same_outputs st st' → numbering env st st'.
Proof.
  intros (Hc & Hr & Hf & _).
  split; unfold counter; exists []; rewrite app_nil_r, Hc; (split; [done|]); simpl;
    (split; [done|lia]).
Qed.

Lemma dump_counter_not_reaction env : dump_counter env ≠ "reaction".
Proof. discriminate. Qed.

Lemma NEXT_ID_message_numbering env st id st' :
  NEXT_ID "message" st = Ok (id, st') → numbering env st st'.
Proof.
  intros [= _ <-].
  split; unfold counter; exists []; rewrite app_nil_r; simpl; (split; [done|]);
    (split; [done|]).
  - rewrite lookup_insert_ne by discriminate. lia.
  - rewrite lookup_insert_ne by discriminate. lia.
Qed.

Lemma logging_info_numbering env line st st' :
  logging_info line st = Ok (tt, st') → numbering env st st'.
Proof.
  intros [= <-].
  split; unfold counter; exists []; rewrite app_nil_r; simpl; (split; [done|]);
    (split; [done|lia]).
Qed.

Lemma build_reactions_numbering env reactions message_id st st' :
  build_reactions env reactions message_id st = Ok (tt, st') → numbering env st st'.
Proof.
  destruct (build_reactions_run env reactions message_id st)
    as (st1 & H & Hr & Hc & Hn & Hf & _).
  rewrite H. intros [= <-]. split.
  - eexists. split; [exact Hr|]. rewrite length_imap. split; [|done].
    rewrite fmap_imap.
    rewrite (imap_ext _ (λ i _, id (counter "reaction" st + i))) by done.
    by rewrite imap_seq, list_fmap_id.
  - exists []. rewrite app_nil_r. split; [done|]. simpl. split; [done|].
    rewrite Hn by apply dump_counter_not_reaction. lia.
Qed.

Lemma process_raw_message_numbering env acc raw_message st acc' st' :
  process_raw_message env acc raw_message st = Ok (acc', st') → numbering env st st'.
Proof.
  unfold process_raw_message. intros H.
  apply bind_inv in H as (message_id & st1 & H1 & H).
  apply NEXT_ID_message_numbering with (env := env) in H1.
  apply bind_inv in H as (body & st2 & H2 & H).
  assert (st2 = st1) as ->.
  { unfold lift in H2. destruct (fix_mentions _ _ _); [|discriminate]. by injection H2 as _ <-. }
  eapply numbering_trans; [exact H1|].
  destruct (10000 <? Py.len body)%Z.
  - apply bind_inv in H as ([] & st3 & H3 & H). injection H as _ <-.
    by eapply logging_info_numbering.
  - apply bind_inv in H as ([] & st3 & H3 & H). injection H as _ <-.
    by eapply build_reactions_numbering.
Qed.

(** One batch: whatever the loop did, the file is named after the number
    that the file counter hands out. *)
Lemma process_raw_message_batch_numbering env raw_messages is_pm_data st st' :
  process_raw_message_batch env raw_messages is_pm_data st = Ok (tt, st') →
  numbering env st st'.
Proof.
  unfold process_raw_message_batch. intros H.
  apply bind_inv in H as (acc & st1 & Hloop & H).
  assert (Hn : numbering env st st1).
  { revert Hloop. apply (fold_for_frame (numbering env));
      [apply numbering_refl|apply numbering_trans|].
    intros ?????. by apply process_raw_message_numbering. }
  eapply numbering_trans; [exact Hn|]. clear Hn Hloop.
  apply bind_inv in H as (dump_file_id & st2 & H2 & H).
  injection H2 as <- <-. injection H as <-.
  fold (dump_counter env). fold (counter (dump_counter env) st1). split; simpl.
  - exists []. rewrite app_nil_r. split; [done|]. simpl. split; [done|].
    unfold counter. simpl. rewrite lookup_insert_ne by apply dump_counter_not_reaction. lia.
  - eexists [_]. split; [done|]. simpl. split; [done|].
    unfold counter at 1. simpl. rewrite lookup_insert_eq. simpl. lia.
Qed.

Lemma process_list_in_batches_numbering env raw_messages n is_pm_data st st' :
  process_list_in_batches raw_messages n
    (λ lst, process_raw_message_batch env lst is_pm_data) st = Ok (tt, st') →
  numbering env st st'.
Proof.
  unfold process_list_in_batches. rewrite batches_from_chunks.
  apply (fold_for_frame (numbering env)); [apply numbering_refl|apply numbering_trans|].
  intros [] chunk s [] s'. apply process_raw_message_batch_numbering.
Qed.

(** ** A run that returns has resolved its mentions *)

Lemma fix_mentions_inv user_handler content mention_user_ids body :
  fix_mentions user_handler content mention_user_ids = Ok body →
  Forall (λ user_id, ∃ user, UserHandler.get_user user_id user_handler = Ok user)
         mention_user_ids.
Proof.
  unfold fix_mentions. revert content.
  induction mention_user_ids as [|user_id ids IH]; intros content; [done|].
  cbn [fold_result].
  destruct (UserHandler.get_user user_id user_handler) as [user|e] eqn:Hu; [|discriminate].
  intros H. constructor; [eauto|]. by eapply IH.
Qed.

Lemma fold_for_Forall {A B} (P : A → Prop) (body : B → A → M B) l :
  (∀ acc x st acc' st', body acc x st = Ok (acc', st') → P x) →
  ∀ acc st acc' st', fold_for body l acc st = Ok (acc', st') → Forall P l.
Proof.
  intros Hbody. induction l as [|x l IH]; intros acc st acc' st'; simpl; [done|].
  intros H. apply bind_inv in H as (acc1 & st1 & H1 & H2).
  constructor; [by eapply Hbody|by eapply IH].
Qed.

Lemma process_raw_message_inv env acc raw_message st acc' st' :
  process_raw_message env acc raw_message st = Ok (acc', st') →
  mentions_resolvable env raw_message.
Proof.
  unfold process_raw_message. intros H.
  apply bind_inv in H as (message_id & st1 & _ & H).
  apply bind_inv in H as (body & st2 & H2 & _).
  unfold lift in H2.
  destruct (fix_mentions _ _ _) as [body'|] eqn:Hfix; [|discriminate].
  by eapply fix_mentions_inv.
Qed.

Lemma process_raw_message_batch_inv env raw_messages is_pm_data st st' :
  process_raw_message_batch env raw_messages is_pm_data st = Ok (tt, st') →
  Forall (mentions_resolvable env) raw_messages.
Proof.
  unfold process_raw_message_batch. intros H.
  apply bind_inv in H as (acc & st1 & Hloop & _). revert Hloop.
  apply fold_for_Forall. intros ?????. apply process_raw_message_inv.
Qed.

Lemma Forall_concat {A} (P : A → Prop) (ls : list (list A)) :
  Forall (Forall P) ls → Forall P (concat ls).
Proof.
  induction 1 as [|l ls Hl _ IH]; simpl; [done|]. by apply Forall_app.
Qed.

Lemma process_list_in_batches_inv env raw_messages n is_pm_data st st' :
  0 < n →
  process_list_in_batches raw_messages n
    (λ lst, process_raw_message_batch env lst is_pm_data) st = Ok (tt, st') →
  Forall (mentions_resolvable env) raw_messages.
Proof.
  intros Hn. unfold process_list_in_batches. rewrite batches_from_chunks. intros H.
  rewrite <- (drop_0 raw_messages).
  rewrite <- (chunks_from_concat (S (length raw_messages)) raw_messages n 0) by lia.
  apply Forall_concat. revert H.
  apply fold_for_Forall. intros [] chunk s [] s'. apply process_raw_message_batch_inv.
Qed.

(** ** The files of a run *)

Lemma chunk_sizes_length fuel chunk_size len :
  0 < chunk_size → len < fuel →
  length (chunk_sizes fuel chunk_size len) = (len + chunk_size - 1) / chunk_size.
Proof.
  intros Hpos. revert len. induction fuel as [|fuel IH]; intros len Hfuel; [lia|].
  cbn [chunk_sizes]. case_decide as Hmin.
  - assert (len = 0) as -> by lia. simpl. symmetry. apply Nat.div_small. lia.
  - cbn [length]. destruct (decide (chunk_size ≤ len)) as [Hle|Hgt].
    + rewrite IH by lia.
      replace (len + chunk_size - 1) with ((len - chunk_size + chunk_size - 1) + 1 * chunk_size)
        by lia.
      rewrite Nat.div_add by lia. lia.
    + replace (len - chunk_size) with 0 by lia.
      destruct fuel as [|fuel']; [lia|].
      cbn [chunk_sizes]. rewrite decide_True by lia. simpl.
      apply (Nat.div_unique _ _ 1 (len - 1)); lia.
Qed.

Lemma chunks_from_bounded {A} fuel (lst : list A) chunk_size offset :
  Forall (λ chunk, 0 < length chunk ≤ chunk_size) (chunks_from fuel lst chunk_size offset).
Proof.
  revert offset. induction fuel as [|fuel IH]; intros offset; simpl; [done|].
  destruct (take chunk_size (drop offset lst)) as [|x items] eqn:Htake; [done|].
  constructor; [|apply IH]. rewrite <- Htake. split.
  - rewrite Htake. simpl. lia.
  - rewrite length_take. lia.
Qed.

Lemma batch_messages_length env next raw_messages :
  length (batch_messages env next raw_messages) ≤ length raw_messages.
Proof.
  revert next. induction raw_messages as [|raw rest IH]; intros next; simpl; [done|].
  rewrite length_app. specialize (IH (S next)).
  assert (length (emitted env next raw) ≤ 1); [|lia].
  unfold emitted. destruct (rewritten env raw) as [body|]; [|simpl; lia].
  destruct (10000 <? Py.len body)%Z; simpl; lia.
Qed.

Lemma files_messages_bounded env next chunks n :
  Forall (λ chunk : list RawMessage, 0 < length chunk ≤ n) chunks →
  Forall (λ messages, length messages ≤ n) (files_messages env next chunks).
Proof.
  intros H. revert next. induction H as [|chunk chunks [_ Hc] _ IH]; intros next; simpl; [done|].
  constructor; [|apply IH]. pose proof (batch_messages_length env next chunk). lia.
Qed.

Lemma files_messages_length env next chunks :
  length (files_messages env next chunks) = length chunks.
Proof.
  revert next. induction chunks as [|chunk chunks IH]; intros next; simpl; [done|].
  by rewrite IH.
Qed.

(** What a run of [process_messages] that returns has done. *)
Lemma process_messages_run env is_pm_data messages st st' :
  process_messages env is_pm_data messages st = Ok (tt, st') →
  ∃ raw_messages st1 new_files new_reactions,
    convert_messages env is_pm_data messages st = Ok (raw_messages, st1) ∧
    files st' = files st ++ new_files ∧
    total_reactions st' = total_reactions st ++ new_reactions ∧
    length new_files = (length raw_messages + chunk_size - 1) / chunk_size ∧
    Forall (λ file : string * MessageJson, length (zerver_message file.2) ≤ chunk_size)
           new_files ∧
    new_files.*1 = message_file <$> seq (counter (dump_counter env) st) (length new_files) ∧
    counter (dump_counter env) st' = counter (dump_counter env) st + length new_files ∧
    concat (file_ids <$> new_files) = batch_ids env (message_counter st) raw_messages ∧
    message_counter st' = message_counter st + length raw_messages ∧
    r_id <$> new_reactions = seq (counter "reaction" st) (length new_reactions) ∧
    counter "reaction" st' = counter "reaction" st + length new_reactions ∧
    Forall (λ r, r_message r ∈ batch_ids env (message_counter st) raw_messages) new_reactions.
Proof.
  unfold process_messages. intros H.
  apply bind_inv in H as (raw_messages & st1 & Hconv & Hrun).
  pose proof (convert_messages_outputs _ _ _ _ _ _ Hconv) as (Hc & Hr & Hf & Hl).
  pose proof (process_list_in_batches_inv env raw_messages chunk_size is_pm_data st1 st'
                ltac:(unfold chunk_size; lia) Hrun) as Hres.
  pose proof (process_list_in_batches_numbering _ _ _ _ _ _ Hrun)
    as [(rs & Hrs & Hrid & Hrc) (fs & Hfs & Hnames & Hdc)].
  destruct (emit_run_spec env (λ lst, process_raw_message_batch env lst is_pm_data)
              raw_messages chunk_size st1 (process_raw_message_batch_emits env is_pm_data)
              ltac:(unfold chunk_size; lia) Hres)
    as (st'' & new_files & Hrun' & Hfiles & Hmsgs & _ & Hids & [Hmc (rs' & Hrs' & Hrm) _ _]).
  rewrite Hrun in Hrun'. injection Hrun' as <-.
  assert (fs = new_files) as -> by (rewrite Hfiles in Hfs; by apply app_inv_head in Hfs).
  assert (rs' = rs) as -> by (rewrite Hrs in Hrs'; by apply app_inv_head in Hrs').
  assert (Hmc1 : message_counter st1 = message_counter st)
    by (unfold message_counter; by rewrite Hc).
  assert (Hcnt : ∀ name, counter name st1 = counter name st)
    by (intros name; unfold counter; by rewrite Hc).
  rewrite Hmc1 in *. rewrite !Hcnt in *.
  exists raw_messages, st1, new_files, rs. split; [done|].
  split; [by rewrite Hfiles, Hf|]. split; [by rewrite Hrs, Hr|].
  assert (Hlen : length new_files
                 = length (chunks_from (S (length raw_messages)) raw_messages chunk_size 0)).
  { rewrite <- (length_fmap (λ file : string * MessageJson, zerver_message file.2)), Hmsgs.
    apply files_messages_length. }
  split_and!; try done.
  - rewrite Hlen, <- (length_fmap length), chunks_from_lengths, Nat.sub_0_r.
    apply chunk_sizes_length; unfold chunk_size; lia.
  - apply Forall_fmap with (f := λ file : string * MessageJson, zerver_message file.2)
                           (P := λ messages, length messages ≤ chunk_size).
    rewrite Hmsgs. apply files_messages_bounded, chunks_from_bounded.
Qed.
(** ** The names of the message files *)

Lemma pretty_N_go_head x s :
  (0 < x)%N → ∃ c t, pretty_N_go x s = String c t ∧ c ≠ "0"%char.
Proof.
  revert s. induction (N.lt_wf_0 x) as [x _ IH]; intros s Hx.
  rewrite pretty_N_go_step by done.
  assert (0 < x < 10 ∨ 10 ≤ x)%N as [[_ Hlt]|Hge] by lia.
  - rewrite N.div_small, N.mod_small, pretty_N_go_0 by done.
    eexists _, _. split; [done|].
    assert (x = 1 ∨ x = 2 ∨ x = 3 ∨ x = 4 ∨ x = 5 ∨ x = 6 ∨ x = 7 ∨ x = 8 ∨ x = 9)%N
      as Hcases by lia.
    by destruct Hcases as [->|[->|[->|[->|[->|[->|[->|[->| ->]]]]]]]].
  - apply IH; [by apply N.div_lt|]. apply N.div_str_pos. lia.
Qed.

Lemma str_numeral n : numeral (Py.str n).
Proof.
  unfold numeral, Py.str, pretty, pretty_nat, pretty, pretty_N.
  case_decide; [by left|]. right. apply pretty_N_go_head. lia.
Qed.

Lemma zeros_numeral_inj k1 k2 d1 d2 :
  numeral d1 → numeral d2 →
  Py.zeros k1 +:+ d1 = Py.zeros k2 +:+ d2 → d1 = d2.
Proof.
  intros H1 H2. revert k2.
  induction k1 as [|k1 IH]; intros [|k2]; cbn [Py.zeros];
    rewrite ?PyFacts.app_cons, ?PyFacts.app_nil_l.
  - done.
  - intros ->. exfalso. destruct H1 as [H1|(c & t & H1 & Hc)].
    + injection H1 as H1. destruct k2; [|discriminate H1].
      simpl in H1. rewrite PyFacts.app_nil_l in H1.
      destruct H2 as [->|(c & t & -> & _)]; discriminate.
    + injection H1 as <- _. done.
  - intros <-. exfalso. destruct H2 as [H2|(c & t & H2 & Hc)].
    + injection H2 as H2. destruct k1; [|discriminate H2].
      simpl in H2. rewrite PyFacts.app_nil_l in H2.
      destruct H1 as [->|(c & t & -> & _)]; discriminate.
    + injection H2 as <- _. done.
  - intros [= H]. by eapply IH.
Qed.

Lemma format_06_inj a b : Py.format_06 a = Py.format_06 b → a = b.
Proof.
  unfold Py.format_06. intros H.
  apply zeros_numeral_inj in H; [|apply str_numeral..].
  by apply (inj pretty) in H.
Qed.

Lemma app_inj_r s1 s2 t : s1 +:+ t = s2 +:+ t → s1 = s2.
Proof.
  intros H. pose proof (f_equal String.length H) as Hlen.
  rewrite !PyFacts.length_app in Hlen.
  assert (String.length s1 = String.length s2) as Hl by lia. clear Hlen.
  revert s2 H Hl. induction s1 as [|c s1 IH]; intros [|c' s2] H Hl; try discriminate.
  - done.
  - rewrite !PyFacts.app_cons in H. injection H as <- H. injection Hl as Hl.
    f_equal. by apply IH.
Qed.

Lemma message_file_inj a b : message_file a = message_file b → a = b.
Proof.
  unfold message_file. intros H.
  apply (inj (String.app "/messages-")) in H.
  by apply app_inj_r, format_06_inj in H.
Qed.

Lemma message_files_NoDup (new_files : list (string * MessageJson)) next :
  new_files.*1 = message_file <$> seq next (length new_files) → NoDup new_files.*1.
Proof.
  intros ->. apply NoDup_fmap_2_strong; [|apply NoDup_seq].
  intros a b _ _. apply message_file_inj.
Qed.

(** X10.  The files of one run of [process_messages] over messages that
    convert and whose mentions resolve: the run returns; it writes one file
    for every 1000 converted messages, and one more for what remains (none
    at all when there is nothing to write); no file holds more than 1000
    messages; the files are named [messages-NNNNNN.json] after the
    consecutive numbers that the file counter hands out, so that no two of
    them share a name. *)
Theorem process_messages_writes_numbered_files env is_pm_data messages raw_messages st st1 :
  convert_messages env is_pm_data messages st = Ok (raw_messages, st1) →
  Forall (mentions_resolvable env) raw_messages →
  ∃ st' new_files,
    process_messages env is_pm_data messages st = Ok (tt, st') ∧
    files st' = files st ++ new_files ∧
    length new_files = (length raw_messages + chunk_size - 1) / chunk_size ∧
    Forall (λ file : string * MessageJson, length (zerver_message file.2) ≤ chunk_size)
           new_files ∧
    new_files.*1 = message_file <$> seq (counter (dump_counter env) st) (length new_files) ∧
    NoDup new_files.*1 ∧
    counter (dump_counter env) st' = counter (dump_counter env) st + length new_files.
Proof.
  intros Hconv Hres.
  destruct (emit_run_spec env (λ lst, process_raw_message_batch env lst is_pm_data)
              raw_messages chunk_size st1 (process_raw_message_batch_emits env is_pm_data)
              ltac:(unfold chunk_size; lia) Hres)
    as (st' & new_files0 & Hrun & _).
  assert (Hok : process_messages env is_pm_data messages st = Ok (tt, st')).
  { unfold process_messages. by rewrite bind_Ok with (1 := Hconv). }
  destruct (process_messages_run _ _ _ _ _ Hok)
    as (raws & st1' & new_files & new_reactions & Hconv' & Hf & _ & Hlen & Hsize & Hnames
        & Hdc & _).
  rewrite Hconv in Hconv'. injection Hconv' as <- <-.
  exists st', new_files. split_and!; try done. by eapply message_files_NoDup.
Qed.

(** X11.  The message stage of [do_convert_data], the channel messages and
    then the private messages, when it returns: the two runs draw on the
    same counters, so no message id is written twice, in one file or in two,
    every written id is one that the stage drew from the message counter, the
    files of both runs are named after consecutive numbers and no two share
    a name, the reactions added are numbered consecutively, and each belongs
    to a written message. *)
Theorem message_stage_never_reuses_a_number env messages st st' :
  convert_all_messages env messages st = Ok (tt, st') →
  ∃ new_files new_reactions,
    files st' = files st ++ new_files ∧
    total_reactions st' = total_reactions st ++ new_reactions ∧
    NoDup (concat (file_ids <$> new_files)) ∧
    (∀ id, id ∈ concat (file_ids <$> new_files) →
           message_counter st ≤ id < message_counter st') ∧
    new_files.*1 = message_file <$> seq (counter (dump_counter env) st) (length new_files) ∧
    NoDup new_files.*1 ∧
    r_id <$> new_reactions = seq (counter "reaction" st) (length new_reactions) ∧
    Forall (λ r, r_message r ∈ concat (file_ids <$> new_files)) new_reactions.
Proof.
  unfold convert_all_messages. intros H.
  apply bind_inv in H as ([] & st1 & H1 & H2).
  destruct (process_messages_run _ _ _ _ _ H1)
    as (raws1 & s1 & files1 & reactions1 & _ & Hf1 & Hr1 & _ & _ & Hn1 & Hd1 & Hi1 & Hm1
        & Hrid1 & Hrc1 & Hrm1).
  destruct (process_messages_run _ _ _ _ _ H2)
    as (raws2 & s2 & files2 & reactions2 & _ & Hf2 & Hr2 & _ & _ & Hn2 & Hd2 & Hi2 & Hm2
        & Hrid2 & Hrc2 & Hrm2).
  exists (files1 ++ files2), (reactions1 ++ reactions2).
  assert (Hnames : (files1 ++ files2).*1
                   = message_file <$> seq (counter (dump_counter env) st)
                                          (length (files1 ++ files2))).
  { by rewrite fmap_app, length_app, seq_app, fmap_app, Hn1, Hn2, Hd1. }
  rewrite !fmap_app, concat_app, Hi1, Hi2.
  split_and!.
  - by rewrite Hf2, Hf1, app_assoc.
  - by rewrite Hr2, Hr1, app_assoc.
  - apply NoDup_app. split_and!; [apply batch_ids_NoDup| |apply batch_ids_NoDup].
    intros id Ha%batch_ids_bounds Hb%batch_ids_bounds. lia.
  - intros id [Hin|Hin]%elem_of_app; apply batch_ids_bounds in Hin; lia.
  - by rewrite <- fmap_app.
  - rewrite <- fmap_app. by eapply message_files_NoDup.
  - by rewrite length_app, seq_app, Hrid1, Hrid2, Hrc1.
  - apply Forall_app. split; (eapply Forall_impl; [eassumption|]);
      intros r Hr; apply elem_of_app; auto.
Qed.
(** ** Python dictionaries *)

Module PyDictFacts.

Lemma get_set {V} (d : PyDict.t V) key value key' :
  PyDict.get (PyDict.set d key value) key'
  = if decide (key = key') then Some value else PyDict.get d key'.
Proof.
  induction d as [|[k v] d IH]; simpl.
  { by destruct (decide (key = key')). }
  destruct (decide (k = key)) as [->|Hk]; simpl.
  - by destruct (decide (key = key')).
  - rewrite IH. destruct (decide (k = key')) as [->|]; [|done].
    by rewrite decide_False by done.
Qed.

Lemma get_None {V} (d : PyDict.t V) key : PyDict.get d key = None ↔ key ∉ PyDict.keys d.
Proof.
  unfold PyDict.keys. induction d as [|[k v] d IH]; simpl.
  { split; [intros _ []%elem_of_nil|done]. }
  rewrite not_elem_of_cons. destruct (decide (k = key)) as [->|Hk].
  - split; [done|]. by intros [? _].
  - rewrite IH. naive_solver.
Qed.

Lemma set_fresh {V} (d : PyDict.t V) key value :
  key ∉ PyDict.keys d → PyDict.set d key value = d ++ [(key, value)].
Proof.
  unfold PyDict.keys. induction d as [|[k v] d IH]; simpl; [done|].
  rewrite not_elem_of_cons. intros [Hk Hd].
  rewrite decide_False by done. by rewrite IH.
Qed.

Lemma keys_set {V} (d : PyDict.t V) key value :
  PyDict.keys (PyDict.set d key value)
  = if decide (key ∈ PyDict.keys d) then PyDict.keys d else PyDict.keys d ++ [key].
Proof.
  unfold PyDict.keys. induction d as [|[k v] d IH]; [done|].
  cbn [PyDict.set]. destruct (decide (k = key)) as [->|Hk]; rewrite !fmap_cons; cbn [fst].
  - rewrite decide_True; [done|]. by left.
  - rewrite IH. destruct (decide (key ∈ d.*1)) as [Hin|Hin].
    + rewrite decide_True; [done|]. by right.
    + rewrite decide_False; [done|]. rewrite not_elem_of_cons. done.
Qed.

Lemma keys_set_NoDup {V} (d : PyDict.t V) key value :
  NoDup (PyDict.keys d) → NoDup (PyDict.keys (PyDict.set d key value)).
Proof.
  intros Hnd. rewrite keys_set. case_decide; [done|].
  apply NoDup_app. split; [done|]. split; [|apply NoDup_singleton].
  intros k Hk ->%list_elem_of_singleton. done.
Qed.

End PyDictFacts.

(** ** The indexes of the users *)

Lemma last_filter_snoc {A} (P : A → Prop) `{∀ x, Decision (P x)} (l : list A) x :
  last (filter P (l ++ [x])) = if decide (P x) then Some x else last (filter P l).
Proof.
  rewrite filter_app, filter_cons, filter_nil. case_decide.
  - by rewrite last_snoc.
  - by rewrite app_nil_r.
Qed.

Lemma map_user_id_to_user_run user_data_list :
  NoDup (PyDict.keys (map_user_id_to_user user_data_list)) ∧
  (∀ user_id,
     PyDict.get (map_user_id_to_user user_data_list) user_id
     = last (filter (λ user, u_id user = user_id) user_data_list)) ∧
  (NoDup (u_id <$> user_data_list) →
   map_user_id_to_user user_data_list = (λ user, (u_id user, user)) <$> user_data_list).
Proof.
  unfold map_user_id_to_user.
  induction user_data_list as [|user users IH] using rev_ind.
  { simpl. split; [constructor|]. split; [done|done]. }
  rewrite foldl_snoc. destruct IH as (Hnd & Hget & Hlist). split_and!.
  - by apply PyDictFacts.keys_set_NoDup.
  - intros user_id. rewrite PyDictFacts.get_set, last_filter_snoc, Hget. done.
  - rewrite fmap_app. intros [Hnd' [Hfresh _]]%NoDup_app.
    rewrite Hlist by done. rewrite fmap_app. apply PyDictFacts.set_fresh.
    unfold PyDict.keys. rewrite <- list_fmap_compose.
    intros Hin. apply (Hfresh (u_id user)); [done|]. simpl. by left.
Qed.

(** X12.  [map_user_id_to_user] makes a dictionary whose keys are distinct,
    in which an id holds the last user of the collection with that id; when
    the users have distinct ids, it lists every user under its id, in the
    order of the collection. *)
Theorem map_user_id_to_user_indexes_the_users user_data_list :
  NoDup (PyDict.keys (map_user_id_to_user user_data_list)) ∧
  (∀ user_id,
     PyDict.get (map_user_id_to_user user_data_list) user_id
     = last (filter (λ user, u_id user = user_id) user_data_list)) ∧
  (NoDup (u_id <$> user_data_list) →
   map_user_id_to_user user_data_list = (λ user, (u_id user, user)) <$> user_data_list).
Proof. apply map_user_id_to_user_run. Qed.

Lemma map_username_to_user_id_origin d (m0 : gmap string string) username user_id :
  foldl (λ username_to_user_id_map (item : string * User),
           <[u_username item.2 := item.1]> username_to_user_id_map) m0 d
    !! username = Some user_id →
  m0 !! username = Some user_id ∨
  ∃ item, item ∈ d ∧ u_username item.2 = username ∧ item.1 = user_id.
Proof.
  revert m0. induction d as [|item d IH]; intros m0; simpl; [by left|].
  intros [H|(item' & Hin & Hn & Hi)]%IH.
  - rewrite lookup_insert in H. case_decide as Hk; [|by left].
    injection H as <-. right. exists item. split; [by left|done].
  - right. exists item'. split; [by right|done].
Qed.

Lemma map_username_to_user_id_keeps d (m0 : gmap string string) username user_id :
  m0 !! username = Some user_id →
  (∀ item, item ∈ d → u_username item.2 ≠ username) →
  foldl (λ username_to_user_id_map (item : string * User),
           <[u_username item.2 := item.1]> username_to_user_id_map) m0 d
    !! username = Some user_id.
Proof.
  revert m0. induction d as [|item d IH]; intros m0 Hm Hd; simpl; [done|].
  apply IH.
  - rewrite lookup_insert_ne; [done|]. apply Hd. by left.
  - intros item' Hin. apply Hd. by right.
Qed.

(** X13.  The two indexes of the users together: for users with distinct
    ids and distinct usernames, [map_username_to_user_id] of
    [map_user_id_to_user] sends a username to an id exactly when a user of
    the collection has that username and that id. *)
Theorem username_index_names_the_users user_data_list username user_id :
  NoDup (u_id <$> user_data_list) →
  NoDup (u_username <$> user_data_list) →
  map_username_to_user_id (map_user_id_to_user user_data_list) !! username = Some user_id
  ↔ ∃ user, user ∈ user_data_list ∧ u_username user = username ∧ u_id user = user_id.
Proof.
  intros Hids Hnames.
  destruct (map_user_id_to_user_run user_data_list) as (_ & _ & Hlist).
  rewrite Hlist by done. clear Hlist.
  unfold map_username_to_user_id. split.
  - intros [H|((k & user) & Hin & Hn & Hi)]%map_username_to_user_id_origin.
    { by rewrite lookup_empty in H. }
    apply list_elem_of_fmap in Hin as (user' & [= -> ->] & Hin). simpl in *. eauto.
  - intros (user & Hin & <- & <-).
    apply list_elem_of_split in Hin as (pre & post & ->).
    rewrite fmap_app, foldl_app, fmap_cons. cbn [foldl]. simpl.
    apply map_username_to_user_id_keeps; [apply lookup_insert_eq|].
    intros item (user' & -> & Hin)%list_elem_of_fmap. simpl. intros Heq.
    rewrite fmap_app, fmap_cons in Hnames.
    apply NoDup_app in Hnames as (_ & _ & Hnd). apply NoDup_cons in Hnd as [Hfresh _].
    apply Hfresh. rewrite <- Heq. by apply list_elem_of_fmap_2.
Qed.
(** ** The users *)

(** Keys that a mapper has not seen are numbered from its counter, in the
    order in which they are asked for. *)
Lemma gets_fresh_keys keys m :
  NoDup keys →
  (∀ key, key ∈ keys → IdMapper.map m !! key = None) →
  IdMapper.cnt (IdMapper.gets keys m) = IdMapper.cnt m + length keys ∧
  ∀ i key, keys !! i = Some key →
    IdMapper.map (IdMapper.gets keys m) !! key = Some (IdMapper.cnt m + i).
Proof.
  revert m. induction keys as [|k keys IH]; intros m Hnd Hfresh.
  { simpl. split; [lia|]. intros i key. by rewrite lookup_nil. }
  apply NoDup_cons in Hnd as [Hk Hnd].
  assert (Hget : IdMapper.get k m
                 = (IdMapper.cnt m,
                    {| IdMapper.map := <[k := IdMapper.cnt m]> (IdMapper.map m);
                       IdMapper.cnt := S (IdMapper.cnt m) |})).
  { apply IdMapperFacts.get_fresh, Hfresh. by left. }
  change (IdMapper.gets (k :: keys) m) with (IdMapper.gets keys (IdMapper.get k m).2).
  rewrite Hget. cbn [snd].
  destruct (IH {| IdMapper.map := <[k := IdMapper.cnt m]> (IdMapper.map m);
                  IdMapper.cnt := S (IdMapper.cnt m) |}) as [Hcnt Hmap]; [done| |].
  { intros key Hin. simpl. rewrite lookup_insert_ne by (by intros ->).
    apply Hfresh. by right. }
  simpl in Hcnt, Hmap. split; [simpl; lia|].
  intros [|i] key; simpl.
  - intros [= <-]. rewrite Nat.add_0_r.
    apply IdMapperFacts.gets_preserves. simpl. apply lookup_insert_eq.
  - intros Hi. rewrite (Hmap i key Hi). f_equal. lia.
Qed.

Lemma add_user_inv user user_handler user_handler' :
  add_user user user_handler = Ok user_handler' →
  user_handler' = user_handler ++ [user] ∧ zu_id user ∉ zu_id <$> user_handler.
Proof.
  unfold add_user.
  destruct (list_find _ user_handler) as [[i user']|] eqn:Hfind; [discriminate|].
  intros [= <-]. split; [done|].
  apply list_find_None in Hfind.
  intros (user' & Heq & Hin)%list_elem_of_fmap.
  rewrite Forall_forall in Hfind. by apply (Hfind user' Hin).
Qed.

Lemma add_user_fresh user user_handler :
  zu_id user ∉ zu_id <$> user_handler →
  add_user user user_handler = Ok (user_handler ++ [user]).
Proof.
  intros Hfresh. unfold add_user.
  destruct (list_find _ user_handler) as [[i user']|] eqn:Hfind; [|done].
  apply list_find_Some in Hfind as (Hin%list_elem_of_lookup_2 & Heq & _).
  exfalso. apply Hfresh. rewrite <- Heq. by apply list_elem_of_fmap_2.
Qed.

(** One account, whatever the stores: if it is converted, the mapper has been
    asked for its id, and the user built is added at the end. *)
Lemma process_user_inv realm_id domain_name timezone_now m h item m' h' :
  process_user realm_id domain_name timezone_now (m, h) item = Ok (m', h') →
  m' = (IdMapper.get item.1 m).2 ∧
  has_address item.2 ∧
  ∃ user, h' = h ++ [user] ∧
          zu_id user = (IdMapper.get item.1 m).1 ∧
          (zu_id user ∉ zu_id <$> h) ∧
          converts_to domain_name item user.
Proof.
  unfold process_user. cbn [fst snd].
  destruct (IdMapper.get item.1 m) as [id m1]. cbn [fst snd].
  unfold has_address, converts_to, address_of.
  destruct (decide (u_type item.2 = "user")) as [Huser|Huser].
  - rewrite (bool_decide_false (u_type item.2 ≠ "user")) by (by intros ?).
    rewrite (bool_decide_true (u_type item.2 = "user")) by done.
    cbn [andb negb].
    destruct (u_emails item.2) as [[|address addresses]|]; [discriminate| |discriminate].
    cbn [lookup list_lookup].
    destruct (add_user _ h) as [h1|] eqn:Hadd; [|discriminate].
    intros [= <- <-]. apply add_user_inv in Hadd as [-> Hfresh].
    split; [done|]. split; [done|]. eexists. split; [done|]. simpl.
    split_and!; try done; intros; repeat case_decide; done.
  - rewrite (bool_decide_true (u_type item.2 ≠ "user")) by done.
    rewrite (bool_decide_false (u_type item.2 = "user")) by done.
    cbn [andb negb].
    destruct (u_emails item.2) as [[|address addresses]|];
      cbn [list_truthy negb lookup list_lookup];
      (destruct (add_user _ h) as [h1|] eqn:Hadd; [|discriminate]);
      intros [= <- <-]; apply add_user_inv in Hadd as [-> Hfresh];
      (split; [done|]); (split; [done|]); (eexists; split; [done|]); simpl;
      (split_and!; try done); intros; repeat case_decide; done.
Qed.

(** One account whose id the mapper has not seen, in stores whose users
    have ids below the counter of the mapper: it is converted and given the
    counter as its id, unless it is a regular user without an address. *)
Lemma process_user_step realm_id domain_name timezone_now m h item :
  IdMapper.map m !! item.1 = None →
  Forall (λ user, zu_id user < IdMapper.cnt m) h →
  (∃ m' h', process_user realm_id domain_name timezone_now (m, h) item = Ok (m', h'))
  ∨ (∃ e, process_user realm_id domain_name timezone_now (m, h) item = Raise e ∧
          lacks_address item e).
Proof.
  intros Hfresh Hh. unfold process_user, lacks_address. cbn [fst snd].
  rewrite (IdMapperFacts.get_fresh _ _ Hfresh). cbn [fst snd].
  assert (Hadd : ∀ user, zu_id user = IdMapper.cnt m →
                         add_user user h = Ok (h ++ [user])).
  { intros user Hid. apply add_user_fresh.
    intros (user' & Heq & Hin)%list_elem_of_fmap.
    rewrite Forall_forall in Hh. specialize (Hh user' Hin). lia. }
  destruct (decide (u_type item.2 = "user")) as [Huser|Huser].
  - rewrite (bool_decide_false (u_type item.2 ≠ "user")) by (by intros ?).
    cbn [andb negb].
    destruct (u_emails item.2) as [[|address addresses]|].
    + right. eexists. split; [done|]. split; [done|]. by right.
    + left. cbn [lookup list_lookup]. rewrite Hadd by done. eauto.
    + right. eexists. split; [done|]. split; [done|]. by left.
  - left. rewrite (bool_decide_true (u_type item.2 ≠ "user")) by done.
    cbn [andb negb].
    destruct (u_emails item.2) as [[|address addresses]|]; simpl;
      rewrite Hadd by done; eauto.
Qed.

Lemma process_users_loop_inv realm_id domain_name timezone_now d :
  ∀ m h m' h',
    fold_result (process_user realm_id domain_name timezone_now) d (m, h) = Ok (m', h') →
    m' = IdMapper.gets d.*1 m ∧
    Forall (λ item, has_address item.2) d ∧
    (NoDup (zu_id <$> h) → NoDup (zu_id <$> h')) ∧
    ∃ new, h' = h ++ new ∧
           Forall2 (λ user item, converts_to domain_name item user ∧
                                 IdMapper.map m' !! item.1 = Some (zu_id user)) new d.
Proof.
  induction d as [|item d IH]; intros m h m' h'.
  { intros [= <- <-]. split; [done|]. split; [done|]. split; [done|].
    exists []. by rewrite app_nil_r. }
  cbn [fold_result].
  destruct (process_user _ _ _ (m, h) item) as [[m1 h1]|] eqn:Hstep; [|discriminate].
  apply process_user_inv in Hstep as (-> & Haddr & user & -> & Hid & Hfresh & Hconv).
  intros Hrest. destruct (IH _ _ _ _ Hrest) as (-> & Haddrs & Hnd & new & -> & Hnew).
  split; [done|]. split; [by constructor|]. split.
  - intros Hh. apply Hnd. rewrite fmap_app. apply NoDup_app. split; [done|].
    split; [|apply NoDup_singleton].
    intros id Hin ->%list_elem_of_singleton. done.
  - exists (user :: new). split; [by rewrite <- app_assoc|].
    constructor; [|done]. split; [done|]. rewrite Hid.
    apply IdMapperFacts.gets_preserves, IdMapperFacts.get_recorded.
Qed.

Lemma process_users_loop realm_id domain_name timezone_now d :
  ∀ m h,
    NoDup d.*1 →
    (∀ key, key ∈ d.*1 → IdMapper.map m !! key = None) →
    Forall (λ user, zu_id user < IdMapper.cnt m) h →
    (∃ m' h', fold_result (process_user realm_id domain_name timezone_now) d (m, h)
              = Ok (m', h'))
    ∨ (∃ e item, fold_result (process_user realm_id domain_name timezone_now) d (m, h)
                 = Raise e ∧ item ∈ d ∧ lacks_address item e).
Proof.
  induction d as [|item d IH]; intros m h Hnd Hfresh Hh.
  { left. by eexists _, _. }
  rewrite fmap_cons in Hnd, Hfresh. apply NoDup_cons in Hnd as [Hkey Hnd].
  assert (Hitem : IdMapper.map m !! item.1 = None) by (apply Hfresh; by left).
  cbn [fold_result].
  destruct (process_user_step realm_id domain_name timezone_now m h item Hitem Hh)
    as [(m1 & h1 & Hstep)|(e & Hstep & Hlack)].
  - rewrite Hstep.
    pose proof (process_user_inv _ _ _ _ _ _ _ _ Hstep) as (-> & _ & user & -> & Hid & _).
    rewrite (IdMapperFacts.get_fresh _ _ Hitem) in Hid |- *. cbn [fst snd] in Hid |- *.
    destruct (IH {| IdMapper.map := <[item.1 := IdMapper.cnt m]> (IdMapper.map m);
                    IdMapper.cnt := S (IdMapper.cnt m) |} (h ++ [user]))
      as [?|(e & item' & Hrun & Hin & Hlack)]; [done| | |by left|].
    + intros key Hin. simpl. rewrite lookup_insert_ne by (by intros <-).
      apply Hfresh. by right.
    + simpl. apply Forall_app. split.
      * eapply Forall_impl; [exact Hh|]. simpl. lia.
      * apply Forall_singleton. lia.
    + right. exists e, item'. split; [done|]. split; [by right|done].
  - right. exists e, item. rewrite Hstep. split; [done|]. split; [by left|done].
Qed.

Lemma lacks_address_has_not item e : lacks_address item e → ¬ has_address item.2.
Proof.
  intros [Huser [[Hemails _]|[Hemails _]]] Haddr;
    specialize (Haddr Huser); by rewrite Hemails in Haddr.
Qed.

(** X14.  [process_users] from an empty user handler and a new mapper, over
    a dictionary (keys distinct) in which every regular user has an address:
    it returns; the mapper has been asked for the keys in order and for
    nothing else; the users built are in the order of the dictionary and
    carry the consecutive ids from the floor of the mapper, each the id that
    the mapper holds for its key; and each is built from its account as
    [converts_to] says. *)
Theorem process_users_numbers_the_users d realm_id domain_name timezone_now floor :
  NoDup (PyDict.keys d) →
  Forall (λ item : string * User, has_address item.2) d →
  ∃ user_id_mapper user_handler,
    process_users d realm_id domain_name timezone_now [] (IdMapper.new floor)
      = Ok (user_id_mapper, user_handler) ∧
    user_id_mapper = IdMapper.gets (PyDict.keys d) (IdMapper.new floor) ∧
    zu_id <$> user_handler = seq floor (length d) ∧
    Forall2 (λ user item, converts_to domain_name item user ∧
                          IdMapper.map user_id_mapper !! item.1 = Some (zu_id user))
            user_handler d.
Proof.
  unfold PyDict.keys, process_users. intros Hnd Haddr.
  assert (Hfresh : ∀ key, key ∈ d.*1 → IdMapper.map (IdMapper.new floor) !! key = None).
  { intros key _. apply lookup_empty. }
  destruct (process_users_loop realm_id domain_name timezone_now d (IdMapper.new floor) []
              Hnd Hfresh (Forall_nil_2 _))
    as [(m' & h' & Hrun)|(e & item & _ & Hin & Hlack)].
  2:{ exfalso. apply lacks_address_has_not in Hlack. apply Hlack.
      rewrite Forall_forall in Haddr. by apply Haddr. }
  exists m', h'. split; [done|].
  destruct (process_users_loop_inv _ _ _ _ _ _ _ _ Hrun) as (-> & _ & _ & new & -> & Hnew).
  rewrite app_nil_l in *. split; [done|]. split; [|done].
  destruct (gets_fresh_keys d.*1 (IdMapper.new floor) Hnd Hfresh) as [_ Hmap].
  simpl in Hmap. apply list_eq. intros i. rewrite list_lookup_fmap.
  destruct (new !! i) as [user|] eqn:Hu; simpl.
  - destruct (Forall2_lookup_l _ _ _ _ _ Hnew Hu) as (item & Hi & _ & Hid).
    assert (Hk : d.*1 !! i = Some item.1) by (by rewrite list_lookup_fmap, Hi).
    rewrite (Hmap i _ Hk) in Hid. injection Hid as <-.
    apply lookup_lt_Some in Hi. by rewrite lookup_seq_lt.
  - apply lookup_ge_None in Hu. rewrite (Forall2_length _ _ _ Hnew) in Hu.
    by rewrite lookup_seq_ge.
Qed.

(** X15.  When [process_users] fails.  From an empty user handler and a new
    mapper, over a dictionary (keys distinct): it returns exactly when every
    regular user has an address; otherwise the exception is that of an
    account of type ["user"], the [KeyError] of [emails] when the key is
    missing, [IndexError] when the list of addresses is empty.  No account of
    another type makes it fail, and no user is ever registered twice. *)
Theorem process_users_fails_only_for_a_user_without_address
    d realm_id domain_name timezone_now floor :
  NoDup (PyDict.keys d) →
  ((∃ stores, process_users d realm_id domain_name timezone_now [] (IdMapper.new floor)
              = Ok stores)
   ↔ Forall (λ item : string * User, has_address item.2) d) ∧
  (∀ e, process_users d realm_id domain_name timezone_now [] (IdMapper.new floor) = Raise e →
        ∃ item, item ∈ d ∧ lacks_address item e).
Proof.
  unfold PyDict.keys, process_users. intros Hnd.
  assert (Hfresh : ∀ key, key ∈ d.*1 → IdMapper.map (IdMapper.new floor) !! key = None).
  { intros key _. apply lookup_empty. }
  pose proof (process_users_loop realm_id domain_name timezone_now d (IdMapper.new floor) []
                Hnd Hfresh (Forall_nil_2 _)) as Hloop.
  split; [split|].
  - intros [[m' h'] Hrun].
    by destruct (process_users_loop_inv _ _ _ _ _ _ _ _ Hrun) as (_ & Haddr & _).
  - intros Haddr. destruct Hloop as [(m' & h' & Hrun)|(e & item & _ & Hin & Hlack)]; [eauto|].
    exfalso. apply lacks_address_has_not in Hlack. apply Hlack.
    rewrite Forall_forall in Haddr. by apply Haddr.
  - intros e He. destruct Hloop as [(m' & h' & Hrun)|(e' & item & Hrun & Hin & Hlack)].
    + rewrite Hrun in He. discriminate.
    + rewrite Hrun in He. injection He as <-. eauto.
Qed.

(** ** The users, as the message stage meets them *)

Lemma get_user_of_handler user_handler user :
  NoDup (zu_id <$> user_handler) → user ∈ user_handler →
  UserHandler.get_user (zu_id user) (fields_read <$> user_handler) = Ok (fields_read user).
Proof.
  intros Hnd Hin. unfold UserHandler.get_user.
  assert (∃ i, list_find (λ u, up_id u = zu_id user) (fields_read <$> user_handler)
               = Some (i, fields_read user)) as [i ->]; [|done].
  induction user_handler as [|user' users IH]; [by apply elem_of_nil in Hin|].
  rewrite fmap_cons in Hnd. apply NoDup_cons in Hnd as [Hfresh Hnd].
  rewrite fmap_cons. cbn [list_find]. simpl.
  apply elem_of_cons in Hin as [->|Hin].
  - rewrite decide_True by done. eauto.
  - rewrite decide_False.
    + destruct (IH Hnd Hin) as [i ->]. simpl. eauto.
    + intros Heq. apply Hfresh. rewrite Heq. by apply list_elem_of_fmap_2.
Qed.

Lemma map_username_to_user_id_values d username user_id :
  map_username_to_user_id d !! username = Some user_id → user_id ∈ PyDict.keys d.
Proof.
  unfold map_username_to_user_id.
  intros [H|(item & Hin & _ & <-)]%map_username_to_user_id_origin.
  - by rewrite lookup_empty in H.
  - by apply list_elem_of_fmap_2.
Qed.

(** X16.  After [process_users] has returned, the message stage knows the
    users: with [username_to_user_id_map] made by [map_username_to_user_id]
    from the same dictionary, and the user handler holding the users built,
    in any stores whose user id mapper descends from the mapper returned,
    the users who reacted to any message are already known to the mapper,
    and the id that the mapper holds for an account of the dictionary
    resolves in the user handler to the names of that account, which is what
    a mention of the account is rewritten with. *)
Theorem converted_users_are_known_to_the_message_stage
    d realm_id domain_name timezone_now floor user_id_mapper0 user_handler0 env st :
  process_users d realm_id domain_name timezone_now [] (IdMapper.new floor)
    = Ok (user_id_mapper0, user_handler0) →
  username_to_user_id_map env = map_username_to_user_id d →
  user_handler env = fields_read <$> user_handler0 →
  (∃ keys, user_id_mapper st = IdMapper.gets keys user_id_mapper0) →
  (∀ message, reactions_known env st message) ∧
  (∀ item, item ∈ d →
     ∃ id, IdMapper.map (user_id_mapper st) !! item.1 = Some id ∧
           UserHandler.get_user id (user_handler env)
           = Ok {| up_id := id;
                   up_full_name := u_name item.2;
                   up_short_name := u_username item.2 |}).
Proof.
  unfold process_users. intros Hrun Hnames Hhandler [keys Hst].
  destruct (process_users_loop_inv _ _ _ _ _ _ _ _ Hrun)
    as (Hm & _ & Hnd & new & Hh & Hnew).
  rewrite app_nil_l in Hh. subst new. specialize (Hnd (NoDup_nil_2)).
  assert (Hknown : ∀ item, item ∈ d →
            ∃ user, user ∈ user_handler0 ∧ converts_to domain_name item user ∧
                    IdMapper.map (user_id_mapper st) !! item.1 = Some (zu_id user)).
  { intros item (i & Hi)%list_elem_of_lookup_1.
    destruct (Forall2_lookup_r _ _ _ _ _ Hnew Hi) as (user & Hu & Hconv & Hid).
    exists user. split; [by eapply list_elem_of_lookup_2|]. split; [done|].
    rewrite Hst. by apply IdMapperFacts.gets_preserves. }
  split.
  - intros message. unfold reactions_known.
    apply Forall_forall. intros entry _. apply Forall_forall. intros username _.
    intros rc_user_id Hu. rewrite Hnames in Hu.
    apply map_username_to_user_id_values in Hu.
    apply list_elem_of_fmap in Hu as (item & -> & Hin).
    destruct (Hknown item Hin) as (user & _ & _ & Hid). eauto.
  - intros item Hin. destruct (Hknown item Hin) as (user & Hu & Hconv & Hid).
    exists (zu_id user). split; [done|]. rewrite Hhandler.
    rewrite (get_user_of_handler _ _ Hnd Hu). unfold fields_read.
    destruct Hconv as (-> & -> & _). done.
Qed.
(** ** The streams *)

Lemma stream_name_and_desc_cases team_id_to_team_map channel_dict :
  match stream_name_and_desc team_id_to_team_map channel_dict with
  | Ok _ => team_is_known team_id_to_team_map channel_dict
  | Raise e => team_is_unknown team_id_to_team_map channel_dict e
  end.
Proof.
  unfold stream_name_and_desc, team_is_known, team_is_unknown.
  destruct (ch_teamId (cd_channel channel_dict)) as [[|c s]|] eqn:Hid.
  - by intros ? [= <-].
  - destruct (ch_teamMain (cd_channel channel_dict)) as [[]|] eqn:Hmain.
    + by intros ? _ _.
    + destruct (team_id_to_team_map !! String c s) eqn:Hteam.
      * intros ? [= <-] _ _. eauto.
      * exists (String c s). by split_and!.
    + destruct (team_id_to_team_map !! String c s) eqn:Hteam.
      * intros ? [= <-] _ _. eauto.
      * exists (String c s). by split_and!.
  - by intros ? [=].
Qed.

Lemma stream_name_and_desc_spec team_id_to_team_map channel_dict stream_name stream_desc :
  stream_name_and_desc team_id_to_team_map channel_dict = Ok (stream_name, stream_desc) →
  let room := cd_channel channel_dict in
  let description := default "" (cd_description channel_dict) in
  ((ch_teamId room = None ∨ ch_teamId room = Some "") →
     stream_name = cd_name channel_dict ∧ stream_desc = description) ∧
  (∀ team_id, ch_teamId room = Some team_id → team_id ≠ "" →
     ch_teamMain room = Some true →
     stream_name = "[TEAM] " +:+ cd_name channel_dict ∧ stream_desc = description) ∧
  (∀ team_id, ch_teamId room = Some team_id → team_id ≠ "" →
     ch_teamMain room ≠ Some true →
     ∃ team, team_id_to_team_map !! team_id = Some team ∧
       stream_name = cd_name channel_dict ∧
       stream_desc = "[Team " +:+ cd_name team +:+ " channel]. " +:+ description).
Proof.
  unfold stream_name_and_desc. cbv zeta.
  destruct (ch_teamId (cd_channel channel_dict)) as [[|c t]|] eqn:Hid.
  - intros [= <- <-]. split_and!; [done|by intros ? [= <-]..].
  - destruct (ch_teamMain (cd_channel channel_dict)) as [[]|] eqn:Hmain.
    + intros [= <- <-]. split_and!; [by intros [|]|done|done].
    + destruct (team_id_to_team_map !! String c t) as [team|] eqn:Hteam; [|discriminate].
      intros [= <- <-]. split_and!; [by intros [|]|done|].
      intros team_id [= <-] _ _. by exists team.
    + destruct (team_id_to_team_map !! String c t) as [team|] eqn:Hteam; [|discriminate].
      intros [= <- <-]. split_and!; [by intros [|]|done|].
      intros team_id [= <-] _ _. by exists team.
  - intros [= <- <-]. split_and!; [done|done..].
Qed.

Lemma team_is_unknown_not_known team_id_to_team_map channel_dict e :
  team_is_unknown team_id_to_team_map channel_dict e →
  ¬ team_is_known team_id_to_team_map channel_dict.
Proof.
  intros (team_id & Hid & Hne & Hmain & Hteam & _) Hknown.
  destruct (Hknown team_id Hid Hne Hmain) as [team Ht]. congruence.
Qed.

Lemma convert_channel_cases team_id_to_team_map realm_id timezone_now m streams item :
  match convert_channel team_id_to_team_map realm_id timezone_now (m, streams) item with
  | Ok (m1, streams1) =>
      m1 = (IdMapper.get item.1 m).2 ∧
      team_is_known team_id_to_team_map item.2 ∧
      ∃ stream, streams1 = streams ++ [stream] ∧
                s_id stream = (IdMapper.get item.1 m).1 ∧
                stream_of team_id_to_team_map realm_id timezone_now item stream
  | Raise e => team_is_unknown team_id_to_team_map item.2 e
  end.
Proof.
  unfold convert_channel. cbn [fst snd].
  destruct (IdMapper.get item.1 m) as [stream_id m1]. cbn [fst snd].
  pose proof (stream_name_and_desc_cases team_id_to_team_map item.2) as Hcase.
  pose proof (stream_name_and_desc_spec team_id_to_team_map item.2) as Hspec.
  unfold stream_of.
  destruct (stream_name_and_desc team_id_to_team_map item.2)
    as [[stream_name stream_desc]|e]; [|done].
  destruct (Hspec _ _ eq_refl) as (Hplain & Hmain & Hother).
  split; [done|]. split; [done|]. eexists. split; [done|]. simpl. by split_and!.
Qed.

Lemma convert_channel_data_loop team_id_to_team_map realm_id timezone_now d :
  ∀ m streams,
    match fold_result (convert_channel team_id_to_team_map realm_id timezone_now) d
            (m, streams) with
    | Ok (m', streams') =>
        m' = IdMapper.gets d.*1 m ∧
        Forall (λ item, team_is_known team_id_to_team_map item.2) d ∧
        ∃ new, streams' = streams ++ new ∧
               Forall2 (λ stream item,
                          stream_of team_id_to_team_map realm_id timezone_now item stream ∧
                          IdMapper.map m' !! item.1 = Some (s_id stream)) new d
    | Raise e => ∃ item, item ∈ d ∧ team_is_unknown team_id_to_team_map item.2 e
    end.
Proof.
  induction d as [|item d IH]; intros m streams.
  { simpl. split; [done|]. split; [done|]. exists []. by rewrite app_nil_r. }
  cbn [fold_result].
  pose proof (convert_channel_cases team_id_to_team_map realm_id timezone_now m streams item)
    as Hstep.
  destruct (convert_channel _ _ _ (m, streams) item) as [[m1 streams1]|e].
  - destruct Hstep as (-> & Hknown1 & stream & -> & Hid & Hstream).
    specialize (IH (IdMapper.get item.1 m).2 (streams ++ [stream])).
    destruct (fold_result _ d _) as [[m' streams']|e].
    + destruct IH as (-> & Hknown & new & -> & Hnew).
      split; [done|]. split; [by constructor|].
      exists (stream :: new). split; [by rewrite <- app_assoc|].
      constructor; [|done]. split; [done|].
      apply IdMapperFacts.gets_preserves. rewrite Hid.
      apply IdMapperFacts.get_recorded.
    + destruct IH as (item' & Hin & Hunknown). exists item'. split; [by right|done].
  - exists item. split; [by left|done].
Qed.

(** X17.  [convert_channel_data] with a new mapper, over a room dictionary
    (keys distinct) in which the team of every team channel is known: it
    returns one stream per room, in the order of the dictionary; the streams
    carry the consecutive ids from the floor of the mapper, each the id that
    the mapper holds for its room afterwards; and each stream is made from
    its room as [stream_of] lists: the name of the room, with ["[TEAM] "]
    before it for the main channel of a team; the description of the room,
    with ["[Team T channel]. "] before it for another channel of team [T];
    invite-only exactly for a room of type ["p"]; not deactivated; with the
    realm id and the reading of the clock. *)
Theorem convert_channel_data_numbers_the_streams
    d team_id_to_team_map realm_id timezone_now floor :
  NoDup (PyDict.keys d) →
  Forall (λ item : string * ChannelDict, team_is_known team_id_to_team_map item.2) d →
  ∃ stream_id_mapper zerver_stream,
    convert_channel_data d team_id_to_team_map (IdMapper.new floor) realm_id timezone_now
      = Ok (stream_id_mapper, zerver_stream) ∧
    stream_id_mapper = IdMapper.gets (PyDict.keys d) (IdMapper.new floor) ∧
    s_id <$> zerver_stream = seq floor (length d) ∧
    Forall2 (λ stream item,
               stream_of team_id_to_team_map realm_id timezone_now item stream ∧
               IdMapper.map stream_id_mapper !! item.1 = Some (s_id stream))
            zerver_stream d.
Proof.
  unfold PyDict.keys, convert_channel_data. intros Hnd Hknown.
  pose proof (convert_channel_data_loop team_id_to_team_map realm_id timezone_now d
                (IdMapper.new floor) []) as Hloop.
  destruct (fold_result _ d (IdMapper.new floor, [])) as [[m' streams']|e].
  2:{ destruct Hloop as (item & Hin & Hunknown).
      apply team_is_unknown_not_known in Hunknown. exfalso. apply Hunknown.
      rewrite Forall_forall in Hknown. by apply Hknown. }
  destruct Hloop as (-> & _ & new & -> & Hnew). rewrite app_nil_l in *.
  eexists _, _. split; [done|]. split; [done|]. split; [|done].
  assert (Hfresh : ∀ key, key ∈ d.*1 → IdMapper.map (IdMapper.new floor) !! key = None).
  { intros key _. apply lookup_empty. }
  destruct (gets_fresh_keys d.*1 (IdMapper.new floor) Hnd Hfresh) as [_ Hmap].
  simpl in Hmap. apply list_eq. intros i. rewrite list_lookup_fmap.
  destruct (new !! i) as [stream|] eqn:Hs; simpl.
  - destruct (Forall2_lookup_l _ _ _ _ _ Hnew Hs) as (item & Hi & _ & Hid).
    assert (Hk : d.*1 !! i = Some item.1) by (by rewrite list_lookup_fmap, Hi).
    rewrite (Hmap i _ Hk) in Hid. injection Hid as <-.
    apply lookup_lt_Some in Hi. by rewrite lookup_seq_lt.
  - apply lookup_ge_None in Hs. rewrite (Forall2_length _ _ _ Hnew) in Hs.
    by rewrite lookup_seq_ge.
Qed.

(** X18.  When [convert_channel_data] fails, whatever the mapper: it returns
    exactly when the team of every team channel other than a main channel is
    in the team index; otherwise the exception is the [KeyError] of the id
    of a team that the index lacks.  A room without team, and the main
    channel of a team, never make it fail. *)
Theorem convert_channel_data_fails_only_for_an_unknown_team
    d team_id_to_team_map stream_id_mapper realm_id timezone_now :
  ((∃ result, convert_channel_data d team_id_to_team_map stream_id_mapper realm_id
                timezone_now = Ok result)
   ↔ Forall (λ item : string * ChannelDict, team_is_known team_id_to_team_map item.2) d) ∧
  (∀ e, convert_channel_data d team_id_to_team_map stream_id_mapper realm_id timezone_now
        = Raise e →
        ∃ item, item ∈ d ∧ team_is_unknown team_id_to_team_map item.2 e).
Proof.
  unfold convert_channel_data.
  pose proof (convert_channel_data_loop team_id_to_team_map realm_id timezone_now d
                stream_id_mapper []) as Hloop.
  destruct (fold_result _ d (stream_id_mapper, [])) as [[m' streams']|e].
  - destruct Hloop as (_ & Hknown & _). split; [|discriminate].
    split; [done|]. eauto.
  - destruct Hloop as (item & Hin & Hunknown). split.
    + split; [by intros [? [=]]|]. intros Hknown. exfalso.
      apply team_is_unknown_not_known in Hunknown. apply Hunknown.
      rewrite Forall_forall in Hknown. by apply Hknown.
    + intros e' [= <-]. eauto.
Qed.

(** ** The subscribers *)

Lemma elem_of_memberships d dsc_id_to_dsc_map pair :
  pair ∈ memberships d dsc_id_to_dsc_map ↔
  ∃ user_dict rooms, (pair.1, user_dict) ∈ d ∧ u_rooms user_dict = Some rooms ∧
    pair.2 ∈ rooms ∧ dsc_id_to_dsc_map !! pair.2 = None.
Proof.
  unfold memberships. rewrite elem_of_concat. split.
  - intros (l & Hin & Hl). apply list_elem_of_fmap in Hl as ([k user] & -> & Hitem).
    apply list_elem_of_fmap in Hin as (channel & -> & Hc).
    apply list_elem_of_filter in Hc as [Hdsc Hc]. simpl in *.
    destruct (u_rooms user) as [rooms|] eqn:Hrooms; [|by apply elem_of_nil in Hc].
    exists user, rooms. split_and!; try done. by apply eq_None_not_Some.
  - intros (user & rooms & Hitem & Hrooms & Hc & Hdsc).
    exists ((λ channel, (pair.1, channel)) <$>
              filter (λ channel, ¬ is_Some (dsc_id_to_dsc_map !! channel)) rooms).
    split.
    + apply list_elem_of_fmap. exists pair.2. split; [by destruct pair|].
      apply list_elem_of_filter. split; [by apply eq_None_not_Some|done].
    + apply list_elem_of_fmap. exists (pair.1, user). split; [|done].
      simpl. by rewrite Hrooms.
Qed.

Lemma add_members_pairs dsc_id_to_dsc_map rc_user_id rooms stores :
  foldl (add_member dsc_id_to_dsc_map rc_user_id) stores rooms
  = foldl (λ stores (pair : string * string), add_member dsc_id_to_dsc_map pair.1 stores pair.2)
      stores
      ((λ channel, (rc_user_id, channel)) <$>
         filter (λ channel, ¬ is_Some (dsc_id_to_dsc_map !! channel)) rooms).
Proof.
  revert stores. induction rooms as [|channel rooms IH]; intros stores; [done|].
  rewrite filter_cons. cbn [foldl]. case_decide as Hdsc.
  - rewrite fmap_cons. cbn [foldl]. apply IH.
  - rewrite <- IH. f_equal. unfold add_member. rewrite decide_True; [done|].
    first [done|by apply dec_stable].
Qed.

Lemma collect_members_pairs d dsc_id_to_dsc_map stores :
  collect_members d dsc_id_to_dsc_map stores
  = foldl (λ stores (pair : string * string), add_member dsc_id_to_dsc_map pair.1 stores pair.2)
      stores (memberships d dsc_id_to_dsc_map).
Proof.
  unfold collect_members, memberships. revert stores.
  induction d as [|item d IH]; intros stores; [done|].
  rewrite fmap_cons. cbn [foldl concat]. rewrite foldl_app, <- IH. f_equal.
  destruct (u_rooms item.2) as [[|channel rooms]|]; cbn [list_truthy negb default]; [done| |done].
  apply add_members_pairs.
Qed.

(** What one visit does to the membership sets: the user is added to the set
    of the room's stream. *)
Lemma add_member_run dsc_id_to_dsc_map rc_user_id stores channel :
  ¬ is_Some (dsc_id_to_dsc_map !! channel) →
  let stores' := add_member dsc_id_to_dsc_map rc_user_id stores channel in
  let stream_id := (IdMapper.get channel (ms_stream_id_mapper stores)).1 in
  let user_id := (IdMapper.get rc_user_id (ms_user_id_mapper stores)).1 in
  ms_stream_id_mapper stores' = (IdMapper.get channel (ms_stream_id_mapper stores)).2 ∧
  ms_user_id_mapper stores' = (IdMapper.get rc_user_id (ms_user_id_mapper stores)).2 ∧
  ∀ s, default ∅ (stream_members_map stores' !! s)
       = if decide (s = stream_id)
         then default ∅ (stream_members_map stores !! s) ∪ {[user_id]}
         else default ∅ (stream_members_map stores !! s).
Proof.
  intros Hdsc. unfold add_member. rewrite decide_False by done.
  destruct (IdMapper.get channel (ms_stream_id_mapper stores)) as [stream_id sm].
  destruct (IdMapper.get rc_user_id (ms_user_id_mapper stores)) as [user_id um].
  simpl. split; [done|]. split; [done|]. intros s.
  rewrite lookup_insert. destruct (decide (stream_id = s)) as [->|Hs].
  - rewrite (decide_True (P := s = s)) by done. simpl.
    case_decide as Hin; [done|]. rewrite lookup_insert_eq. simpl.
    apply eq_None_not_Some in Hin. by rewrite Hin.
  - rewrite (decide_False (P := s = stream_id)) by done.
    case_decide as Hin; [done|]. by rewrite lookup_insert_ne.
Qed.

Lemma collect_members_run dsc_id_to_dsc_map pairs stores :
  Forall (λ pair : string * string, ¬ is_Some (dsc_id_to_dsc_map !! pair.2)) pairs →
  let stores' :=
    foldl (λ stores (pair : string * string), add_member dsc_id_to_dsc_map pair.1 stores pair.2)
      stores pairs in
  ms_stream_id_mapper stores' = IdMapper.gets pairs.*2 (ms_stream_id_mapper stores) ∧
  ms_user_id_mapper stores' = IdMapper.gets pairs.*1 (ms_user_id_mapper stores) ∧
  ∀ s user_id,
    user_id ∈ default ∅ (stream_members_map stores' !! s) ↔
    user_id ∈ default ∅ (stream_members_map stores !! s) ∨
    ∃ pair, pair ∈ pairs ∧
      IdMapper.map (ms_stream_id_mapper stores') !! pair.2 = Some s ∧
      IdMapper.map (ms_user_id_mapper stores') !! pair.1 = Some user_id.
Proof.
  induction pairs as [|pair pairs IH] using rev_ind; intros Hdsc.
  { simpl. split; [done|]. split; [done|]. intros s user_id. split; [by left|].
    intros [?|(? & []%elem_of_nil & _)]. done. }
  apply Forall_app in Hdsc as [Hdscs Hpair]. rewrite Forall_singleton in Hpair.
  specialize (IH Hdscs). cbv zeta in IH |- *. rewrite foldl_snoc.
  set (stores1 := foldl _ stores pairs) in *.
  destruct IH as (Hsm & Hum & Hmem).
  destruct (add_member_run dsc_id_to_dsc_map pair.1 stores1 pair.2 Hpair)
    as (Hsm' & Hum' & Hmem').
  cbv zeta in Hsm', Hum', Hmem'.
  set (stores' := add_member dsc_id_to_dsc_map pair.1 stores1 pair.2) in *.
  assert (Hsm_eq : ms_stream_id_mapper stores'
                   = IdMapper.gets (pairs ++ [pair]).*2 (ms_stream_id_mapper stores)).
  { by rewrite fmap_app, IdMapperFacts.gets_app, <- Hsm, Hsm'. }
  assert (Hum_eq : ms_user_id_mapper stores'
                   = IdMapper.gets (pairs ++ [pair]).*1 (ms_user_id_mapper stores)).
  { by rewrite fmap_app, IdMapperFacts.gets_app, <- Hum, Hum'. }
  split; [done|]. split; [done|].
  assert (Hs_rec : IdMapper.map (ms_stream_id_mapper stores') !! pair.2
                   = Some (IdMapper.get pair.2 (ms_stream_id_mapper stores1)).1).
  { rewrite Hsm'. apply IdMapperFacts.get_recorded. }
  assert (Hu_rec : IdMapper.map (ms_user_id_mapper stores') !! pair.1
                   = Some (IdMapper.get pair.1 (ms_user_id_mapper stores1)).1).
  { rewrite Hum'. apply IdMapperFacts.get_recorded. }
  assert (Hold : ∀ p s user_id, p ∈ pairs →
            (IdMapper.map (ms_stream_id_mapper stores') !! p.2 = Some s ∧
             IdMapper.map (ms_user_id_mapper stores') !! p.1 = Some user_id)
            ↔ (IdMapper.map (ms_stream_id_mapper stores1) !! p.2 = Some s ∧
               IdMapper.map (ms_user_id_mapper stores1) !! p.1 = Some user_id)).
  { intros p s user_id Hp.
    assert (is_Some (IdMapper.map (ms_stream_id_mapper stores1) !! p.2)) as [v Hv].
    { rewrite Hsm. apply IdMapperFacts.gets_dom. left. by apply list_elem_of_fmap_2. }
    assert (is_Some (IdMapper.map (ms_user_id_mapper stores1) !! p.1)) as [w Hw].
    { rewrite Hum. apply IdMapperFacts.gets_dom. left. by apply list_elem_of_fmap_2. }
    rewrite Hsm', Hum'.
    rewrite (IdMapperFacts.get_preserves _ pair.2 _ _ Hv).
    rewrite (IdMapperFacts.get_preserves _ pair.1 _ _ Hw).
    by rewrite Hv, Hw. }
  intros s user_id. rewrite Hmem'. split.
  - intros Hin.
    assert (user_id ∈ default ∅ (stream_members_map stores1 !! s) ∨
            (s = (IdMapper.get pair.2 (ms_stream_id_mapper stores1)).1 ∧
             user_id = (IdMapper.get pair.1 (ms_user_id_mapper stores1)).1)) as [Hin'|[-> ->]].
    { case_decide; [|by left].
      apply elem_of_union in Hin as [?|?%elem_of_singleton]; [by left|by right]. }
    + apply Hmem in Hin' as [?|(p & Hp & Hlook)]; [by left|].
      right. exists p. split; [apply elem_of_app; by left|]. by apply Hold.
    + right. exists pair. split; [|done]. apply elem_of_app. right. by left.
  - intros Hin.
    assert (user_id ∈ default ∅ (stream_members_map stores1 !! s) ∨
            (s = (IdMapper.get pair.2 (ms_stream_id_mapper stores1)).1 ∧
             user_id = (IdMapper.get pair.1 (ms_user_id_mapper stores1)).1)) as [Hin'|[-> ->]].
    { destruct Hin as [Hin|(p & [Hp|Hp%list_elem_of_singleton]%elem_of_app & Hs & Hu)].
      - left. apply Hmem. by left.
      - left. apply Hmem. right. exists p. split; [done|]. by apply Hold.
      - right. subst p. split; congruence. }
    + case_decide; [|done]. apply elem_of_union. by left.
    + rewrite decide_True by done. apply elem_of_union. right. by apply elem_of_singleton.
Qed.

Lemma set_info_run (members : gmap nat (gset nat)) zerver_stream :
  ∀ (subscriber_handler : gmap nat (gset nat)) s,
    foldl (λ (subscriber_handler : gmap nat (gset nat)) stream,
             let users :=
               match members !! s_id stream with
               | Some users => users
               | None => ∅
               end in
             SubscriberHandler.set_info users (s_id stream) subscriber_handler)
          subscriber_handler zerver_stream !! s
    = if decide (s ∈ s_id <$> zerver_stream) then Some (default ∅ (members !! s))
      else subscriber_handler !! s.
Proof.
  induction zerver_stream as [|stream streams IH]; intros h s; [done|].
  cbn [foldl]. rewrite IH, fmap_cons.
  unfold SubscriberHandler.set_info, SubscriberHandler.t.
  destruct (decide (s ∈ s_id <$> streams)) as [Hin|Hin].
  - rewrite decide_True; [done|]. by right.
  - rewrite lookup_insert. destruct (decide (s_id stream = s)) as [<-|Hs].
    + rewrite decide_True by (by left). by destruct (members !! s_id stream).
    + rewrite decide_False; [done|]. rewrite not_elem_of_cons. done.
Qed.

(** X19.  [convert_subscription_data] never raises.  It asks the stream id
    mapper for the rooms and the user id mapper for the users of the
    memberships it visits (every room listed for a user, discussions left
    out) and for nothing else; afterwards the subscriber handler holds, for
    every stream of [zerver_stream], exactly the users who list a room, not a
    discussion, that the stream id mapper sends to that stream; and what it
    held for other streams is untouched. *)
Theorem convert_subscription_data_records_the_members
    d dsc_id_to_dsc_map zerver_stream stream_id_mapper user_id_mapper subscriber_handler :
  let result :=
    convert_subscription_data d dsc_id_to_dsc_map zerver_stream stream_id_mapper
      user_id_mapper subscriber_handler in
  result.1.1 = IdMapper.gets (memberships d dsc_id_to_dsc_map).*2 stream_id_mapper ∧
  result.1.2 = IdMapper.gets (memberships d dsc_id_to_dsc_map).*1 user_id_mapper ∧
  (∀ stream user_id, stream ∈ zerver_stream →
     user_id ∈ SubscriberHandler.get_users (s_id stream) result.2 ↔
     ∃ rc_user_id user_dict rooms channel,
       (rc_user_id, user_dict) ∈ d ∧ u_rooms user_dict = Some rooms ∧ channel ∈ rooms ∧
       dsc_id_to_dsc_map !! channel = None ∧
       IdMapper.map result.1.1 !! channel = Some (s_id stream) ∧
       IdMapper.map result.1.2 !! rc_user_id = Some user_id) ∧
  (∀ stream_id, stream_id ∉ s_id <$> zerver_stream →
     result.2 !! stream_id = subscriber_handler !! stream_id).
Proof.
  intros result. subst result. unfold convert_subscription_data. cbn [fst snd].
  rewrite collect_members_pairs.
  assert (Hdsc : Forall (λ pair : string * string, ¬ is_Some (dsc_id_to_dsc_map !! pair.2))
                        (memberships d dsc_id_to_dsc_map)).
  { apply Forall_forall. intros pair (_ & _ & _ & _ & _ & Hnone)%elem_of_memberships.
    by apply eq_None_not_Some. }
  destruct (collect_members_run dsc_id_to_dsc_map _
              {| ms_stream_id_mapper := stream_id_mapper;
                 ms_user_id_mapper := user_id_mapper;
                 stream_members_map := ∅ |} Hdsc) as (Hsm & Hum & Hmem).
  cbv zeta in Hsm, Hum, Hmem. simpl in Hsm, Hum.
  split; [done|]. split; [done|]. split.
  - intros stream user_id Hstream. unfold SubscriberHandler.get_users.
    rewrite set_info_run. rewrite decide_True by (by apply list_elem_of_fmap_2).
    simpl. rewrite Hmem. simpl. rewrite lookup_empty. simpl. split.
    + intros [[]%elem_of_empty|(pair & Hpair & Hs & Hu)].
      apply elem_of_memberships in Hpair as (user & rooms & Hitem & Hrooms & Hc & Hnone).
      exists pair.1, user, rooms, pair.2. by split_and!.
    + intros (k & user & rooms & channel & Hitem & Hrooms & Hc & Hnone & Hs & Hu).
      right. exists (k, channel). split; [|done].
      apply elem_of_memberships. exists user, rooms. by split_and!.
  - intros stream_id Hout. rewrite set_info_run. by rewrite decide_False.
Qed.

(** ** The recipients *)

Lemma map_receiver_id_to_recipient_id_app recipients1 recipients2 (streams users : gmap nat nat) :
  map_receiver_id_to_recipient_id (recipients1 ++ recipients2) streams users
  = map_receiver_id_to_recipient_id recipients2
      (map_receiver_id_to_recipient_id recipients1 streams users).1
      (map_receiver_id_to_recipient_id recipients1 streams users).2.
Proof.
  unfold map_receiver_id_to_recipient_id. rewrite foldl_app.
  by destruct (foldl _ (streams, users) recipients1).
Qed.

Lemma map_receiver_id_to_recipient_id_cons recipient recipients (streams users : gmap nat nat) :
  map_receiver_id_to_recipient_id (recipient :: recipients) streams users
  = if decide (rec_type recipient = STREAM) then
      map_receiver_id_to_recipient_id recipients
        (<[rec_type_id recipient := rec_id recipient]> streams) users
    else if decide (rec_type recipient = PERSONAL) then
      map_receiver_id_to_recipient_id recipients
        streams (<[rec_type_id recipient := rec_id recipient]> users)
    else map_receiver_id_to_recipient_id recipients streams users.
Proof.
  unfold map_receiver_id_to_recipient_id. cbn [foldl fst snd].
  by repeat case_decide.
Qed.

Lemma map_receiver_id_to_recipient_id_origin zerver_recipient :
  ∀ (streams users : gmap nat nat) receiver_id recipient_id,
    ((map_receiver_id_to_recipient_id zerver_recipient streams users).1 !! receiver_id
       = Some recipient_id →
     streams !! receiver_id = Some recipient_id ∨
     ∃ recipient, recipient ∈ zerver_recipient ∧ rec_type recipient = STREAM ∧
       rec_type_id recipient = receiver_id ∧ rec_id recipient = recipient_id) ∧
    ((map_receiver_id_to_recipient_id zerver_recipient streams users).2 !! receiver_id
       = Some recipient_id →
     users !! receiver_id = Some recipient_id ∨
     ∃ recipient, recipient ∈ zerver_recipient ∧ rec_type recipient = PERSONAL ∧
       rec_type_id recipient = receiver_id ∧ rec_id recipient = recipient_id).
Proof.
  induction zerver_recipient as [|recipient recipients IH];
    intros streams users receiver_id recipient_id; [split; by left|].
  rewrite map_receiver_id_to_recipient_id_cons.
  destruct (decide (rec_type recipient = STREAM)) as [Hs|Hs];
    [|destruct (decide (rec_type recipient = PERSONAL)) as [Hp|Hp]].
  - destruct (IH (<[rec_type_id recipient := rec_id recipient]> streams) users
                receiver_id recipient_id) as [IH1 IH2]. split.
    + intros [H|(r & Hin & ?)]%IH1; [|right; exists r; split; [by right|done]].
      rewrite lookup_insert in H. case_decide; [|by left].
      injection H as <-. right. exists recipient. split; [by left|done].
    + intros [H|(r & Hin & ?)]%IH2; [by left|]. right. exists r. split; [by right|done].
  - destruct (IH streams (<[rec_type_id recipient := rec_id recipient]> users)
                receiver_id recipient_id) as [IH1 IH2]. split.
    + intros [H|(r & Hin & ?)]%IH1; [by left|]. right. exists r. split; [by right|done].
    + intros [H|(r & Hin & ?)]%IH2; [|right; exists r; split; [by right|done]].
      rewrite lookup_insert in H. case_decide; [|by left].
      injection H as <-. right. exists recipient. split; [by left|done].
  - destruct (IH streams users receiver_id recipient_id) as [IH1 IH2]. split.
    + intros [H|(r & Hin & ?)]%IH1; [by left|]. right. exists r. split; [by right|done].
    + intros [H|(r & Hin & ?)]%IH2; [by left|]. right. exists r. split; [by right|done].
Qed.

Lemma map_receiver_id_to_recipient_id_keeps zerver_recipient :
  ∀ (streams users : gmap nat nat) receiver_id recipient_id,
    (streams !! receiver_id = Some recipient_id →
     (∀ recipient, recipient ∈ zerver_recipient → rec_type recipient = STREAM →
        rec_type_id recipient ≠ receiver_id) →
     (map_receiver_id_to_recipient_id zerver_recipient streams users).1 !! receiver_id
       = Some recipient_id) ∧
    (users !! receiver_id = Some recipient_id →
     (∀ recipient, recipient ∈ zerver_recipient → rec_type recipient = PERSONAL →
        rec_type_id recipient ≠ receiver_id) →
     (map_receiver_id_to_recipient_id zerver_recipient streams users).2 !! receiver_id
       = Some recipient_id).
Proof.
  induction zerver_recipient as [|recipient recipients IH];
    intros streams users receiver_id recipient_id; [done|].
  rewrite map_receiver_id_to_recipient_id_cons.
  destruct (decide (rec_type recipient = STREAM)) as [Hs|Hs];
    [|destruct (decide (rec_type recipient = PERSONAL)) as [Hp|Hp]].
  - destruct (IH (<[rec_type_id recipient := rec_id recipient]> streams) users
                receiver_id recipient_id) as [IH1 IH2]. split.
    + intros H Hother. apply IH1; [|intros r Hr; apply Hother; by right].
      rewrite lookup_insert_ne; [done|]. apply Hother; [by left|done].
    + intros H Hother. apply IH2; [done|intros r Hr; apply Hother; by right].
  - destruct (IH streams (<[rec_type_id recipient := rec_id recipient]> users)
                receiver_id recipient_id) as [IH1 IH2]. split.
    + intros H Hother. apply IH1; [done|intros r Hr; apply Hother; by right].
    + intros H Hother. apply IH2; [|intros r Hr; apply Hother; by right].
      rewrite lookup_insert_ne; [done|]. apply Hother; [by left|done].
  - destruct (IH streams users receiver_id recipient_id) as [IH1 IH2]. split.
    + intros H Hother. apply IH1; [done|intros r Hr; apply Hother; by right].
    + intros H Hother. apply IH2; [done|intros r Hr; apply Hother; by right].
Qed.

(** X20.  [map_receiver_id_to_recipient_id] from two empty dictionaries: an
    entry of [stream_id_to_recipient_id] comes from a stream recipient and
    an entry of [user_id_to_recipient_id] from a personal recipient, each
    sending the id of the stream or user to the id of the recipient;
    recipients of another kind leave no entry; and when no two recipients
    share kind and receiver, every stream recipient and every personal
    recipient is found under its receiver. *)
Theorem map_receiver_id_to_recipient_id_indexes_the_recipients zerver_recipient :
  let maps := map_receiver_id_to_recipient_id zerver_recipient ∅ ∅ in
  (∀ stream_id recipient_id, maps.1 !! stream_id = Some recipient_id →
     ∃ recipient, recipient ∈ zerver_recipient ∧ rec_type recipient = STREAM ∧
       rec_type_id recipient = stream_id ∧ rec_id recipient = recipient_id) ∧
  (∀ user_id recipient_id, maps.2 !! user_id = Some recipient_id →
     ∃ recipient, recipient ∈ zerver_recipient ∧ rec_type recipient = PERSONAL ∧
       rec_type_id recipient = user_id ∧ rec_id recipient = recipient_id) ∧
  (NoDup ((λ recipient, (rec_type recipient, rec_type_id recipient)) <$> zerver_recipient) →
   ∀ recipient, recipient ∈ zerver_recipient →
     (rec_type recipient = STREAM →
      maps.1 !! rec_type_id recipient = Some (rec_id recipient)) ∧
     (rec_type recipient = PERSONAL →
      maps.2 !! rec_type_id recipient = Some (rec_id recipient))).
Proof.
  intros maps. subst maps. split_and!.
  - intros k v H.
    apply (map_receiver_id_to_recipient_id_origin zerver_recipient ∅ ∅ k v) in H
      as [H|?]; [|done].
    by rewrite lookup_empty in H.
  - intros k v H.
    apply (map_receiver_id_to_recipient_id_origin zerver_recipient ∅ ∅ k v) in H
      as [H|?]; [|done].
    by rewrite lookup_empty in H.
  - intros Hnd recipient (pre & post & ->)%list_elem_of_split.
    rewrite fmap_app, fmap_cons in Hnd.
    apply NoDup_app in Hnd as (_ & _ & Hnd). apply NoDup_cons in Hnd as [Hfresh _].
    assert (Hother : ∀ r, r ∈ post → rec_type r = rec_type recipient →
                          rec_type_id r ≠ rec_type_id recipient).
    { intros r Hr Ht Hi. apply Hfresh. rewrite <- Ht, <- Hi.
      by apply (list_elem_of_fmap_2 (λ r, (rec_type r, rec_type_id r))). }
    rewrite map_receiver_id_to_recipient_id_app, map_receiver_id_to_recipient_id_cons.
    split; intros Hkind.
    + rewrite decide_True by done.
      apply map_receiver_id_to_recipient_id_keeps; [apply lookup_insert_eq|].
      intros r Hr Ht. apply Hother; [done|congruence].
    + rewrite decide_False by congruence. rewrite decide_True by done.
      apply map_receiver_id_to_recipient_id_keeps; [apply lookup_insert_eq|].
      intros r Hr Ht. apply Hother; [done|congruence].
Qed.

(** ** The recipient of a converted message *)

Lemma message_to_dict_recipient env (is_pm_data : bool) message st raw st' :
  message_to_dict env is_pm_data message st = Ok (raw, st') →
  ∃ receiver_id,
    (if is_pm_data then user_id_to_recipient_id env else stream_id_to_recipient_id env)
      !! receiver_id = Some (recipient_id raw).
Proof.
  unfold message_to_dict. intros H.
  apply bind_inv in H as (sender_id & st1 & _ & H).
  apply bind_inv in H as (rs & st2 & _ & H).
  apply bind_inv in H as (routed & st3 & H3 & H).
  apply bind_inv in H as (ids & st4 & _ & H).
  injection H as <- _. simpl. clear -H3. destruct is_pm_data.
  - apply bind_inv in H3 as (rid & s1 & E1 & H3). apply field_inv in E1 as [_ ->].
    apply bind_inv in H3 as (direct & s2 & E2 & H3). apply subscript_inv in E2 as [_ ->].
    apply bind_inv in H3 as (uids & s3 & E3 & H3). apply field_inv in E3 as [_ ->].
    apply bind_inv in H3 as (member_0 & s4 & E4 & H3). apply index_inv in E4 as [_ ->].
    apply bind_inv in H3 as (recipient & s5 & E5 & H3). injection H3 as <- _. simpl.
    destruct (decide (m_sender message = member_0)).
    + apply bind_inv in E5 as (member_1 & s6 & E6 & E5). apply index_inv in E6 as [_ ->].
      apply bind_inv in E5 as (zid & s7 & E7 & E5). apply subscript_inv in E5 as [E5 _].
      eauto.
    + apply bind_inv in E5 as (zid & s7 & E7 & E5). apply subscript_inv in E5 as [E5 _].
      eauto.
  - apply bind_inv in H3 as (rid & s1 & E1 & H3). apply field_inv in E1 as [_ ->].
    destruct (dsc_id_to_dsc_map (channel_maps env) !! rid) as [dsc_channel|].
    + apply bind_inv in H3 as (prid & s2 & E2 & H3). apply field_inv in E2 as [_ ->].
      apply bind_inv in H3 as (sid & s3 & E3 & H3).
      apply bind_inv in H3 as (recipient & s4 & E4 & H3). apply subscript_inv in E4 as [E4 ->].
      apply bind_inv in H3 as (fname & s5 & E5 & H3). apply field_inv in E5 as [_ ->].
      injection H3 as <- _. simpl. eauto.
    + apply bind_inv in H3 as (sid & s3 & E3 & H3).
      apply bind_inv in H3 as (recipient & s4 & E4 & H3). apply subscript_inv in E4 as [E4 ->].
      injection H3 as <- _. simpl. eauto.
Qed.

(** X21.  With the two dictionaries made by
    [map_receiver_id_to_recipient_id] from [zerver_recipient], the recipient
    of every converted message is a recipient of [zerver_recipient]: a
    personal recipient for a message converted with the private messages, a
    stream recipient for one converted with the channel messages. *)
Theorem converted_message_has_a_recipient_of_its_kind
    zerver_recipient env (is_pm_data : bool) message st raw st' :
  stream_id_to_recipient_id env
    = (map_receiver_id_to_recipient_id zerver_recipient ∅ ∅).1 →
  user_id_to_recipient_id env
    = (map_receiver_id_to_recipient_id zerver_recipient ∅ ∅).2 →
  message_to_dict env is_pm_data message st = Ok (raw, st') →
  ∃ recipient, recipient ∈ zerver_recipient ∧
    rec_id recipient = recipient_id raw ∧
    rec_type recipient = (if is_pm_data then PERSONAL else STREAM).
Proof.
  intros Hstreams Husers [receiver_id H]%message_to_dict_recipient.
  destruct (map_receiver_id_to_recipient_id_origin zerver_recipient ∅ ∅
              receiver_id (recipient_id raw)) as [Hs Hu].
  destruct is_pm_data.
  - rewrite Husers in H. apply Hu in H as [H|(r & Hin & Ht & _ & Hid)].
    + by rewrite lookup_empty in H.
    + by exists r.
  - rewrite Hstreams in H. apply Hs in H as [H|(r & Hin & Ht & _ & Hid)].
    + by rewrite lookup_empty in H.
    + by exists r.
Qed.
(** ** The streams and the subscribers in the two variants *)

(** X22.  [convert_channel_data] of rocketchat1.py and of rocketchat.py give
    the same streams, the same mapper and the same exception, provided no
    room has an empty team id: one tests that the key [teamId] is present,
    the other that its value is true. *)
Theorem variants_agree_on_the_streams
    d team_id_to_team_map stream_id_mapper realm_id timezone_now :
  Forall (λ item : string * ChannelDict, ch_teamId (cd_channel item.2) ≠ Some "") d →
  Rocketchat1Stages.convert_channel_data d team_id_to_team_map stream_id_mapper realm_id
    timezone_now
  = convert_channel_data d team_id_to_team_map stream_id_mapper realm_id timezone_now.
Proof.
  unfold Rocketchat1Stages.convert_channel_data, convert_channel_data. intros Hd.
  generalize (stream_id_mapper, @nil Stream).
  induction Hd as [|item d Hitem _ IH]; intros acc; [done|].
  cbn [fold_result].
  assert (Rocketchat1Stages.convert_channel team_id_to_team_map realm_id timezone_now acc item
          = convert_channel team_id_to_team_map realm_id timezone_now acc item) as ->.
  { unfold Rocketchat1Stages.convert_channel, convert_channel.
    assert (Rocketchat1Stages.stream_name_and_desc team_id_to_team_map item.2
            = stream_name_and_desc team_id_to_team_map item.2) as ->; [|done].
    unfold Rocketchat1Stages.stream_name_and_desc, stream_name_and_desc.
    by destruct (ch_teamId (cd_channel item.2)) as [[|c s]|]. }
  destruct (convert_channel _ _ _ acc item); [apply IH|done].
Qed.

(** X23.  [convert_subscription_data] of rocketchat1.py and of rocketchat.py
    give the same mappers and the same subscriber handler on every input:
    one skips a user without the key [__rooms], the other a user whose
    [__rooms] is false, and an empty list of rooms is visited to no effect. *)
Theorem variants_agree_on_the_subscribers
    d dsc_id_to_dsc_map zerver_stream stream_id_mapper user_id_mapper subscriber_handler :
  Rocketchat1Stages.convert_subscription_data d dsc_id_to_dsc_map zerver_stream
    stream_id_mapper user_id_mapper subscriber_handler
  = convert_subscription_data d dsc_id_to_dsc_map zerver_stream
      stream_id_mapper user_id_mapper subscriber_handler.
Proof.
  unfold Rocketchat1Stages.convert_subscription_data, convert_subscription_data.
  assert (∀ stores, Rocketchat1Stages.collect_members d dsc_id_to_dsc_map stores
                    = collect_members d dsc_id_to_dsc_map stores) as ->; [|done].
  unfold Rocketchat1Stages.collect_members, collect_members.
  induction d as [|item d IH]; intros stores; [done|].
  cbn [foldl]. rewrite IH. f_equal.
  by destruct (u_rooms item.2) as [[|channel rooms]|].
Qed.

(** ** A mention that the user handler cannot resolve *)

Lemma fix_mentions_raise user_handler content mention_user_ids :
  ¬ Forall (λ user_id, ∃ user, UserHandler.get_user user_id user_handler = Ok user)
           mention_user_ids →
  ∃ user_id, user_id ∈ mention_user_ids ∧
    UserHandler.get_user user_id user_handler = Raise (KeyError (Py.str user_id)) ∧
    fix_mentions user_handler content mention_user_ids = Raise (KeyError (Py.str user_id)).
Proof.
  unfold fix_mentions. revert content.
  induction mention_user_ids as [|user_id ids IH]; intros content Hnot.
  { by destruct Hnot. }
  cbn [fold_result].
  destruct (UserHandler.get_user user_id user_handler) as [user|e] eqn:Hu.
  - destruct (IH (Py.replace ("@" +:+ up_short_name user)
                    ("@**" +:+ up_full_name user +:+ "**") content))
      as (id & Hin & Hget & Hraise).
    { intros Hids. apply Hnot. constructor; eauto. }
    exists id. split; [by right|done].
  - assert (e = KeyError (Py.str user_id)) as ->.
    { unfold UserHandler.get_user in Hu.
      destruct (list_find _ user_handler) as [[i u]|]; [discriminate|].
      by injection Hu as <-. }
    exists user_id. split; [by left|done].
Qed.

(** X24.  A converted message that mentions a user id unknown to the user
    handler (as is the id newly given to a mentioned account that is not in
    the users collection): [process_raw_message_batch] raises the [KeyError]
    of such an id when it reaches the message, whatever follows it in the
    batch, and so writes no file for the batch. *)
Theorem unresolved_mention_aborts_the_batch
    env pre raw_message post is_pm_data st :
  Forall (mentions_resolvable env) pre →
  ¬ mentions_resolvable env raw_message →
  ∃ user_id, user_id ∈ mention_user_ids raw_message ∧
    UserHandler.get_user user_id (user_handler env) = Raise (KeyError (Py.str user_id)) ∧
    process_raw_message_batch env (pre ++ raw_message :: post) is_pm_data st
      = Raise (KeyError (Py.str user_id)).
Proof.
  intros Hpre Hnot.
  destruct (fix_mentions_raise (user_handler env) (content raw_message)
              (mention_user_ids raw_message) Hnot) as (user_id & Hin & Hget & Hraise).
  exists user_id. split; [done|]. split; [done|].
  unfold process_raw_message_batch. apply bind_Raise.
  rewrite fold_for_app.
  destruct (batch_loop_spec env pre Hpre {| mention_map := ∅; acc_zerver_message := [] |} st)
    as (acc1 & st1 & Hloop & _).
  rewrite bind_Ok with (1 := Hloop). cbn [fold_for]. apply bind_Raise.
  unfold process_raw_message. erewrite bind_Ok; [|reflexivity].
  apply bind_Raise. unfold lift. by rewrite Hraise.
Qed.
(** ** Direct channels with more than two members *)

(** The routing step of [message_to_dict] for a message of a direct channel
    whose member list starts with [A] and [B]. *)
Lemma group_route env st message rid direct A B others :
  m_rid message = Some rid →
  direct_id_to_direct_map (channel_maps env) !! rid = Some direct →
  ch_uids direct = Some (A :: B :: others) →
  ∀ k : nat * string → M RawMessage,
  bind (let* direct_channel_id := field (m_rid message) "rid" in
        let* direct := subscript (direct_id_to_direct_map (channel_maps env))
                         direct_channel_id direct_channel_id in
        let* rc_member_ids := field (ch_uids direct) "uids" in
        let* member_0 := index rc_member_ids 0 in
        let* recipient_id :=
          if decide (m_sender message = member_0) then
            let* member_1 := index rc_member_ids 1 in
            let* zulip_member_id := user_id_mapper_get member_1 in
            subscript (user_id_to_recipient_id env) zulip_member_id (Py.str zulip_member_id)
          else
            let* zulip_member_id := user_id_mapper_get member_0 in
            subscript (user_id_to_recipient_id env) zulip_member_id (Py.str zulip_member_id) in
        ret (recipient_id, "")) k st
  = let target := if decide (m_sender message = A) then B else A in
    let got := IdMapper.get target (user_id_mapper st) in
    match user_id_to_recipient_id env !! got.1 with
    | Some r => k (r, "") (with_user_id_mapper st got.2)
    | None => Raise (KeyError (Py.str got.1))
    end.
Proof.
  intros Hrid Hdirect Huids k.
  rewrite Hrid. simpl. unfold bind at 1 2. simpl.
  unfold subscript at 1. rewrite Hdirect. simpl.
  unfold bind at 1 2. simpl. rewrite Huids. simpl.
  unfold bind at 1 2. simpl.
  destruct (decide (m_sender message = A)); simpl.
  - unfold bind. simpl. rewrite user_id_mapper_get_spec.
    unfold subscript. by destruct (user_id_to_recipient_id env !! _).
  - unfold bind. rewrite user_id_mapper_get_spec.
    unfold subscript. by destruct (user_id_to_recipient_id env !! _).
Qed.

(** X25.  A message of a direct channel with more than two members, member
    list [A], [B] and others, converted with the private messages: only the
    first two members are read.  The addressee is [B] when the sender is
    [A], and [A] for every other sender, the members after [B] included.
    Whenever the conversion yields a record, its recipient is the personal
    recipient of the addressee and its topic is empty; and it does yield
    that record as soon as the reactions resolve and the addressee, already
    known to the mapper, has a personal recipient.  No member after [B] is
    ever the addressee. *)
Theorem direct_routing_reads_two_members env st message rid direct A B others :
  m_rid message = Some rid →
  direct_id_to_direct_map (channel_maps env) !! rid = Some direct →
  ch_uids direct = Some (A :: B :: others) →
  let addressee := if decide (m_sender message = A) then B else A in
  (∀ raw st', message_to_dict env true message st = Ok (raw, st') →
     user_id_to_recipient_id env !! (IdMapper.get addressee (user_id_mapper st')).1
       = Some (recipient_id raw) ∧
     topic_name raw = "") ∧
  (reactions_resolvable env message →
   ∀ i r, IdMapper.map (user_id_mapper st) !! addressee = Some i →
          user_id_to_recipient_id env !! i = Some r →
     ∃ raw st', message_to_dict env true message st = Ok (raw, st') ∧
       recipient_id raw = r ∧ topic_name raw = "").
Proof.
  intros Hrid Hdirect Huids addressee. split.
  - intros raw st' H. unfold message_to_dict in H.
    rewrite bind_Ok with (1 := user_id_mapper_get_spec _ _) in H.
    apply bind_inv in H as (rs & st2 & Hr & H).
    rewrite (group_route env st2 message rid direct A B others) in H by done.
    fold addressee in H. cbv zeta in H.
    destruct (user_id_to_recipient_id env !! _) as [r|] eqn:Hrec; [|discriminate].
    apply bind_inv in H as (ids & st4 & Hm & H). injection H as <- <-. simpl.
    split; [|done]. apply collect_mentions_frame in Hm.
    rewrite (IdMapperFacts.get_known addressee
               (IdMapper.get addressee (user_id_mapper st2)).1); [done|].
    eapply user_gets_known; [exact Hm|]. simpl. apply IdMapperFacts.get_recorded.
  - intros Hres i r Hknown Hrec. unfold message_to_dict.
    rewrite bind_Ok with (1 := user_id_mapper_get_spec _ _).
    destruct (list_reactions_total env message
                (with_user_id_mapper st (IdMapper.get (m_sender message) (user_id_mapper st)).2)
                Hres) as (rs & st2 & Hr).
    assert (Hframe : user_gets st st2).
    { eapply user_gets_trans; [apply user_id_mapper_get_frame|].
      by eapply list_reactions_frame. }
    rewrite bind_Ok with (1 := Hr).
    rewrite (group_route env st2 message rid direct A B others) by done.
    fold addressee. cbv zeta.
    pose proof (user_gets_known _ _ _ _ Hframe Hknown) as Hknown2.
    rewrite (IdMapperFacts.get_known _ _ _ Hknown2). simpl. rewrite Hrec.
    match goal with |- context [bind (collect_mentions ?o ?ms) _ ?s] =>
      destruct (collect_mentions_total o ms s) as (ids & st4 & Hm) end.
    rewrite bind_Ok with (1 := Hm). eexists _, _. split; [done|]. by simpl.
Qed.
(** ** The further properties on the snapshots *)

Example map_user_id_to_user_example :
  map_user_id_to_user Fixture.users = Fixture.user_map.
Proof. reflexivity. Qed.

Example process_users_example :
  (λ user, (zu_id user, zu_email user, zu_is_active user, zu_role user)) <$> Fixture.converted.2
  = [(0, "alice@example.com", true, ROLE_REALM_OWNER);
     (1, "bob@example.com", true, ROLE_MEMBER);
     (2, "rocket.cat-bot@example.com", false, ROLE_MEMBER)].
Proof. vm_compute. reflexivity. Qed.

Example convert_channel_data_example :
  (λ stores : IdMapper.t * list Stream,
     (λ stream, (s_id stream, s_name stream, s_description stream, s_invite_only stream))
       <$> stores.2) <$>
    match convert_channel_data Fixture.room_map Fixture.team_map (IdMapper.new 0) 0
            (λ _, 1600000000%Z) with
    | Ok stores => Some stores
    | Raise _ => None
    end
  = Some [(0, "general", "", false);
          (1, "[TEAM] core", "The core team", false);
          (2, "core-dev", "[Team core channel]. Development", true)].
Proof. vm_compute. reflexivity. Qed.

(** [categorize_last_record_wins] on two records with the id GENERAL. *)
Lemma categorize_last_record_wins_witness :
  ∃ maps,
    categorize_channels_and_map_with_id
      [Sample.general; Fixture.general_private; Sample.triage] empty_maps = Ok maps ∧
    room_id_to_room_map maps !! "GENERAL" = Some Fixture.general_private.
Proof.
  destruct (categorize_channels_and_map_with_id
              [Sample.general; Fixture.general_private; Sample.triage] empty_maps)
    as [maps|e] eqn:H; [|vm_compute in H; discriminate H].
  exists maps. split; [reflexivity|].
  apply (categorize_last_record_wins [Sample.general] Fixture.general_private
           [Sample.triage] empty_maps maps H).
  intros ch Hin Hid. apply list_elem_of_singleton in Hin. subst ch. discriminate Hid.
Defined.

(** [fix_mentions_keeps_a_body_without_at] on a mention of Alice in a body
    that does not name her. *)
Lemma fix_mentions_keeps_a_body_without_at_witness :
  fix_mentions (user_handler Sample.env) "hi" [0] = Ok "hi".
Proof.
  apply (fix_mentions_keeps_a_body_without_at (user_handler Sample.env) "hi" [0]).
  - apply Forall_cons_2; [|apply Forall_nil_2]. exists Sample.alice. reflexivity.
  - intros a b H.
    destruct a as [|c1 a]; [discriminate H|]. injection H as _ H.
    destruct a as [|c2 a]; [discriminate H|]. injection H as _ H.
    destruct a as [|c3 a]; discriminate H.
Defined.

(** [room_routing] on a message in GENERAL. *)
Lemma room_routing_witness :
  ∃ raw st',
    message_to_dict Sample.env false Sample.hello Sample.state = Ok (raw, st') ∧
    topic_name raw = "Imported from Rocket.Chat" ∧ recipient_id raw = 2.
Proof.
  pose proof (room_routing Sample.env Sample.state Sample.hello "GENERAL") as H.
  assert (Hrec : stream_id_to_recipient_id Sample.env
                   !! (IdMapper.get "GENERAL" (stream_id_mapper Sample.state)).1 = Some 2)
    by (vm_compute; reflexivity).
  cbv zeta in H. rewrite Hrec in H.
  destruct H as (raw & st' & H & Ht & Hr & _).
  - reflexivity.
  - vm_compute. reflexivity.
  - apply Forall_nil_2.
  - exists raw, st'. split; [exact H|]. split; [exact Ht|exact Hr].
Defined.


(** [process_messages_writes_numbered_files] on two messages. *)
Lemma process_messages_writes_numbered_files_witness :
  ∃ st' new_files,
    process_messages Sample.env false [Sample.hello; Sample.review] Sample.state
      = Ok (tt, st') ∧
    files st' = new_files ∧
    new_files.*1 = ["/messages-000000.json"].
Proof.
  destruct (process_messages_writes_numbered_files Sample.env false
              [Sample.hello; Sample.review] [Sample.raw "hello"; Sample.raw_review]
              Sample.state Sample.state)
    as (st' & new_files & H & Hf & Hlen & _ & Hnames & _).
  - vm_compute. reflexivity.
  - repeat constructor. by exists Sample.alice.
  - exists st', new_files. split; [exact H|]. split; [exact Hf|].
    rewrite Hnames, Hlen. vm_compute. reflexivity.
Defined.

(** [message_stage_never_reuses_a_number] on a room message, a message with a
    reaction, and a direct message. *)
Lemma message_stage_never_reuses_a_number_witness :
  ∃ st',
    convert_all_messages Sample.env [Sample.hello; Fixture.whisper; Sample.review]
      Sample.state = Ok (tt, st') ∧
    NoDup (concat (file_ids <$> files st')) ∧
    NoDup (files st').*1.
Proof.
  destruct (convert_all_messages Sample.env [Sample.hello; Fixture.whisper; Sample.review]
              Sample.state) as [[[] st']|e] eqn:H; [|vm_compute in H; discriminate H].
  exists st'. split; [reflexivity|].
  destruct (message_stage_never_reuses_a_number Sample.env
              [Sample.hello; Fixture.whisper; Sample.review] Sample.state st' H)
    as (new_files & new_reactions & Hf & _ & Hids & _ & _ & Hnames & _).
  change (files Sample.state) with (@nil (string * MessageJson)) in Hf.
  rewrite app_nil_l in Hf. rewrite Hf. split; [exact Hids|exact Hnames].
Defined.

(** [username_index_names_the_users] on the three accounts. *)
Lemma username_index_names_the_users_witness :
  map_username_to_user_id (map_user_id_to_user Fixture.users) !! "alice" = Some "rcAlice".
Proof.
  apply (username_index_names_the_users Fixture.users "alice" "rcAlice").
  - apply (bool_decide_unpack (NoDup (u_id <$> Fixture.users))). vm_compute. exact I.
  - apply (bool_decide_unpack (NoDup (u_username <$> Fixture.users))). vm_compute. exact I.
  - exists Fixture.alice_account. split; [by left|]. split; reflexivity.
Defined.

Lemma user_map_has_addresses :
  Forall (λ item : string * User, has_address item.2) Fixture.user_map.
Proof.
  unfold Fixture.user_map.
  repeat apply Forall_cons_2; [..|apply Forall_nil_2];
    unfold has_address; simpl; intros; first [reflexivity|discriminate].
Qed.

(** [process_users_numbers_the_users] on the three accounts. *)
Lemma process_users_numbers_the_users_witness :
  ∃ user_id_mapper user_handler,
    process_users Fixture.user_map 0 "example.com" (λ _, 1600000000%Z) [] (IdMapper.new 0)
      = Ok (user_id_mapper, user_handler) ∧
    zu_id <$> user_handler = [0; 1; 2].
Proof.
  destruct (process_users_numbers_the_users Fixture.user_map 0 "example.com"
              (λ _, 1600000000%Z) 0)
    as (mapper & handler & H & _ & Hids & _).
  - apply (bool_decide_unpack (NoDup (PyDict.keys Fixture.user_map))). vm_compute. exact I.
  - apply user_map_has_addresses.
  - exists mapper, handler. split; [exact H|exact Hids].
Defined.

(** [process_users_fails_only_for_a_user_without_address] on the three
    accounts: the bot has no address and does not make it fail. *)
Lemma process_users_fails_only_witness :
  ∃ stores,
    process_users Fixture.user_map 0 "example.com" (λ _, 1600000000%Z) [] (IdMapper.new 0)
      = Ok stores.
Proof.
  destruct (process_users_fails_only_for_a_user_without_address Fixture.user_map 0
              "example.com" (λ _, 1600000000%Z) 0) as [[_ Hok] _].
  - apply (bool_decide_unpack (NoDup (PyDict.keys Fixture.user_map))). vm_compute. exact I.
  - apply Hok, user_map_has_addresses.
Defined.

(** [converted_users_are_known_to_the_message_stage] on the three accounts
    and a message to which Alice reacted. *)
Lemma converted_users_are_known_witness :
  reactions_known Fixture.staged_env Fixture.staged_state Sample.review ∧
  ∃ id, IdMapper.map (user_id_mapper Fixture.staged_state) !! "rcBot" = Some id ∧
        UserHandler.get_user id (user_handler Fixture.staged_env)
        = Ok {| up_id := id; up_full_name := "Rocket.Cat"; up_short_name := "rocket.cat" |}.
Proof.
  destruct (converted_users_are_known_to_the_message_stage Fixture.user_map 0 "example.com"
              (λ _, 1600000000%Z) 0 Fixture.converted.1 Fixture.converted.2
              Fixture.staged_env Fixture.staged_state) as [Hr Hu].
  - vm_compute. reflexivity.
  - reflexivity.
  - reflexivity.
  - exists []. reflexivity.
  - split; [apply Hr|].
    apply (Hu ("rcBot", Fixture.bot_account)). unfold Fixture.user_map.
    apply elem_of_cons. right. apply elem_of_cons. right. apply elem_of_cons. by left.
Defined.

Lemma room_map_teams_are_known :
  Forall (λ item : string * ChannelDict, team_is_known Fixture.team_map item.2)
         Fixture.room_map.
Proof.
  unfold Fixture.room_map.
  repeat apply Forall_cons_2; [..|apply Forall_nil_2];
    unfold team_is_known; simpl; intros team_id Hid Hne Hmain.
  - discriminate Hid.
  - by destruct Hmain.
  - injection Hid as <-. vm_compute. eauto.
Qed.

(** [convert_channel_data_numbers_the_streams] on the three rooms. *)
Lemma convert_channel_data_numbers_the_streams_witness :
  ∃ stream_id_mapper zerver_stream,
    convert_channel_data Fixture.room_map Fixture.team_map (IdMapper.new 0) 0
      (λ _, 1600000000%Z) = Ok (stream_id_mapper, zerver_stream) ∧
    s_id <$> zerver_stream = [0; 1; 2].
Proof.
  destruct (convert_channel_data_numbers_the_streams Fixture.room_map Fixture.team_map 0
              (λ _, 1600000000%Z) 0)
    as (mapper & streams & H & _ & Hids & _).
  - apply (bool_decide_unpack (NoDup (PyDict.keys Fixture.room_map))). vm_compute. exact I.
  - apply room_map_teams_are_known.
  - exists mapper, streams. split; [exact H|exact Hids].
Defined.

(** [converted_message_has_a_recipient_of_its_kind] on a message in GENERAL. *)
Lemma converted_message_has_a_recipient_witness :
  ∃ recipient, recipient ∈ Fixture.recipients ∧ rec_id recipient = 2 ∧
               rec_type recipient = STREAM.
Proof.
  apply (converted_message_has_a_recipient_of_its_kind Fixture.recipients Sample.env false
           Sample.hello Sample.state (Sample.raw "hello") Sample.state).
  - vm_compute. reflexivity.
  - vm_compute. reflexivity.
  - vm_compute. reflexivity.
Defined.

(** [variants_agree_on_the_streams] on the three rooms. *)
Lemma variants_agree_on_the_streams_witness :
  Rocketchat1Stages.convert_channel_data Fixture.room_map Fixture.team_map (IdMapper.new 0) 0
    (λ _, 1600000000%Z)
  = convert_channel_data Fixture.room_map Fixture.team_map (IdMapper.new 0) 0
      (λ _, 1600000000%Z).
Proof.
  apply (variants_agree_on_the_streams Fixture.room_map Fixture.team_map (IdMapper.new 0) 0
           (λ _, 1600000000%Z)).
  unfold Fixture.room_map.
  repeat apply Forall_cons_2; [..|apply Forall_nil_2]; simpl; discriminate.
Defined.

(** [unresolved_mention_aborts_the_batch] on a mention of the id 7. *)
Lemma unresolved_mention_aborts_the_batch_witness :
  process_raw_message_batch Sample.env [Sample.raw "hello"; Fixture.raw_stranger] false
    Sample.state = Raise (KeyError "7").
Proof.
  destruct (unresolved_mention_aborts_the_batch Sample.env [Sample.raw "hello"]
              Fixture.raw_stranger [] false Sample.state) as (user_id & Hin & _ & H).
  - apply Forall_cons_2; [apply Forall_nil_2|apply Forall_nil_2].
  - intros Hres. apply Forall_cons in Hres as [[user Hu] _].
    vm_compute in Hu. discriminate Hu.
  - apply list_elem_of_singleton in Hin. subst user_id. exact H.
Defined.

(** [direct_routing_reads_two_members] on a message of the third member. *)
Lemma direct_routing_reads_two_members_witness :
  ∃ raw st',
    message_to_dict Fixture.env true (Sample.message "rcCarol" "trio" "hi all")
      Sample.state = Ok (raw, st') ∧
    recipient_id raw = 0 ∧ topic_name raw = "".
Proof.
  destruct (direct_routing_reads_two_members Fixture.env Sample.state
              (Sample.message "rcCarol" "trio" "hi all")
              "trio" Fixture.trio "rcAlice" "rcBob" ["rcCarol"])
    as [_ Htotal].
  - reflexivity.
  - vm_compute. reflexivity.
  - reflexivity.
  - apply (Htotal (Forall_nil_2 _) 0 0); vm_compute; reflexivity.
Defined.
